(** * Sum-check protocol over low-degree extensions: a shallow embedding

    The development follows the TypeScript sources of the repository:
    - [lib/util.ts]                                  (module [Util]),
    - [lib/sum-check/univariate-lagrange.ts]         (module [UnivariateLagrange]),
    - [lib/sum-check/multilinear-lagrange.ts]        (module [MultilinearLagrange]),
    - [lib/message-extensions/multilinear-lagrange.ts] and
      [lib/message-extensions/fast-multilinear-lagrange.ts]
                                                     (module [MessageExtensions]),
    - [lib/sum-check/sum-check.ts]                   (module [SumCheck]),
    - [lib/sum-check/sum-check-prover.ts]            (module [SumCheckProver]),
    - [lib/sum-check/sum-check-iterative.ts]         (module [SumCheckIterative]).

    Thrown exceptions are values of [result]; the mutable fields of the
    [Prover] and [Verifier] classes are records threaded through the calls;
    the verifier's random draws are an argument.  The embedding comes first,
    then the reference definitions the statements use (field sums, the
    multilinear extension as a sum over the cube), then the properties. *)

From Stdlib Require Import ZArith List Bool Lia Ring Eqdep_dec PeanoNat.
Import ListNotations.

Local Open Scope Z_scope.

(* ================================================================== *)
(** ** Errors and results *)

(** The kinds of failure of the specification, one per [throw] site of the
    sources.  [TypeError] is what JavaScript raises when [undefined] is used
    as an object or converted to a field element. *)
Inductive error : Type :=
| EmptyInputError
| DimensionMismatchError
| InvalidArityError
| RoundOverflowError
| MissingChallengeError
| UnexpectedChallengeError
| TooManyRoundsError
| DegreeError
| SumMismatchError
| OracleMismatchError
| IncompleteRoundsError
| DivisionByZeroError
| InvalidAsciiError
| InvalidArgumentError
| TypeError.

Inductive result (A : Type) : Type :=
| Ok (a : A)
| Err (e : error).

Arguments Ok {A} a.
Arguments Err {A} e.

Definition bind {A B : Type} (m : result A) (k : A -> result B) : result B :=
  match m with
  | Ok a => k a
  | Err e => Err e
  end.

Notation "x <- m ;; k" := (bind m (fun x => k))
  (at level 61, m at next level, right associativity).

(** [for (const i of idxs) acc = body(i, acc)], stopping at the first throw. *)
Fixpoint for_loop {A I : Type} (idxs : list I) (body : I -> A -> result A)
  (acc : A) : result A :=
  match idxs with
  | [] => Ok acc
  | i :: rest =>
      match body i acc with
      | Ok acc' => for_loop rest body acc'
      | Err e => Err e
      end
  end.

(** [xs.map(f)] for a callback that may throw. *)
Fixpoint mapM {A B : Type} (f : A -> result B) (xs : list A) : result (list B) :=
  match xs with
  | [] => Ok []
  | x :: rest => y <- f x ;; ys <- mapM f rest ;; Ok (y :: ys)
  end.

(** The array read [xs[i]] whose value is used at once as an object or a
    field element: out of range it is [undefined], and that use throws. *)
Definition at_index {A : Type} (xs : list A) (i : nat) : result A :=
  match nth_error xs i with
  | Some a => Ok a
  | None => Err TypeError
  end.

(* ================================================================== *)
(** ** The prime field *)

(** Modelled from the spec: the finite-field arithmetic primitive ([Field]
    of the o1js library, which is not part of the repository).  Section 3 of
    the specification: all arithmetic is performed modulo the field's prime;
    division is multiplication by the modular inverse and is an error when the
    divisor is the additive identity.  Section 6: [equals], [lessThan] and
    [toBigInt] agree with the canonical integer embedding [0 .. ORDER-1].
    [ORDER] is the order of the Pallas base field, the value of
    [Field.ORDER]. *)
Definition ORDER : Z :=
  28948022309329048855892746252171976963363056481941560715954676764349967630337.

Definition canonical (z : Z) : bool := (0 <=? z) && (z <? ORDER).

(** A field element is its canonical representative. *)
Record F : Type := mkF {
  toBigInt : Z;
  toBigInt_canonical : canonical toBigInt = true
}.

(** [Field(x)] for an integer [x]: reduction modulo [ORDER].  The [false]
    branch of [Field_checked] is never taken ([x mod ORDER] is canonical, see
    [toBigInt_Field]); writing the constructor this way lets closed field
    elements compute to a normal form. *)
Definition Field_checked (z : Z) (b : bool) : canonical z = b -> F :=
  match b with
  | true => fun H => mkF z H
  | false => fun _ => mkF 0 eq_refl
  end.

Definition Field (x : Z) : F :=
  Field_checked (x mod ORDER) (canonical (x mod ORDER)) eq_refl.

Definition add (a b : F) : F := Field (toBigInt a + toBigInt b).
Definition sub (a b : F) : F := Field (toBigInt a - toBigInt b).
Definition mul (a b : F) : F := Field (toBigInt a * toBigInt b).
Definition neg (a : F) : F := Field (- toBigInt a).

(** [b^e mod ORDER] by repeated squaring. *)
Fixpoint powmod (b : Z) (e : positive) : Z :=
  match e with
  | xH => b mod ORDER
  | xO e' => let h := powmod b e' in (h * h) mod ORDER
  | xI e' => let h := powmod b e' in (h * h * b) mod ORDER
  end.

(** The modular inverse, [a^(ORDER-2)]; none for the additive identity. *)
Definition inverse (a : Z) : option Z :=
  if a mod ORDER =? 0 then None
  else Some (powmod a (Z.to_pos (ORDER - 2))).

(** [x.div(y)]: throws on a zero divisor. *)
Definition div (x y : F) : result F :=
  match inverse (toBigInt y) with
  | None => Err DivisionByZeroError
  | Some yinv => Ok (Field (toBigInt x * yinv))
  end.

(** The o1js [Bool] object returned by comparisons. *)
Record Bool : Type := mkBool { toBoolean : bool }.

(** [x.equals(y)] *)
Definition equals (a b : F) : Bool := mkBool (toBigInt a =? toBigInt b).

(** [x.lessThan(n)] for a JavaScript number [n]: compares canonical integers. *)
Definition lessThan (a : F) (n : Z) : Bool := mkBool (toBigInt a <? n mod ORDER).

(** JavaScript's [ToBoolean] on an object reference: every object is truthy,
    whatever it holds.  [!obj] is therefore [negb (truthy obj)], i.e. false. *)
Definition truthy {A : Type} (_ : A) : bool := true.

(** [x !== undefined] for an optional argument. *)
Definition isDefined {A : Type} (x : option A) : bool :=
  match x with
  | Some _ => true
  | None => false
  end.

Arguments Field : simpl never.
Arguments add : simpl never.
Arguments sub : simpl never.
Arguments mul : simpl never.
Arguments neg : simpl never.
Arguments div : simpl never.
Arguments ORDER : simpl never.

(* ================================================================== *)
(** ** lib/util.ts *)

Module Util.

(** [asciiToNumber(char)]: a character is given by its UTF-16 code unit,
    the value of [char.charCodeAt(0)]. *)
Definition asciiToNumber (char : Z) : result Z :=
  let num := char in
  if (num <? 0) || (127 <? num) then Err InvalidAsciiError else Ok num.

(** JavaScript's [ToInt32], applied to the operands of [>>] and [&]. *)
Definition toInt32 (z : Z) : Z := (z + 2 ^ 31) mod 2 ^ 32 - 2 ^ 31.

(** [num >> index]: a signed 32-bit shift, the count taken modulo 32. *)
Definition shiftRight (num index : Z) : Z :=
  Z.shiftr (toInt32 num) (index mod 32).

(** [a & b] on 32-bit integers. *)
Definition bitAnd (a b : Z) : Z := toInt32 (Z.land (toInt32 a) (toInt32 b)).

(** [toBinary(num, bitLength)]:
    [Array.from({length: bitLength}, (_, index) => (num >> index) & 1).reverse()] *)
Definition toBinary (num : Z) (bitLength : nat) : list Z :=
  rev (map (fun index => bitAnd (shiftRight num (Z.of_nat index)) 1)
           (seq 0 bitLength)).

(** [Math.ceil(Math.log2(n))] for a positive integer [n]: the least [d] with
    [n <= 2^d] (and 0 for [n = 1]); the floating-point logarithm is exact
    enough for this on the lengths of arrays. *)
Definition ceilLog2 (n : nat) : nat := Nat.log2_up n.

(** [getRequiredBits(numberOfValues)] *)
Definition getRequiredBits (numberOfValues : nat) : result nat :=
  if (numberOfValues <? 1)%nat then Err InvalidArgumentError
  else Ok (ceilLog2 numberOfValues).

(** [generateBinaryVertices(d)]: [toBinary(i, d)] for [i = 0 .. 2^d - 1]. *)
Definition generateBinaryVertices (d : nat) : list (list Z) :=
  let numVertices := (2 ^ d)%nat in
  map (fun i => toBinary (Z.of_nat i) d) (seq 0 numVertices).

End Util.

(* ================================================================== *)
(** ** lib/sum-check/univariate-lagrange.ts *)

Module UnivariateLagrange.

(** [getUnivariateLagrangeBasis(index, nodes, x)] *)
Definition getUnivariateLagrangeBasis (index : nat) (nodes : list F) (x : F)
  : result F :=
  for_loop (seq 0 (length nodes))
    (fun j accumulator =>
       if (j =? index)%nat then Ok accumulator
       else
         node_j <- at_index nodes j ;;
         node_index <- at_index nodes index ;;
         let numerator := sub x node_j in
         let denominator := sub node_index node_j in
         term <- div numerator denominator ;;
         Ok (mul accumulator term))
    (Field 1).

(** [getUnivariateLDE(values, r)] *)
Definition getUnivariateLDE (values : list F) (r : F) : result F :=
  if (length values =? 0)%nat then Err EmptyInputError
  else if toBoolean (lessThan r (Z.of_nat (length values))) then
    at_index values (Z.to_nat (toBigInt r))
  else
    let nodes := map (fun index => Field (Z.of_nat index))
                     (seq 0 (length values)) in
    for_loop (seq 0 (length nodes))
      (fun i accumulator =>
         values_i <- at_index values i ;;
         basis <- getUnivariateLagrangeBasis i nodes r ;;
         Ok (add accumulator (mul values_i basis)))
      (Field 0).

(** A call [getUnivariateLDE(values, r)] whose arguments are array reads that
    may be [undefined]: [!values] throws the empty-input error before [r] is
    looked at; an [undefined] point throws at [r.lessThan]. *)
Definition getUnivariateLDE_at (values : option (list F)) (r : option F)
  : result F :=
  match values with
  | None => Err EmptyInputError
  | Some vs =>
      if (length vs =? 0)%nat then Err EmptyInputError
      else match r with
           | None => Err TypeError
           | Some x => getUnivariateLDE vs x
           end
  end.

End UnivariateLagrange.

(* ================================================================== *)
(** ** lib/sum-check/multilinear-lagrange.ts *)

Module MultilinearLagrange.
Import Util.

(** [getMultilinearLagrangeBasis(vertex, x)] *)
Definition getMultilinearLagrangeBasis (vertex x : list F) : result F :=
  for_loop (seq 0 (length vertex))
    (fun j accumulator =>
       vertex_j <- at_index vertex j ;;
       x_j <- at_index x j ;;
       let univariateBasis :=
         add (mul vertex_j x_j)
             (mul (sub (Field 1) vertex_j) (sub (Field 1) x_j)) in
       Ok (mul accumulator univariateBasis))
    (Field 1).

(** [getMultilinearLDE(values, r)] *)
Definition getMultilinearLDE (values r : list F) : result F :=
  if (length values =? 0)%nat then Err EmptyInputError
  else
    let dimension := ceilLog2 (length values) in
    if negb (length r =? dimension)%nat then Err DimensionMismatchError
    else
      let nodes := map (fun v => map (fun e => Field e) v)
                       (generateBinaryVertices dimension) in
      for_loop (seq 0 (length nodes))
        (fun i accumulator =>
           let vertex := map (fun e => Field e)
                             (toBinary (Z.of_nat i) dimension) in
           term <- (if (i <? length values)%nat
                    then values_i <- at_index values i ;;
                         basis <- getMultilinearLagrangeBasis vertex r ;;
                         Ok (mul values_i basis)
                    else Ok (Field 0)) ;;
           Ok (add accumulator term))
        (Field 0).

End MultilinearLagrange.

(* ================================================================== *)
(** ** lib/message-extensions: the naive and the memoized evaluator *)

Module MessageExtensions.
Import Util.

(** A message is the list of the UTF-16 code units of its characters. *)
Definition message := list Z.

(** [i >= message.length ? Field(0) : Field(asciiToNumber(message[i]))] *)
Definition coefficientAt (msg : message) (i : nat) : result F :=
  if (length msg <=? i)%nat then Ok (Field 0)
  else
    char <- at_index msg i ;;
    num <- asciiToNumber char ;;
    Ok (Field num).

(** [getMultilinearLagrangeBasisAt(w, interpolatingSet, x)] *)
Definition getMultilinearLagrangeBasisAt (w : list Z)
  (interpolatingSet : list (list Z)) (x : list F) : result F :=
  first <- at_index interpolatingSet 0 ;;
  if negb (length w =? length first)%nat || negb (length x =? length first)%nat
  then Err DimensionMismatchError
  else
    for_loop (seq 0 (length w))
      (fun i accumulator =>
         x_i <- at_index x i ;;
         w_i <- at_index w i ;;
         Ok (mul accumulator
               (add (mul x_i (Field w_i))
                    (mul (sub (Field 1) x_i) (Field (1 - w_i))))))
      (Field 1).

(** [getMultilinearLagrange(message, x)]: the naive evaluator. *)
Definition getMultilinearLagrange (msg : message) (x : list F) : result F :=
  let n := length msg in
  if (n =? 0)%nat then Err EmptyInputError
  else
    let d := ceilLog2 n in
    let interpolatingSet := generateBinaryVertices d in
    for_loop (seq 0 (length interpolatingSet))
      (fun i accumulator =>
         coefficient <- coefficientAt msg i ;;
         w <- at_index interpolatingSet i ;;
         lagrangeBasisAtInput <-
           getMultilinearLagrangeBasisAt w interpolatingSet x ;;
         Ok (add accumulator (mul coefficient lagrangeBasisAtInput)))
      (Field 0).

(** [memoizedLagrangeBasis(x)] *)
Definition memoizedLagrangeBasis (x : list F) : result (list F) :=
  x_0 <- at_index x 0 ;;
  let prevRound := [sub (Field 1) x_0; x_0] in
  for_loop (seq 1 (length x - 1))
    (fun i prevRound =>
       for_loop (seq 0 (length prevRound))
         (fun j tmp =>
            prev_j <- at_index prevRound j ;;
            x_i <- at_index x i ;;
            Ok (tmp ++ [mul prev_j (sub (Field 1) x_i); mul prev_j x_i]))
         [])
    prevRound.

(** [getMemoizedMultilinearLagrange(message, r)]: the memoized evaluator. *)
Definition getMemoizedMultilinearLagrange (msg : message) (r : list F)
  : result F :=
  if (length msg =? 0)%nat then Err EmptyInputError
  else
    d <- getRequiredBits (length msg) ;;
    if negb (length r =? d)%nat then Err DimensionMismatchError
    else
      let interpolatingSet := generateBinaryVertices d in
      v1 <- mapM (fun index => coefficientAt msg index)
                 (seq 0 (length interpolatingSet)) ;;
      v2 <- memoizedLagrangeBasis r ;;
      for_loop (seq 0 (length interpolatingSet))
        (fun i accumulator =>
           v1_i <- at_index v1 i ;;
           v2_i <- at_index v2 i ;;
           Ok (add accumulator (mul v1_i v2_i)))
        (Field 0).

End MessageExtensions.

(* ================================================================== *)
(** ** Binary strings of the provers *)

(** The characters of [i.toString(2).padStart(dimension)]: binary digits,
    left-padded with the default pad character, the space. *)
Inductive bchar : Type := Space | Digit0 | Digit1.

Fixpoint binaryDigitsLSB (p : positive) : list bchar :=
  match p with
  | xH => [Digit1]
  | xO q => Digit0 :: binaryDigitsLSB q
  | xI q => Digit1 :: binaryDigitsLSB q
  end.

(** [i.toString(2)] for a non-negative integer, most significant digit first. *)
Definition toString2 (i : nat) : list bchar :=
  match N.of_nat i with
  | N0 => [Digit0]
  | Npos p => rev (binaryDigitsLSB p)
  end.

(** [s.padStart(targetLength)]: pads with spaces, never truncates. *)
Definition padStart (targetLength : nat) (s : list bchar) : list bchar :=
  repeat Space (targetLength - length s) ++ s.

(** [Field(e)] for a one-character string [e]: the field element of
    [BigInt(e)], and [BigInt(" ")] is [0n]. *)
Definition FieldOfChar (e : bchar) : F :=
  match e with
  | Space => Field 0
  | Digit0 => Field 0
  | Digit1 => Field 1
  end.

(** The loop body shared by both provers' [getBinaryVectors]:
    [i.toString(2).padStart(dimension).split("").map((e) => Field(e))]. *)
Definition binaryVector (dimension i : nat) : list F :=
  map FieldOfChar (padStart dimension (toString2 i)).

(* ================================================================== *)
(** ** lib/sum-check/sum-check.ts *)

Module SumCheck.
Import UnivariateLagrange MultilinearLagrange.

Module Prover.

(** The fields [v], [g] and [r] of the class. *)
Record t : Type := mk { this_v : nat; this_g : list F; this_r : list F }.

(** [new Prover(g, v)] *)
Definition constructor (g : list F) (v : nat) : result t :=
  if (2 ^ v <? length g)%nat then Err InvalidArityError
  else Ok (mk v g []).

(** [getBinaryVectors(dimension)]: no special case for dimension 0, where the
    loop runs once and pushes the one-entry vector of ["0"]. *)
Definition getBinaryVectors (dimension : nat) : list (list F) :=
  map (fun i => binaryVector dimension i) (seq 0 (2 ^ dimension)).

(** [getRoundJPolynomial(r_prev?)]: the state after the call and what the
    call returned or threw. *)
Definition getRoundJPolynomial (this : t) (r_prev : option F)
  : t * result (list F) :=
  if (this_v this <=? length (this_r this))%nat then
    (this, Err RoundOverflowError)
  else if (length (this_r this) =? 0)%nat && isDefined r_prev
  then (this, Err UnexpectedChallengeError)
  else
    let pushed :=
      if negb (length (this_r this) =? 0)%nat then
        match r_prev with
        | None => Err MissingChallengeError
        | Some c => Ok (mk (this_v this) (this_g this) (this_r this ++ [c]))
        end
      else Ok this in
    match pushed with
    | Err e => (this, Err e)
    | Ok this' =>
        let j := (length (this_r this') + 1)%nat in
        let binaryVectors := getBinaryVectors (this_v this' - j) in
        (this',
         sums <- for_loop binaryVectors
                   (fun vector '(sum0, sum1) =>
                      at0 <- getMultilinearLDE (this_g this')
                               (this_r this' ++ [Field 0] ++ vector) ;;
                      let sum0 := add sum0 at0 in
                      at1 <- getMultilinearLDE (this_g this')
                               (this_r this' ++ [Field 1] ++ vector) ;;
                      let sum1 := add sum1 at1 in
                      Ok (sum0, sum1))
                   (Field 0, Field 0) ;;
         Ok [fst sums; snd sums])
    end.

(** [getProposedSum()] *)
Definition getProposedSum (this : t) : result F :=
  let binaryVectors := getBinaryVectors (this_v this) in
  for_loop (seq 0 (length binaryVectors))
    (fun i accumulator =>
       vector <- at_index binaryVectors i ;;
       value <- getMultilinearLDE (this_g this) vector ;;
       Ok (add accumulator value))
    (Field 0).

End Prover.

Module Verifier.

(** The fields [v], [proposedSum], [polynomials] and [r] of the class. *)
Record t : Type := mk {
  this_v : nat;
  this_proposedSum : F;
  this_polynomials : list (list F);
  this_r : list F
}.

(** [new Verifier(proposedSum, v)] *)
Definition constructor (proposedSum : F) (v : nat) : t :=
  mk v proposedSum [] [].

(** [verifyRoundJPolynomial(g_j)]; [random] is the value drawn by
    [getRandomFieldElement()].  The guards are [if (!sum.equals(..)) throw]:
    the [Bool] object itself is negated.  Nothing is stored before a throw,
    so a failing call leaves the state as it was. *)
Definition verifyRoundJPolynomial (random : F) (this : t) (g_j : list F)
  : result (F * t) :=
  let j := (length (this_r this) + 1)%nat in
  if (this_v this <? j)%nat then Err TooManyRoundsError
  else if (2 <? length g_j)%nat then Err DegreeError
  else
    at0 <- getUnivariateLDE g_j (Field 0) ;;
    at1 <- getUnivariateLDE g_j (Field 1) ;;
    let sum := add at0 at1 in
    _ <- (if (j =? 1)%nat then
            if negb (truthy (equals sum (this_proposedSum this)))
            then Err SumMismatchError else Ok tt
          else if (1 <? j)%nat then
            prevPolynomialAtPrevR <-
              getUnivariateLDE_at (nth_error (this_polynomials this) (j - 2))
                                  (nth_error (this_r this) (j - 2)) ;;
            if negb (truthy (equals sum prevPolynomialAtPrevR))
            then Err SumMismatchError else Ok tt
          else Ok tt) ;;
    let r_j := random in
    Ok (r_j, mk (this_v this) (this_proposedSum this)
                (this_polynomials this ++ [g_j]) (this_r this ++ [r_j])).

(** [verifyOracleQueryOfG(g)] *)
Definition verifyOracleQueryOfG (this : t) (g : list F) : result unit :=
  if negb (length (this_r this) =? this_v this)%nat
     || negb (length (this_polynomials this) =? this_v this)%nat
  then Err IncompleteRoundsError
  else
    gOfR <- getMultilinearLDE g (this_r this) ;;
    g_vOfR_v <-
      getUnivariateLDE_at
        (nth_error (this_polynomials this) (length (this_polynomials this) - 1))
        (nth_error (this_r this) (length (this_r this) - 1)) ;;
    if negb (truthy (equals gOfR g_vOfR_v)) then Err OracleMismatchError
    else Ok tt.

End Verifier.

End SumCheck.

(* ================================================================== *)
(** ** lib/sum-check/sum-check-prover.ts *)

Module SumCheckProver.
Import MultilinearLagrange.

Module Prover.

Record t : Type := mk { this_v : nat; this_g : list F; this_r : list F }.

(** [new Prover(g, v)] *)
Definition constructor (g : list F) (v : nat) : result t :=
  if (2 ^ v <? length g)%nat then Err InvalidArityError
  else Ok (mk v g []).

(** [getBinaryVectors(dimension)]: empty for dimension 0. *)
Definition getBinaryVectors (dimension : nat) : list (list F) :=
  if (dimension =? 0)%nat then []
  else map (fun i => binaryVector dimension i) (seq 0 (2 ^ dimension)).

(** [getRoundJPolynomial(r_prev?)]: the challenge is pushed first, the
    checks follow; the state after the call is returned also when it throws. *)
Definition getRoundJPolynomial (this : t) (r_prev : option F)
  : t * result (list F) :=
  let this' :=
    match r_prev with
    | Some c => mk (this_v this) (this_g this) (this_r this ++ [c])
    | None => this
    end in
  let j := (length (this_r this') + 1)%nat in
  if (this_v this' <=? length (this_r this'))%nat then
    (this', Err RoundOverflowError)
  else if (j =? 1)%nat && isDefined r_prev then
    (this', Err UnexpectedChallengeError)
  else if negb (j =? 1)%nat && negb (isDefined r_prev) then
    (this', Err MissingChallengeError)
  else
    let binaryVectors := getBinaryVectors (this_v this' - j) in
    (this',
     if negb (length binaryVectors =? 0)%nat then
       sums <- for_loop binaryVectors
                 (fun vector '(sum0, sum1) =>
                    at0 <- getMultilinearLDE (this_g this')
                             (this_r this' ++ [Field 0] ++ vector) ;;
                    let sum0 := add sum0 at0 in
                    at1 <- getMultilinearLDE (this_g this')
                             (this_r this' ++ [Field 1] ++ vector) ;;
                    let sum1 := add sum1 at1 in
                    Ok (sum0, sum1))
                 (Field 0, Field 0) ;;
       Ok [fst sums; snd sums]
     else
       at0 <- getMultilinearLDE (this_g this') (this_r this' ++ [Field 0]) ;;
       let sum0 := add (Field 0) at0 in
       at1 <- getMultilinearLDE (this_g this') (this_r this' ++ [Field 1]) ;;
       let sum1 := add (Field 0) at1 in
       Ok [sum0; sum1]).

(** [getProposedSum()] *)
Definition getProposedSum (this : t) : result F :=
  let binaryVectors := getBinaryVectors (this_v this) in
  for_loop (seq 0 (length binaryVectors))
    (fun i accumulator =>
       vector <- at_index binaryVectors i ;;
       value <- getMultilinearLDE (this_g this) vector ;;
       Ok (add accumulator value))
    (Field 0).

End Prover.

End SumCheckProver.

(* ================================================================== *)
(** ** lib/sum-check/sum-check-iterative.ts *)

Module SumCheckIterative.
Import UnivariateLagrange MultilinearLagrange.

Module Verifier.

Record t : Type := mk {
  this_v : nat;
  this_proposedSum : F;
  this_polynomials : list (list F);
  this_r : list F
}.

(** [new Verifier(proposedSum, v)] *)
Definition constructor (proposedSum : F) (v : nat) : t :=
  mk v proposedSum [] [].

(** [verifyRoundJPolynomial(g_j)]; [random] is the value drawn by
    [getRandomFieldElement()].  The guards read the comparison with
    [.toBoolean()].  Nothing is stored before a throw. *)
Definition verifyRoundJPolynomial (random : F) (this : t) (g_j : list F)
  : result (F * t) :=
  let j := (length (this_r this) + 1)%nat in
  if (this_v this <? j)%nat then Err TooManyRoundsError
  else if (2 <? length g_j)%nat then Err DegreeError
  else
    at0 <- getUnivariateLDE g_j (Field 0) ;;
    at1 <- getUnivariateLDE g_j (Field 1) ;;
    let sum := add at0 at1 in
    _ <- (if (j =? 1)%nat then
            if negb (toBoolean (equals sum (this_proposedSum this)))
            then Err SumMismatchError else Ok tt
          else if (1 <? j)%nat then
            prevPolynomialAtPrevR <-
              getUnivariateLDE_at (nth_error (this_polynomials this) (j - 2))
                                  (nth_error (this_r this) (j - 2)) ;;
            if negb (toBoolean (equals sum prevPolynomialAtPrevR))
            then Err SumMismatchError else Ok tt
          else Ok tt) ;;
    let r_j := random in
    Ok (r_j, mk (this_v this) (this_proposedSum this)
                (this_polynomials this ++ [g_j]) (this_r this ++ [r_j])).

(** [verifyOracleQueryOfG(g)] *)
Definition verifyOracleQueryOfG (this : t) (g : list F) : result unit :=
  if negb (length (this_r this) =? this_v this)%nat
     || negb (length (this_polynomials this) =? this_v this)%nat
  then Err IncompleteRoundsError
  else
    gOfR <- getMultilinearLDE g (this_r this) ;;
    g_vOfR_v <-
      getUnivariateLDE_at
        (nth_error (this_polynomials this) (length (this_polynomials this) - 1))
        (nth_error (this_r this) (length (this_r this) - 1)) ;;
    if negb (toBoolean (equals gOfR g_vOfR_v)) then Err OracleMismatchError
    else Ok tt.

End Verifier.

(** The loop [for (let j = 1; j <= v; j++)] of the runner, [n] rounds from
    round [j] on: the prover sends [g_j], the verifier answers with [r_j].
    [random j] is the challenge the verifier draws in round [j]. *)
Fixpoint rounds (random : nat -> F) (n j : nat)
  (prover : SumCheckProver.Prover.t) (verifier : Verifier.t)
  (r_j : option F) : result (SumCheckProver.Prover.t * Verifier.t) :=
  match n with
  | O => Ok (prover, verifier)
  | S n' =>
      let (prover', sent) :=
        SumCheckProver.Prover.getRoundJPolynomial prover r_j in
      g_j <- sent ;;
      checked <- Verifier.verifyRoundJPolynomial (random j) verifier g_j ;;
      rounds random n' (S j) prover' (snd checked) (Some (fst checked))
  end.

(** The runner of the file, for any table [g], arity [v] and challenges
    (the file runs it on [v = 3], [g = [1 .. 8]]). *)
Definition runner (g : list F) (v : nat) (random : nat -> F) : result unit :=
  prover <- SumCheckProver.Prover.constructor g v ;;
  sum <- SumCheckProver.Prover.getProposedSum prover ;;
  let verifier := Verifier.constructor sum v in
  final <- rounds random v 1 prover verifier None ;;
  Verifier.verifyOracleQueryOfG (snd final)
    (SumCheckProver.Prover.this_g (fst final)).

End SumCheckIterative.

(* ================================================================== *)
(** ** lib/message-extensions/univariate-lagrange.ts *)

Module MessageUnivariate.
Import Util.

(** [getLagrangeBasis(index, interpolatingSet, x)] *)
Definition getLagrangeBasis (index : nat) (interpolatingSet : list F) (x : F)
  : result F :=
  for_loop (seq 0 (length interpolatingSet))
    (fun j accumulator =>
       if (j =? index)%nat then Ok accumulator
       else
         set_j <- at_index interpolatingSet j ;;
         set_index <- at_index interpolatingSet index ;;
         term <- div (sub x set_j) (sub set_index set_j) ;;
         Ok (mul accumulator term))
    (Field 1).

(** [getUnivariateLagrange(message, r)] *)
Definition getUnivariateLagrange (msg : MessageExtensions.message) (r : F)
  : result F :=
  let n := length msg in
  if (n =? 0)%nat then Err EmptyInputError
  else if toBoolean (lessThan r (Z.of_nat n)) then
    let index := Z.to_nat (toBigInt r) in
    char <- at_index msg index ;;
    num <- asciiToNumber char ;;
    Ok (Field num)
  else
    let interpolatingSet := map (fun index => Field (Z.of_nat index))
                                (seq 0 n) in
    for_loop (seq 0 (length interpolatingSet))
      (fun i result =>
         char <- at_index msg i ;;
         num <- asciiToNumber char ;;
         let coeff := Field num in
         lagrangeBasis <- getLagrangeBasis i interpolatingSet r ;;
         Ok (add result (mul coeff lagrangeBasis)))
      (Field 0).

End MessageUnivariate.

(* ================================================================== *)
(** ** lib/message-extensions/reed-solomon.ts *)

Module ReedSolomon.
Import Util.

(** [getReedSolomon(message, r)]: the loop carries [result] and
    [currentPower]. *)
Definition getReedSolomon (msg : MessageExtensions.message) (r : F)
  : result F :=
  if (length msg =? 0)%nat then Err EmptyInputError
  else
    final <- for_loop (seq 0 (length msg))
               (fun i '(result, currentPower) =>
                  char <- at_index msg i ;;
                  num <- asciiToNumber char ;;
                  let coefficient := Field num in
                  let result := add result (mul coefficient currentPower) in
                  let currentPower := mul currentPower r in
                  Ok (result, currentPower))
               (Field 0, Field 1) ;;
    Ok (fst final).

End ReedSolomon.

(* ================================================================== *)
(** ** lib/sum-check/sum-check-recursive.ts *)

Module SumCheckRecursive.
Import UnivariateLagrange MultilinearLagrange.

Module Verifier.

(** The fields [v], [r], [g] and [proposedSum] of the class. *)
Record t : Type := mk {
  this_v : nat;
  this_r : list F;
  this_g : list F;
  this_proposedSum : F
}.

(** [new Verifier(proposedSum, g, v)] *)
Definition constructor (proposedSum : F) (g : list F) (v : nat) : result t :=
  if (2 ^ v <? length g)%nat then Err InvalidArityError
  else Ok (mk v [] g proposedSum).

(** [roundJ(g_j)]; [random] is the value drawn by [getRandomFieldElement()].
    The challenge is pushed before anything is checked, so the state after
    the call is returned also when it throws; [proposedSum] is replaced only
    when nothing was thrown. *)
Definition roundJ (random : F) (this : t) (g_j : list F) : t * result F :=
  let r_j := random in
  let pushed := mk (this_v this) (this_r this ++ [r_j]) (this_g this)
                   (this_proposedSum this) in
  let checked :=
    g_j_of_r_1 <- getUnivariateLDE g_j r_j ;;
    g_j_of_0 <- getUnivariateLDE g_j (Field 0) ;;
    g_j_of_1 <- getUnivariateLDE g_j (Field 1) ;;
    if negb (toBoolean (equals (add g_j_of_0 g_j_of_1)
                               (this_proposedSum pushed)))
    then Err SumMismatchError
    else
      _ <- (if (length (this_r pushed) =? this_v pushed)%nat then
              gOfR <- getMultilinearLDE (this_g pushed) (this_r pushed) ;;
              if negb (toBoolean (equals g_j_of_r_1 gOfR))
              then Err OracleMismatchError else Ok tt
            else Ok tt) ;;
      Ok g_j_of_r_1 in
  match checked with
  | Ok g_j_of_r_1 =>
      (mk (this_v pushed) (this_r pushed) (this_g pushed) g_j_of_r_1, Ok r_j)
  | Err e => (pushed, Err e)
  end.

End Verifier.

(** The loop [for (let j = 1; j <= v; j++)] of the runner, [n] rounds from
    round [j] on; [random j] is the challenge drawn in round [j]. *)
Fixpoint rounds (random : nat -> F) (n j : nat)
  (prover : SumCheckProver.Prover.t) (verifier : Verifier.t)
  (r_j : option F) : result (SumCheckProver.Prover.t * Verifier.t) :=
  match n with
  | O => Ok (prover, verifier)
  | S n' =>
      let (prover', sent) :=
        SumCheckProver.Prover.getRoundJPolynomial prover r_j in
      g_j <- sent ;;
      let (verifier', answer) := Verifier.roundJ (random j) verifier g_j in
      r_j' <- answer ;;
      rounds random n' (S j) prover' verifier' (Some r_j')
  end.

(** The runner of the file, for any table [g], arity [v] and challenges
    (the file runs it on [v = 3], [g = [1 .. 8]]). *)
Definition runner (g : list F) (v : nat) (random : nat -> F) : result unit :=
  prover <- SumCheckProver.Prover.constructor g v ;;
  sum <- SumCheckProver.Prover.getProposedSum prover ;;
  verifier <- Verifier.constructor sum g v ;;
  _ <- rounds random v 1 prover verifier None ;;
  Ok tt.

End SumCheckRecursive.

(* ================================================================== *)
(** ** lib/sum-check/sum-check.ts: the runner *)

Module SumCheckRun.
Import UnivariateLagrange.

(** The loop [for (let j = 0; j < v; j++)] of the runner, [n] rounds from
    round [j] on.  The prover is called without a challenge in every round;
    the sum [g_j(0) + g_j(1)] is computed for the log line; [random j] is the
    challenge the verifier draws in round [j]. *)
Fixpoint rounds (random : nat -> F) (n j : nat)
  (prover : SumCheck.Prover.t) (verifier : SumCheck.Verifier.t)
  : result (SumCheck.Prover.t * SumCheck.Verifier.t) :=
  match n with
  | O => Ok (prover, verifier)
  | S n' =>
      let (prover', sent) := SumCheck.Prover.getRoundJPolynomial prover None in
      g_j <- sent ;;
      at0 <- getUnivariateLDE g_j (Field 0) ;;
      at1 <- getUnivariateLDE g_j (Field 1) ;;
      let sumg_j := add at0 at1 in
      checked <- SumCheck.Verifier.verifyRoundJPolynomial (random j) verifier g_j ;;
      rounds random n' (S j) prover' (snd checked)
  end.

(** The runner of the file, for any table [g], arity [v] and challenges
    (the file runs it on [v = 3], [g = [1 .. 8]]). *)
Definition runner (g : list F) (v : nat) (random : nat -> F) : result unit :=
  prover <- SumCheck.Prover.constructor g v ;;
  sum <- SumCheck.Prover.getProposedSum prover ;;
  let verifier := SumCheck.Verifier.constructor sum v in
  final <- rounds random v 0 prover verifier ;;
  SumCheck.Verifier.verifyOracleQueryOfG (snd final)
    (SumCheck.Prover.this_g (fst final)).

End SumCheckRun.

(* ================================================================== *)
(** ** Reference definitions used to state and prove the properties *)

(** The field sum of a list. *)
Definition fsum (l : list F) : F := fold_right add (Field 0) l.

(** The one-variable factor [w x + (1 - w)(1 - x)] of a multilinear basis
    polynomial. *)
Definition chi (w x : F) : F :=
  add (mul w x) (mul (sub (Field 1) w) (sub (Field 1) x)).

(** The basis polynomial of vertex [w] at the point [x], as a product. *)
Fixpoint basisR (w x : list F) : F :=
  match w, x with
  | w0 :: w', x0 :: x' => mul (chi w0 x0) (basisR w' x')
  | _, _ => Field 1
  end.

(** The vertex with index [i] of the [d]-dimensional cube, as
    [getMultilinearLDE] builds it. *)
Definition vertexF (d i : nat) : list F :=
  map (fun e => Field e) (Util.toBinary (Z.of_nat i) d).

(** The term of index [i] in the sum of [getMultilinearLDE]. *)
Definition mleTerm (values : list F) (d : nat) (x : list F) (i : nat) : F :=
  if (i <? length values)%nat
  then mul (nth i values (Field 0)) (basisR (vertexF d i) x)
  else Field 0.

(** The value of the multilinear extension of [values] at [x]. *)
Definition mle (values x : list F) : F :=
  let d := Util.ceilLog2 (length values) in
  fsum (map (mleTerm values d x) (seq 0 (2 ^ d))).

(** The bits of [i], most significant first, in [d] digits. *)
Definition bitsMSB (d : nat) (i : Z) : list Z :=
  rev (map (fun index => Z.b2z (Z.testbit i (Z.of_nat index))) (seq 0 d)).

(** The vertices of the [k]-dimensional boolean cube in index order. *)
Fixpoint cube (k : nat) : list (list F) :=
  match k with
  | O => [[]]
  | S k' => map (cons (Field 0)) (cube k') ++ map (cons (Field 1)) (cube k')
  end.

(** The sum of the extension over the cube in the last [k] coordinates,
    the first ones fixed to [r]. *)
Definition hsum (g r : list F) (k : nat) : F :=
  fsum (map (fun b => mle g (r ++ b)) (cube k)).

(** The value of a character of a binary string. *)
Definition digitZ (c : bchar) : Z :=
  match c with
  | Digit1 => 1
  | _ => 0
  end.

(** The value of the table at index [i], zero past its end. *)
Definition paddedValue (values : list F) (i : nat) : F :=
  if (i <? length values)%nat then nth i values (Field 0) else Field 0.

(** The sums an honest prover sends once [r] holds the challenges so far. *)
Definition honestPolynomial (g r : list F) (v : nat) : list F :=
  [hsum g (r ++ [Field 0]) (v - (length r + 1));
   hsum g (r ++ [Field 1]) (v - (length r + 1))].

(** What the verifier expects [g_j(0) + g_j(1)] to be in the next round:
    the proposed sum in round 1, [g_{j-1}(r_{j-1})] afterwards. *)
Definition expectedSum (verifier : SumCheckIterative.Verifier.t) : result F :=
  let j := (length (SumCheckIterative.Verifier.this_r verifier) + 1)%nat in
  if (j =? 1)%nat then Ok (SumCheckIterative.Verifier.this_proposedSum verifier)
  else UnivariateLagrange.getUnivariateLDE_at
         (nth_error (SumCheckIterative.Verifier.this_polynomials verifier) (j - 2))
         (nth_error (SumCheckIterative.Verifier.this_r verifier) (j - 2)).

(** The state of an honest run before round [j]: the verifier holds the
    challenges [cs] drawn so far, the prover all of them but the last, which
    it is about to receive; the verifier expects the sum of the extension
    over the variables not yet fixed. *)
Definition honestState (g : list F) (v j : nat)
  (prover : SumCheckProver.Prover.t) (verifier : SumCheckIterative.Verifier.t)
  (r_j : option F) : Prop :=
  SumCheckProver.Prover.this_v prover = v
  /\ SumCheckProver.Prover.this_g prover = g
  /\ SumCheckIterative.Verifier.this_v verifier = v
  /\ length (SumCheckIterative.Verifier.this_r verifier) = (j - 1)%nat
  /\ length (SumCheckIterative.Verifier.this_polynomials verifier) = (j - 1)%nat
  /\ expectedSum verifier
     = Ok (hsum g (SumCheckIterative.Verifier.this_r verifier) (v - (j - 1)))
  /\ match r_j with
     | None => j = 1%nat /\ SumCheckProver.Prover.this_r prover = []
     | Some c =>
         SumCheckIterative.Verifier.this_r verifier = SumCheckProver.Prover.this_r prover ++ [c]
     end.

(** The arguments of the calls of an honest run: the first call has no
    challenge, every later one has. *)
Definition honestCalls (calls : list (option F)) : Prop :=
  match calls with
  | [] => True
  | first :: rest => first = None /\ Forall (fun r_prev => isDefined r_prev = true) rest
  end.

(** The calls of an honest run made one after the other on the prover of
    [sum-check-prover.ts], each of which has to return a polynomial: the state
    after the last call. *)
Fixpoint completeRounds (prover : SumCheckProver.Prover.t)
  (calls : list (option F)) : result SumCheckProver.Prover.t :=
  match calls with
  | [] => Ok prover
  | r_prev :: rest =>
      let (prover', sent) :=
        SumCheckProver.Prover.getRoundJPolynomial prover r_prev in
      _ <- sent ;; completeRounds prover' rest
  end.

(** A character code accepted by [asciiToNumber]. *)
Definition isAscii (char : Z) : Prop := 0 <= char <= 127.

(** The power [r^n] in the field. *)
Fixpoint fpow (r : F) (n : nat) : F :=
  match n with
  | O => Field 1
  | S n' => mul r (fpow r n')
  end.

(** The polynomial [c_0 + c_1 x + c_2 x^2 + ...] at [r]. *)
Fixpoint polyEval (coefficients : list F) (r : F) : F :=
  match coefficients with
  | [] => Field 0
  | c :: rest => add c (mul r (polyEval rest r))
  end.

(** The number spelled by binary digits, most significant first. *)
Definition fromBinary (bits : list Z) : Z :=
  fold_left (fun acc b => 2 * acc + b) bits 0.

(** The 0/1 vectors of length [k] in the order of the numbers they spell. *)
Fixpoint cubeZ (k : nat) : list (list Z) :=
  match k with
  | O => [[]]
  | S k' => map (cons 0) (cubeZ k') ++ map (cons 1) (cubeZ k')
  end.

(** The verifier of [sum-check-iterative.ts] checking one polynomial after
    the other, [calls] being the pairs of the challenge drawn and the
    polynomial received: the state after the last check, if all passed. *)
Fixpoint verifyRounds (verifier : SumCheckIterative.Verifier.t)
  (calls : list (F * list F)) : result SumCheckIterative.Verifier.t :=
  match calls with
  | [] => Ok verifier
  | (random, g_j) :: rest =>
      checked <- SumCheckIterative.Verifier.verifyRoundJPolynomial
                   random verifier g_j ;;
      verifyRounds (snd checked) rest
  end.

(** The same polynomials checked by the verifier of
    [sum-check-recursive.ts]. *)
Fixpoint roundJs (verifier : SumCheckRecursive.Verifier.t)
  (calls : list (F * list F)) : result SumCheckRecursive.Verifier.t :=
  match calls with
  | [] => Ok verifier
  | (random, g_j) :: rest =>
      let (verifier', answer) :=
        SumCheckRecursive.Verifier.roundJ random verifier g_j in
      _ <- answer ;; roundJs verifier' rest
  end.

(* ================================================================== *)
(** * Properties *)

(** ** The field is a commutative ring *)

Lemma ORDER_pos : 0 < ORDER.
Proof. reflexivity. Qed.

Lemma ORDER_large : 2 ^ 32 < ORDER.
Proof. reflexivity. Qed.

Lemma canonical_mod (x : Z) : canonical (x mod ORDER) = true.
Proof.
  unfold canonical. pose proof (Z.mod_pos_bound x ORDER ORDER_pos).
  apply andb_true_intro. split; [apply Z.leb_le | apply Z.ltb_lt]; lia.
Qed.

Lemma canonical_range (a : F) : 0 <= toBigInt a < ORDER.
Proof.
  destruct a as [z H]. simpl. unfold canonical in H.
  apply andb_prop in H. destruct H as [H1 H2].
  apply Z.leb_le in H1. apply Z.ltb_lt in H2. lia.
Qed.

Lemma toBigInt_mod (a : F) : toBigInt a mod ORDER = toBigInt a.
Proof. apply Z.mod_small, canonical_range. Qed.

Lemma toBigInt_Field_checked (z : Z) (b : bool) (H : canonical z = b) :
  b = true -> toBigInt (Field_checked z b H) = z.
Proof. destruct b; [reflexivity | discriminate]. Qed.

Lemma toBigInt_Field (x : Z) : toBigInt (Field x) = x mod ORDER.
Proof. unfold Field. apply toBigInt_Field_checked, canonical_mod. Qed.

Lemma Field_eq (a b : F) : toBigInt a = toBigInt b -> a = b.
Proof.
  destruct a as [x Hx], b as [y Hy]. simpl. intros ->.
  f_equal. apply UIP_dec, bool_dec.
Qed.

Lemma Field_toBigInt (a : F) : Field (toBigInt a) = a.
Proof. apply Field_eq. rewrite toBigInt_Field. apply toBigInt_mod. Qed.

Lemma toBigInt_small (x : Z) : 0 <= x < ORDER -> toBigInt (Field x) = x.
Proof. intros H. rewrite toBigInt_Field. now apply Z.mod_small. Qed.

Lemma toBigInt_add (a b : F) :
  toBigInt (add a b) = (toBigInt a + toBigInt b) mod ORDER.
Proof. apply toBigInt_Field. Qed.

Lemma toBigInt_sub (a b : F) :
  toBigInt (sub a b) = (toBigInt a - toBigInt b) mod ORDER.
Proof. apply toBigInt_Field. Qed.

Lemma toBigInt_mul (a b : F) :
  toBigInt (mul a b) = (toBigInt a * toBigInt b) mod ORDER.
Proof. apply toBigInt_Field. Qed.

Lemma toBigInt_neg (a : F) : toBigInt (neg a) = (- toBigInt a) mod ORDER.
Proof. apply toBigInt_Field. Qed.

(** Reduces an equation between field expressions to one between integers
    modulo [ORDER], with the inner reductions removed. *)
Ltac field_to_Z :=
  apply Field_eq;
  repeat first [ rewrite toBigInt_add | rewrite toBigInt_sub
               | rewrite toBigInt_mul | rewrite toBigInt_neg
               | rewrite toBigInt_Field ];
  repeat first [ rewrite Z.add_mod_idemp_l by discriminate
               | rewrite Z.add_mod_idemp_r by discriminate
               | rewrite Z.mul_mod_idemp_l by discriminate
               | rewrite Z.mul_mod_idemp_r by discriminate
               | rewrite Zminus_mod_idemp_l
               | rewrite Zminus_mod_idemp_r ].

Ltac mod_ring := apply (f_equal (fun t => t mod ORDER)); ring.

Lemma F_ring_theory :
  ring_theory (Field 0) (Field 1) add mul sub neg (@eq F).
Proof.
  constructor; intros.
  - field_to_Z. rewrite Z.add_0_l. apply toBigInt_mod.
  - field_to_Z. mod_ring.
  - field_to_Z. mod_ring.
  - field_to_Z. rewrite Z.mul_1_l. apply toBigInt_mod.
  - field_to_Z. mod_ring.
  - field_to_Z. mod_ring.
  - field_to_Z. mod_ring.
  - field_to_Z. mod_ring.
  - field_to_Z. rewrite Z.add_opp_diag_r. reflexivity.
Qed.

Add Ring F_ring : F_ring_theory.

(** ** Loops *)

Lemma Ok_inj {A : Type} (a b : A) : Ok a = Ok b -> a = b.
Proof. intros H. now injection H. Qed.

Lemma bind_ok {A B : Type} (m : result A) (k : A -> result B) (a : A) :
  m = Ok a -> bind m k = k a.
Proof. intros ->. reflexivity. Qed.

Lemma for_loop_ext {A I : Type} (idxs : list I) (body body' : I -> A -> result A) :
  (forall i acc, In i idxs -> body i acc = body' i acc) ->
  forall acc, for_loop idxs body acc = for_loop idxs body' acc.
Proof.
  induction idxs as [|i rest IH]; intros Hext acc; simpl; [reflexivity|].
  rewrite Hext by (now left).
  destruct (body' i acc); [|reflexivity].
  apply IH. intros. apply Hext. now right.
Qed.

Lemma for_loop_app {A I : Type} (l1 l2 : list I) (body : I -> A -> result A) acc :
  for_loop (l1 ++ l2) body acc = (a <- for_loop l1 body acc ;; for_loop l2 body a).
Proof.
  revert acc. induction l1 as [|i rest IH]; intros acc; simpl; [reflexivity|].
  destruct (body i acc); [apply IH | reflexivity].
Qed.

(** A loop whose body cannot throw runs to its end. *)
Lemma for_loop_total {A I : Type} (idxs : list I) (body : I -> A -> result A) :
  (forall i acc, In i idxs -> exists acc', body i acc = Ok acc') ->
  forall acc, exists out, for_loop idxs body acc = Ok out.
Proof.
  induction idxs as [|i rest IH]; intros Hbody acc; simpl.
  - now exists acc.
  - destruct (Hbody i acc (or_introl eq_refl)) as [acc' ->].
    apply IH. intros. apply Hbody. now right.
Qed.

(** The accumulating loops of the sources compute a field sum. *)
Lemma for_loop_add {I : Type} (idxs : list I) (term : I -> F) (acc : F) :
  for_loop idxs (fun i a => Ok (add a (term i))) acc
  = Ok (add acc (fsum (map term idxs))).
Proof.
  revert acc. induction idxs as [|i rest IH]; intros acc; simpl.
  - f_equal. ring.
  - rewrite IH. f_equal. ring.
Qed.

Lemma for_loop_sum {I : Type} (idxs : list I) (body : I -> F -> result F)
  (term : I -> F) (acc : F) :
  (forall i a, In i idxs -> body i a = Ok (add a (term i))) ->
  for_loop idxs body acc = Ok (add acc (fsum (map term idxs))).
Proof.
  intros H. rewrite (for_loop_ext idxs body (fun i a => Ok (add a (term i)))) by exact H.
  apply for_loop_add.
Qed.

Lemma fsum_cons (a : F) (l : list F) : fsum (a :: l) = add a (fsum l).
Proof. reflexivity. Qed.

Lemma fsum_app (l1 l2 : list F) : fsum (l1 ++ l2) = add (fsum l1) (fsum l2).
Proof.
  induction l1 as [|a l1 IH]; simpl; [ring|]. rewrite IH. ring.
Qed.

Lemma at_index_ok {A : Type} (xs : list A) (i : nat) (a : A) :
  nth_error xs i = Some a -> at_index xs i = Ok a.
Proof. unfold at_index. now intros ->. Qed.

Lemma at_index_lt {A : Type} (xs : list A) (i : nat) (d : A) :
  (i < length xs)%nat -> at_index xs i = Ok (nth i xs d).
Proof.
  intros H. apply at_index_ok. now apply nth_error_nth'.
Qed.

Lemma at_index_map_seq {A : Type} (f : nat -> A) (n i : nat) :
  (i < n)%nat -> at_index (map f (seq 0 n)) i = Ok (f i).
Proof.
  intros H. rewrite (at_index_lt _ _ (f 0%nat)).
  - rewrite (map_nth f). rewrite seq_nth by assumption. reflexivity.
  - now rewrite length_map, length_seq.
Qed.

Lemma nth_error_snoc {A : Type} (l : list A) (a : A) (n : nat) :
  n = length l -> nth_error (l ++ [a]) n = Some a.
Proof.
  intros ->. rewrite nth_error_app2, Nat.sub_diag by lia. reflexivity.
Qed.

Lemma at_index_middle {A : Type} (l1 : list A) (a : A) (l2 : list A) (n : nat) :
  n = length l1 -> at_index (l1 ++ a :: l2) n = Ok a.
Proof.
  intros ->. apply at_index_ok.
  rewrite nth_error_app2, Nat.sub_diag by lia. reflexivity.
Qed.

(** ** Division by the two denominators of a two-point table *)

Lemma inverse_one : inverse (toBigInt (Field 1)) = Some 1.
Proof. vm_compute. reflexivity. Qed.

Lemma inverse_minus_one :
  inverse (toBigInt (sub (Field 0) (Field 1))) = Some (ORDER - 1).
Proof. vm_compute. reflexivity. Qed.

Lemma div_one (x : F) : div x (Field 1) = Ok x.
Proof.
  unfold div. rewrite inverse_one. f_equal.
  rewrite Z.mul_1_r. apply Field_toBigInt.
Qed.

Lemma div_minus_one (x : F) : div x (sub (Field 0) (Field 1)) = Ok (neg x).
Proof.
  unfold div. rewrite inverse_minus_one. f_equal.
  apply Field_eq. rewrite toBigInt_neg, toBigInt_Field.
  replace (toBigInt x * (ORDER - 1)) with (- toBigInt x + toBigInt x * ORDER) by ring.
  apply Z_mod_plus_full.
Qed.

Lemma div_nonzero (x y : F) :
  toBigInt y <> 0 -> exists q, div x y = Ok q.
Proof.
  intros Hy. unfold div, inverse. rewrite toBigInt_mod.
  destruct (Z.eqb_spec (toBigInt y) 0) as [E|_]; [contradiction|].
  eexists. reflexivity.
Qed.

(** ** The univariate evaluator *)

Section Univariate.
Import UnivariateLagrange.

Lemma nodes_at (n j : nat) :
  (j < n)%nat ->
  at_index (map (fun index => Field (Z.of_nat index)) (seq 0 n)) j
  = Ok (Field (Z.of_nat j)).
Proof.
  intros H. now rewrite at_index_map_seq.
Qed.

(** The denominator [nodes[index] - nodes[j]] of a basis term. *)
Lemma denominator_nonzero (n index j : nat) :
  Z.of_nat n < 2 ^ 32 -> (index < n)%nat -> (j < n)%nat -> j <> index ->
  toBigInt (sub (Field (Z.of_nat index)) (Field (Z.of_nat j))) <> 0.
Proof.
  intros Hn Hi Hj Hneq. pose proof ORDER_large as HO.
  rewrite toBigInt_sub, !toBigInt_small by lia.
  destruct (Z.lt_ge_cases (Z.of_nat j) (Z.of_nat index)) as [Hlt|Hge].
  - rewrite Z.mod_small by lia. lia.
  - rewrite <- (Z_mod_plus_full _ 1 ORDER).
    rewrite Z.mod_small by lia. lia.
Qed.

Lemma getUnivariateLagrangeBasis_total (values : list F) (index : nat) (x : F) :
  Z.of_nat (length values) < 2 ^ 32 -> (index < length values)%nat ->
  exists b,
    getUnivariateLagrangeBasis index
      (map (fun index => Field (Z.of_nat index)) (seq 0 (length values))) x
    = Ok b.
Proof.
  intros Hn Hi. unfold getUnivariateLagrangeBasis.
  rewrite length_map, length_seq.
  apply for_loop_total. intros j acc Hj. apply in_seq in Hj.
  destruct (Nat.eqb_spec j index) as [_|Hneq]; [now eexists|].
  rewrite !nodes_at by lia. cbn [bind].
  destruct (div_nonzero (sub x (Field (Z.of_nat j)))
              (sub (Field (Z.of_nat index)) (Field (Z.of_nat j)))) as [q Hq].
  - apply (denominator_nonzero (length values)); lia.
  - rewrite Hq. cbn [bind]. now eexists.
Qed.

Lemma lessThan_length (values : list F) (r : F) :
  Z.of_nat (length values) < 2 ^ 32 ->
  toBoolean (lessThan r (Z.of_nat (length values))) = true ->
  (Z.to_nat (toBigInt r) < length values)%nat.
Proof.
  intros Hn H. unfold lessThan in H. simpl in H. apply Z.ltb_lt in H.
  pose proof ORDER_large. pose proof (canonical_range r).
  rewrite Z.mod_small in H by lia. lia.
Qed.

Lemma getUnivariateLDE_total (values : list F) (r : F) :
  values <> [] -> Z.of_nat (length values) < 2 ^ 32 ->
  exists y, getUnivariateLDE values r = Ok y.
Proof.
  intros Hne Hn. unfold getUnivariateLDE.
  destruct (Nat.eqb_spec (length values) 0) as [E|_].
  { apply length_zero_iff_nil in E. contradiction. }
  destruct (toBoolean (lessThan r (Z.of_nat (length values)))) eqn:Hfast.
  - apply lessThan_length in Hfast; [|assumption].
    rewrite (at_index_lt _ _ (Field 0)) by assumption. now eexists.
  - rewrite length_map, length_seq.
    apply for_loop_total. intros i acc Hi. apply in_seq in Hi.
    rewrite (at_index_lt _ _ (Field 0)) by lia. cbn [bind].
    destruct (getUnivariateLagrangeBasis_total values i r) as [b Hb];
      [assumption | lia |].
    rewrite Hb. cbn [bind]. now eexists.
Qed.

(** At a node the table entry is returned as it is. *)
Lemma getUnivariateLDE_node (values : list F) (i : nat) (x : F) :
  Z.of_nat (length values) < 2 ^ 32 ->
  nth_error values i = Some x ->
  getUnivariateLDE values (Field (Z.of_nat i)) = Ok x.
Proof.
  intros Hn Hx.
  assert (Hi : (i < length values)%nat) by (apply nth_error_Some; congruence).
  pose proof ORDER_large as HO.
  unfold getUnivariateLDE.
  destruct (Nat.eqb_spec (length values) 0) as [E|_]; [lia|].
  unfold lessThan. simpl toBoolean.
  rewrite toBigInt_small by lia. rewrite Z.mod_small by lia.
  destruct (Z.ltb_spec (Z.of_nat i) (Z.of_nat (length values))) as [_|?]; [|lia].
  rewrite Nat2Z.id. now apply at_index_ok.
Qed.

(** A two-entry table is the line through [(0, a)] and [(1, b)]. *)
Lemma getUnivariateLDE_two (a b c : F) :
  getUnivariateLDE [a; b] c
  = Ok (add (mul (sub (Field 1) c) a) (mul c b)).
Proof.
  unfold getUnivariateLDE. simpl length. cbv iota.
  change (2 =? 0)%nat with false. cbv iota.
  destruct (toBoolean (lessThan c (Z.of_nat 2))) eqn:Hfast.
  - unfold lessThan in Hfast. simpl in Hfast. apply Z.ltb_lt in Hfast.
    change (2 mod ORDER) with 2 in Hfast.
    pose proof (canonical_range c) as Hc.
    assert (Hcases : toBigInt c = 0 \/ toBigInt c = 1) by lia.
    destruct Hcases as [E|E]; rewrite E; simpl.
    + assert (c = Field 0) as -> by (apply Field_eq; rewrite E; reflexivity).
      unfold at_index. simpl. f_equal. ring.
    + assert (c = Field 1) as -> by (apply Field_eq; rewrite E; reflexivity).
      unfold at_index. simpl. f_equal. ring.
  - unfold getUnivariateLagrangeBasis.
    cbn [for_loop seq map length at_index nth_error bind Nat.eqb].
    change (Z.of_nat 0) with 0. change (Z.of_nat 1) with 1.
    rewrite div_minus_one. cbn [bind].
    replace (sub (Field 1) (Field 0)) with (Field 1) by ring.
    rewrite div_one. cbn [bind]. f_equal. ring.
Qed.

End Univariate.

(** ** The multilinear evaluator *)

Section Multilinear.
Import Util MultilinearLagrange.

Lemma getMultilinearLagrangeBasis_from (w2 w1 x1 x2 : list F) (acc : F) :
  length w1 = length x1 -> length w2 = length x2 ->
  for_loop (seq (length w1) (length w2))
    (fun j accumulator =>
       vertex_j <- at_index (w1 ++ w2) j ;;
       x_j <- at_index (x1 ++ x2) j ;;
       Ok (mul accumulator
             (add (mul vertex_j x_j)
                  (mul (sub (Field 1) vertex_j) (sub (Field 1) x_j)))))
    acc
  = Ok (mul acc (basisR w2 x2)).
Proof.
  revert w1 x1 x2 acc.
  induction w2 as [|w0 w2 IH]; intros w1 x1 x2 acc H1 H2.
  - cbn [length seq for_loop basisR]. f_equal. ring.
  - destruct x2 as [|x0 x2]; [discriminate|].
    cbn [length seq for_loop].
    rewrite (at_index_middle w1 w0 w2 (length w1)) by reflexivity.
    rewrite (at_index_middle x1 x0 x2 (length w1)) by (now symmetry).
    cbn [bind].
    replace (w1 ++ w0 :: w2) with ((w1 ++ [w0]) ++ w2)
      by (now rewrite <- app_assoc).
    replace (x1 ++ x0 :: x2) with ((x1 ++ [x0]) ++ x2)
      by (now rewrite <- app_assoc).
    replace (S (length w1)) with (length (w1 ++ [w0]))
      by (rewrite length_app; simpl; lia).
    rewrite IH.
    + cbn [basisR]. unfold chi. f_equal. ring.
    + rewrite !length_app. simpl. lia.
    + simpl in H2. lia.
Qed.

Lemma getMultilinearLagrangeBasis_spec (vertex x : list F) :
  length vertex = length x ->
  getMultilinearLagrangeBasis vertex x = Ok (basisR vertex x).
Proof.
  intros H. unfold getMultilinearLagrangeBasis.
  pose proof (getMultilinearLagrangeBasis_from vertex [] [] x (Field 1)
                eq_refl H) as E.
  cbn [length app] in E. rewrite E. f_equal. ring.
Qed.

Lemma length_toBinary (num : Z) (d : nat) : length (toBinary num d) = d.
Proof. unfold toBinary. now rewrite length_rev, length_map, length_seq. Qed.

Lemma length_vertexF (d i : nat) : length (vertexF d i) = d.
Proof. unfold vertexF. now rewrite length_map, length_toBinary. Qed.

Lemma length_generateBinaryVertices (d : nat) :
  length (generateBinaryVertices d) = (2 ^ d)%nat.
Proof. unfold generateBinaryVertices. now rewrite length_map, length_seq. Qed.

(** On a point of the right dimension the evaluator returns [mle]. *)
Lemma getMultilinearLDE_spec (values x : list F) :
  values <> [] -> length x = ceilLog2 (length values) ->
  getMultilinearLDE values x = Ok (mle values x).
Proof.
  intros Hne Hx. unfold getMultilinearLDE.
  destruct (Nat.eqb_spec (length values) 0) as [E|_].
  { apply length_zero_iff_nil in E. contradiction. }
  rewrite Hx, Nat.eqb_refl. cbn [negb].
  rewrite length_map, length_generateBinaryVertices.
  rewrite (for_loop_sum _ _ (mleTerm values (ceilLog2 (length values)) x)).
  - unfold mle. f_equal. ring.
  - intros i a _. unfold mleTerm.
    destruct (Nat.ltb_spec i (length values)) as [Hi|Hi]; [|reflexivity].
    rewrite (at_index_lt _ _ (Field 0)) by assumption. cbn [bind].
    fold (vertexF (ceilLog2 (length values)) i).
    rewrite getMultilinearLagrangeBasis_spec
      by (now rewrite length_vertexF). reflexivity.
Qed.

(** A point of another dimension is refused. *)
Lemma getMultilinearLDE_dimension (values x : list F) :
  values <> [] -> length x <> ceilLog2 (length values) ->
  getMultilinearLDE values x = Err DimensionMismatchError.
Proof.
  intros Hne Hx. unfold getMultilinearLDE.
  destruct (Nat.eqb_spec (length values) 0) as [E|_].
  { apply length_zero_iff_nil in E. contradiction. }
  destruct (Nat.eqb_spec (length x) (ceilLog2 (length values))); [contradiction|].
  reflexivity.
Qed.

(** *** The extension is affine in each coordinate *)

Lemma basisR_affine (r : list F) (c : F) (b w : list F) :
  basisR w (r ++ c :: b)
  = add (mul (sub (Field 1) c) (basisR w (r ++ Field 0 :: b)))
        (mul c (basisR w (r ++ Field 1 :: b))).
Proof.
  revert w. induction r as [|r0 r IH]; intros [|w0 w]; cbn [app basisR].
  - ring.
  - unfold chi. ring.
  - ring.
  - rewrite IH. ring.
Qed.

Lemma fsum_affine {I : Type} (c : F) (f f0 f1 : I -> F) (l : list I) :
  (forall i, In i l ->
     f i = add (mul (sub (Field 1) c) (f0 i)) (mul c (f1 i))) ->
  fsum (map f l)
  = add (mul (sub (Field 1) c) (fsum (map f0 l))) (mul c (fsum (map f1 l))).
Proof.
  induction l as [|i l IH]; intros H; cbn [map fsum fold_right].
  - ring.
  - fold (fsum (map f l)) (fsum (map f0 l)) (fsum (map f1 l)).
    rewrite IH by (intros; apply H; now right).
    rewrite (H i) by (now left). ring.
Qed.

Lemma mle_affine (g r : list F) (c : F) (b : list F) :
  mle g (r ++ c :: b)
  = add (mul (sub (Field 1) c) (mle g (r ++ Field 0 :: b)))
        (mul c (mle g (r ++ Field 1 :: b))).
Proof.
  unfold mle. apply fsum_affine. intros i _. unfold mleTerm.
  destruct (i <? length g)%nat; [|ring].
  rewrite (basisR_affine r c b). ring.
Qed.

Lemma hsum_affine (g r : list F) (c : F) (k : nat) :
  hsum g (r ++ [c]) k
  = add (mul (sub (Field 1) c) (hsum g (r ++ [Field 0]) k))
        (mul c (hsum g (r ++ [Field 1]) k)).
Proof.
  unfold hsum. apply fsum_affine. intros b _.
  rewrite <- !app_assoc. cbn [app]. apply mle_affine.
Qed.

Lemma hsum_split (g r : list F) (k : nat) :
  hsum g r (S k) = add (hsum g (r ++ [Field 0]) k) (hsum g (r ++ [Field 1]) k).
Proof.
  unfold hsum. cbn [cube]. rewrite map_app, fsum_app, !map_map.
  f_equal; f_equal; apply map_ext; intros b; now rewrite <- app_assoc.
Qed.

Lemma hsum_zero (g r : list F) : hsum g r 0 = mle g r.
Proof. unfold hsum. cbn [cube map fsum fold_right]. rewrite app_nil_r. ring. Qed.

End Multilinear.

(** ** Binary vectors and vertices *)

Section BinaryVectors.
Import Util.

Lemma FieldOfChar_digitZ (c : bchar) : FieldOfChar c = Field (digitZ c).
Proof. now destruct c. Qed.

Lemma map_const_repeat {A B : Type} (c : B) (l : list A) :
  map (fun _ => c) l = repeat c (length l).
Proof.
  induction l as [|a l IH]; [reflexivity|].
  cbn [map length repeat]. now rewrite IH.
Qed.

Lemma repeat_snoc {A : Type} (a : A) (n : nat) :
  repeat a n ++ [a] = repeat a (S n).
Proof.
  induction n as [|n IH]; [reflexivity|].
  cbn [repeat app]. now rewrite IH.
Qed.

Lemma rev_repeat_same {A : Type} (a : A) (n : nat) :
  rev (repeat a n) = repeat a n.
Proof.
  induction n as [|n IH]; [reflexivity|].
  cbn [repeat rev]. rewrite IH. apply repeat_snoc.
Qed.

Lemma seq_add_map (a s n : nat) :
  seq (a + s) n = map (fun i => (a + i)%nat) (seq s n).
Proof.
  revert s. induction n as [|n IH]; intros s; [reflexivity|].
  cbn [seq map]. f_equal. rewrite <- IH. f_equal. lia.
Qed.

(** The digits of [binaryDigitsLSB] are the bits of the number. *)
Lemma lsb_bits (p : positive) (n : nat) :
  map (fun index => Z.b2z (Z.testbit (Zpos p) (Z.of_nat index)))
      (seq 0 (length (binaryDigitsLSB p) + n))
  = map digitZ (binaryDigitsLSB p) ++ repeat 0 n.
Proof.
  induction p as [q IH|q IH|];
    cbn [binaryDigitsLSB length Nat.add seq map app digitZ].
  - rewrite <- seq_shift, map_map. f_equal. rewrite <- IH.
    apply map_ext. intros index.
    rewrite Nat2Z.inj_succ, Pos2Z.inj_xI, Z.testbit_odd_succ by lia.
    reflexivity.
  - rewrite <- seq_shift, map_map. f_equal. rewrite <- IH.
    apply map_ext. intros index.
    rewrite Nat2Z.inj_succ, Pos2Z.inj_xO, Z.testbit_even_succ by lia.
    reflexivity.
  - rewrite <- seq_shift, map_map. f_equal.
    transitivity (map (fun _ : nat => 0) (seq 0 n)).
    + apply map_ext. intros index.
      rewrite Nat2Z.inj_succ.
      replace (Z.testbit 1 (Z.succ (Z.of_nat index))) with false; [reflexivity|].
      symmetry. change 1 with (2 * 0 + 1).
      rewrite Z.testbit_odd_succ by lia. apply Z.testbit_0_l.
    + now rewrite map_const_repeat, length_seq.
Qed.

Lemma lsb_length (p : positive) (d : nat) :
  Zpos p < 2 ^ Z.of_nat d -> (length (binaryDigitsLSB p) <= d)%nat.
Proof.
  revert d. induction p as [q IH|q IH|]; intros [|d] H;
    cbn [binaryDigitsLSB length].
  - simpl in H. lia.
  - apply le_n_S, IH. rewrite Nat2Z.inj_succ, Z.pow_succ_r in H; lia.
  - simpl in H. lia.
  - apply le_n_S, IH. rewrite Nat2Z.inj_succ, Z.pow_succ_r in H; lia.
  - simpl in H. lia.
  - lia.
Qed.

Lemma bitsMSB_zero (d : nat) : bitsMSB d 0 = repeat 0 d.
Proof.
  unfold bitsMSB.
  rewrite (map_ext _ (fun _ => 0)) by (intros; now rewrite Z.testbit_0_l).
  rewrite map_const_repeat, length_seq. apply rev_repeat_same.
Qed.

Lemma pow2_nat_Z (d : nat) : Z.of_nat (2 ^ d) = 2 ^ Z.of_nat d.
Proof. rewrite Nat2Z.inj_pow. reflexivity. Qed.

(** The strings of the provers spell the bits of the index. *)
Lemma binaryVector_bits (d i : nat) :
  (1 <= d)%nat -> (i < 2 ^ d)%nat ->
  binaryVector d i = map (fun e => Field e) (bitsMSB d (Z.of_nat i)).
Proof.
  intros Hd Hi. unfold binaryVector, toString2.
  destruct (N.of_nat i) as [|p] eqn:E.
  - assert (i = 0)%nat as -> by lia.
    change (Z.of_nat 0) with 0. rewrite bitsMSB_zero.
    unfold padStart. cbn [length]. rewrite map_app, !map_repeat.
    cbn [map FieldOfChar]. rewrite repeat_snoc. f_equal. lia.
  - assert (EZ : Z.of_nat i = Zpos p) by lia.
    rewrite EZ.
    assert (Hlen : (length (binaryDigitsLSB p) <= d)%nat).
    { apply lsb_length. rewrite <- EZ, <- pow2_nat_Z. lia. }
    unfold padStart, bitsMSB. rewrite length_rev.
    replace d with (length (binaryDigitsLSB p) + (d - length (binaryDigitsLSB p)))%nat
      at 2 by lia.
    rewrite lsb_bits, rev_app_distr, rev_repeat_same.
    rewrite !map_app, !map_repeat, !map_rev, map_map.
    f_equal. f_equal. apply map_ext. apply FieldOfChar_digitZ.
Qed.

Lemma bitsMSB_succ (d : nat) (i : Z) :
  bitsMSB (S d) i = Z.b2z (Z.testbit i (Z.of_nat d)) :: bitsMSB d i.
Proof.
  unfold bitsMSB. rewrite seq_S, map_app, rev_app_distr. reflexivity.
Qed.

Lemma bitsMSB_low (d i : nat) :
  (i < 2 ^ d)%nat ->
  bitsMSB (S d) (Z.of_nat i) = 0 :: bitsMSB d (Z.of_nat i).
Proof.
  intros Hi. rewrite bitsMSB_succ. f_equal.
  rewrite <- (Z.mod_small (Z.of_nat i) (2 ^ Z.of_nat d))
    by (rewrite <- pow2_nat_Z; lia).
  rewrite Z.mod_pow2_bits_high by lia. reflexivity.
Qed.

Lemma bitsMSB_high (d i : nat) :
  (i < 2 ^ d)%nat ->
  bitsMSB (S d) (Z.of_nat (2 ^ d + i)) = 1 :: bitsMSB d (Z.of_nat i).
Proof.
  intros Hi.
  assert (Hlt : 0 <= Z.of_nat i < 2 ^ Z.of_nat d)
    by (rewrite <- pow2_nat_Z; lia).
  assert (Hpos : 0 < 2 ^ Z.of_nat d) by lia.
  rewrite bitsMSB_succ, Nat2Z.inj_add, pow2_nat_Z. f_equal.
  - replace (Z.testbit (2 ^ Z.of_nat d + Z.of_nat i) (Z.of_nat d)) with true;
      [reflexivity|].
    symmetry. apply Z.testbit_true; [lia|].
    replace (2 ^ Z.of_nat d + Z.of_nat i)
      with (Z.of_nat i + 1 * 2 ^ Z.of_nat d) by ring.
    rewrite Z.div_add by lia. rewrite Z.div_small by lia. reflexivity.
  - unfold bitsMSB. f_equal. apply map_ext_in. intros index Hin.
    apply in_seq in Hin. f_equal.
    rewrite <- (Z.mod_pow2_bits_low _ (Z.of_nat d)) by lia.
    rewrite <- (Z.mod_pow2_bits_low (Z.of_nat i) (Z.of_nat d)) by lia.
    f_equal.
    replace (2 ^ Z.of_nat d + Z.of_nat i)
      with (Z.of_nat i + 1 * 2 ^ Z.of_nat d) by ring.
    apply Z_mod_plus_full.
Qed.

(** In index order the bit vectors enumerate the cube. *)
Lemma bits_cube (d : nat) :
  map (fun i => map (fun e => Field e) (bitsMSB d (Z.of_nat i))) (seq 0 (2 ^ d))
  = cube d.
Proof.
  induction d as [|d IH]; [reflexivity|].
  cbn [cube]. rewrite <- IH, !map_map.
  replace (2 ^ S d)%nat with (2 ^ d + 2 ^ d)%nat by (cbn [Nat.pow]; lia).
  rewrite seq_app, map_app. f_equal.
  - apply map_ext_in. intros i Hin. apply in_seq in Hin.
    rewrite bitsMSB_low by lia. reflexivity.
  - rewrite Nat.add_0_l.
    replace (seq (2 ^ d) (2 ^ d)) with (seq (2 ^ d + 0) (2 ^ d))
      by (now rewrite Nat.add_0_r).
    rewrite seq_add_map, map_map.
    apply map_ext_in. intros i Hin. apply in_seq in Hin.
    rewrite bitsMSB_high by lia. reflexivity.
Qed.

Lemma length_cube (k : nat) : length (cube k) = (2 ^ k)%nat.
Proof.
  induction k as [|k IH]; [reflexivity|].
  cbn [cube Nat.pow]. rewrite length_app, !length_map, IH. lia.
Qed.

Lemma cube_dimension (k : nat) (b : list F) : In b (cube k) -> length b = k.
Proof.
  revert b. induction k as [|k IH]; intros b Hb.
  - destruct Hb as [<-|[]]. reflexivity.
  - cbn [cube] in Hb. apply in_app_or in Hb.
    destruct Hb as [Hb|Hb]; apply in_map_iff in Hb;
      destruct Hb as [b' [<- Hb']]; cbn [length]; f_equal; now apply IH.
Qed.

(** The binary vectors of [sum-check-prover.ts], for a positive dimension. *)
Lemma prover_getBinaryVectors_cube (k : nat) :
  (1 <= k)%nat -> SumCheckProver.Prover.getBinaryVectors k = cube k.
Proof.
  intros Hk. unfold SumCheckProver.Prover.getBinaryVectors.
  destruct (Nat.eqb_spec k 0) as [E|_]; [lia|].
  rewrite <- bits_cube. apply map_ext_in. intros i Hin. apply in_seq in Hin.
  apply binaryVector_bits; lia.
Qed.

(** The binary vectors of [sum-check.ts], for a positive dimension. *)
Lemma sumcheck_getBinaryVectors_cube (k : nat) :
  (1 <= k)%nat -> SumCheck.Prover.getBinaryVectors k = cube k.
Proof.
  intros Hk. unfold SumCheck.Prover.getBinaryVectors.
  rewrite <- bits_cube. apply map_ext_in. intros i Hin. apply in_seq in Hin.
  apply binaryVector_bits; lia.
Qed.

(** *** [toBinary] on 32-bit operands *)

Lemma toInt32_mod (z : Z) : toInt32 z mod 2 ^ 32 = z mod 2 ^ 32.
Proof.
  unfold toInt32. rewrite Zminus_mod_idemp_l. f_equal. ring.
Qed.

Lemma testbit_toInt32 (z n : Z) :
  0 <= n < 32 -> Z.testbit (toInt32 z) n = Z.testbit z n.
Proof.
  intros Hn.
  rewrite <- (Z.mod_pow2_bits_low (toInt32 z) 32 n) by lia.
  rewrite toInt32_mod. apply Z.mod_pow2_bits_low. lia.
Qed.

Lemma bitAnd_one (a : Z) : bitAnd a 1 = Z.b2z (Z.testbit a 0).
Proof.
  unfold bitAnd. change (toInt32 1) with 1.
  change 1 with (Z.ones 1) at 1. rewrite Z.land_ones by lia.
  change (2 ^ 1) with 2. rewrite <- Z.bit0_mod.
  rewrite testbit_toInt32 by lia.
  now destruct (Z.testbit a 0).
Qed.

Lemma toBinary_bit (num : Z) (index : nat) :
  (index < 32)%nat ->
  bitAnd (shiftRight num (Z.of_nat index)) 1
  = Z.b2z (Z.testbit num (Z.of_nat index)).
Proof.
  intros Hi. rewrite bitAnd_one. unfold shiftRight.
  rewrite Z.mod_small by lia.
  rewrite Z.shiftr_spec by lia. rewrite Z.add_0_l.
  rewrite testbit_toInt32 by lia. reflexivity.
Qed.

(** Up to 32 digits [toBinary] gives the bits of the number. *)
Lemma toBinary_bits (num : Z) (d : nat) :
  (d <= 32)%nat -> toBinary num d = bitsMSB d num.
Proof.
  intros Hd. unfold toBinary, bitsMSB. f_equal.
  apply map_ext_in. intros index Hin. apply in_seq in Hin.
  apply toBinary_bit. lia.
Qed.

Lemma vertexF_bits (d i : nat) :
  (d <= 32)%nat ->
  vertexF d i = map (fun e => Field e) (bitsMSB d (Z.of_nat i)).
Proof. intros Hd. unfold vertexF. now rewrite toBinary_bits. Qed.

End BinaryVectors.

(** ** Exactness at the vertices *)

Section Exactness.
Import Util MultilinearLagrange.

Lemma chi_00 : chi (Field 0) (Field 0) = Field 1.
Proof. unfold chi. ring. Qed.

Lemma chi_01 : chi (Field 0) (Field 1) = Field 0.
Proof. unfold chi. ring. Qed.

Lemma chi_10 : chi (Field 1) (Field 0) = Field 0.
Proof. unfold chi. ring. Qed.

Lemma chi_11 : chi (Field 1) (Field 1) = Field 1.
Proof. unfold chi. ring. Qed.

(** Every index below [2^(d+1)] lies in the lower or in the upper half. *)
Lemma half_cases (d i : nat) :
  (i < 2 ^ S d)%nat ->
  (i < 2 ^ d)%nat \/ exists i', (i = 2 ^ d + i' /\ i' < 2 ^ d)%nat.
Proof.
  intros H. cbn [Nat.pow] in H.
  destruct (Nat.lt_ge_cases i (2 ^ d)) as [Hlt|Hge]; [now left|].
  right. exists (i - 2 ^ d)%nat. lia.
Qed.

(** The basis polynomial of a vertex is 1 at that vertex and 0 at the others. *)
Lemma basis_delta (d : nat) : forall k i : nat,
  (k < 2 ^ d)%nat -> (i < 2 ^ d)%nat ->
  basisR (map (fun e => Field e) (bitsMSB d (Z.of_nat k)))
         (map (fun e => Field e) (bitsMSB d (Z.of_nat i)))
  = if (k =? i)%nat then Field 1 else Field 0.
Proof.
  induction d as [|d IH]; intros k i Hk Hi.
  - cbn [Nat.pow] in Hk, Hi.
    assert (k = 0)%nat as -> by lia. assert (i = 0)%nat as -> by lia.
    reflexivity.
  - destruct (half_cases d k Hk) as [Hk'|[k' [-> Hk']]];
      destruct (half_cases d i Hi) as [Hi'|[i' [-> Hi']]].
    + rewrite (bitsMSB_low d k), (bitsMSB_low d i) by assumption.
      cbn [map basisR]. rewrite IH by assumption.
      rewrite chi_00. destruct (k =? i)%nat; ring.
    + rewrite (bitsMSB_low d k), (bitsMSB_high d i') by assumption.
      cbn [map basisR]. rewrite IH by assumption.
      rewrite chi_01.
      destruct (Nat.eqb_spec k (2 ^ d + i')) as [E|_]; [lia|].
      destruct (k =? i')%nat; ring.
    + rewrite (bitsMSB_high d k'), (bitsMSB_low d i) by assumption.
      cbn [map basisR]. rewrite IH by assumption.
      rewrite chi_10.
      destruct (Nat.eqb_spec (2 ^ d + k') i) as [E|_]; [lia|].
      destruct (k' =? i)%nat; ring.
    + rewrite (bitsMSB_high d k'), (bitsMSB_high d i') by assumption.
      cbn [map basisR]. rewrite IH by assumption.
      rewrite chi_11.
      destruct (Nat.eqb_spec k' i') as [E|E];
        destruct (Nat.eqb_spec (2 ^ d + k') (2 ^ d + i')) as [E'|E'];
        try lia; ring.
Qed.

Lemma fsum_zero {I : Type} (l : list I) (f : I -> F) :
  (forall k, In k l -> f k = Field 0) -> fsum (map f l) = Field 0.
Proof.
  induction l as [|k l IH]; intros H; [reflexivity|].
  cbn [map fsum fold_right]. fold (fsum (map f l)).
  rewrite IH by (intros; apply H; now right).
  rewrite (H k) by (now left). ring.
Qed.

Lemma fsum_delta (a : F) (i m s : nat) :
  fsum (map (fun k => if (k =? i)%nat then a else Field 0) (seq s m))
  = if ((s <=? i) && (i <? s + m))%nat then a else Field 0.
Proof.
  revert s. induction m as [|m IH]; intros s.
  - cbn [seq map fsum fold_right].
    destruct (Nat.leb_spec s i), (Nat.ltb_spec i (s + 0)); try reflexivity; lia.
  - cbn [seq map fsum fold_right].
    fold (fsum (map (fun k => if (k =? i)%nat then a else Field 0) (seq (S s) m))).
    rewrite IH.
    destruct (Nat.eqb_spec s i), (Nat.leb_spec (S s) i),
      (Nat.ltb_spec i (S s + m)), (Nat.leb_spec s i),
      (Nat.ltb_spec i (s + S m)); cbn [andb]; try lia; ring.
Qed.

(** At the vertex of index [i] the extension takes the table's value. *)
Lemma mle_vertex (values : list F) (i : nat) :
  let d := ceilLog2 (length values) in
  (d <= 32)%nat -> (i < 2 ^ d)%nat ->
  mle values (map (fun e => Field e) (bitsMSB d (Z.of_nat i)))
  = paddedValue values i.
Proof.
  intros d Hd Hi. unfold mle. fold d.
  rewrite (map_ext_in _
             (fun k => if (k =? i)%nat then paddedValue values i else Field 0)).
  - rewrite fsum_delta. cbn [Nat.leb Nat.add].
    destruct (Nat.ltb_spec i (2 ^ d)); [reflexivity | lia].
  - intros k Hin. apply in_seq in Hin. unfold mleTerm, paddedValue.
    rewrite vertexF_bits by assumption.
    rewrite basis_delta by lia.
    destruct (Nat.eqb_spec k i) as [->|_].
    + destruct (i <? length values)%nat; ring.
    + destruct (k <? length values)%nat; ring.
Qed.

Lemma ceilLog2_bound (n : nat) :
  (0 < n)%nat -> Z.of_nat n <= 2 ^ 32 -> (ceilLog2 n <= 32)%nat.
Proof.
  intros Hpos Hn. unfold ceilLog2. apply Nat.log2_up_le_pow2; [assumption|].
  apply Nat2Z.inj_le. rewrite pow2_nat_Z. exact Hn.
Qed.

Lemma ceilLog2_unique (n v : nat) :
  (1 <= v)%nat -> (2 ^ (v - 1) < n <= 2 ^ v)%nat -> ceilLog2 n = v.
Proof.
  intros Hv Hn. unfold ceilLog2. apply Nat.log2_up_unique; [lia|].
  replace (Nat.pred v) with (v - 1)%nat by lia. exact Hn.
Qed.

Lemma map_nth_all {A : Type} (l : list A) (d : A) :
  map (fun i => nth i l d) (seq 0 (length l)) = l.
Proof.
  induction l as [|a l IH]; [reflexivity|].
  cbn [length seq map nth]. f_equal.
  rewrite <- seq_shift, map_map. exact IH.
Qed.

(** The padded table sums to the sum of the table. *)
Lemma fsum_padded (values : list F) (m : nat) :
  (length values <= m)%nat ->
  fsum (map (paddedValue values) (seq 0 m)) = fsum values.
Proof.
  intros Hm.
  replace m with (length values + (m - length values))%nat by lia.
  rewrite seq_app, map_app, fsum_app.
  rewrite (map_ext_in _ (fun i => nth i values (Field 0))).
  - rewrite map_nth_all, fsum_zero; [ring|].
    intros k Hin. apply in_seq in Hin. unfold paddedValue.
    destruct (Nat.ltb_spec k (length values)); [lia | reflexivity].
  - intros k Hin. apply in_seq in Hin. unfold paddedValue.
    destruct (Nat.ltb_spec k (length values)); [reflexivity | lia].
Qed.

End Exactness.

(** ** The proposed sum *)

Section ProposedSum.
Import Util MultilinearLagrange.

(** On a table of dimension [v] the loop of [getProposedSum] adds the values
    of the extension at all vertices, which are the padded table. *)
Lemma proposedSum_loop (g : list F) (v : nat) (vectors : list (list F)) :
  g <> [] -> ceilLog2 (length g) = v -> (v <= 32)%nat ->
  vectors = map (fun i => map (fun e => Field e) (bitsMSB v (Z.of_nat i)))
                (seq 0 (2 ^ v)) ->
  for_loop (seq 0 (length vectors))
    (fun i accumulator =>
       vector <- at_index vectors i ;;
       value <- getMultilinearLDE g vector ;;
       Ok (add accumulator value))
    (Field 0)
  = Ok (fsum (map (paddedValue g) (seq 0 (2 ^ v)))).
Proof.
  intros Hne Hdim Hv ->. rewrite length_map, length_seq.
  rewrite (for_loop_sum _ _ (paddedValue g)).
  - f_equal. ring.
  - intros i a Hin. apply in_seq in Hin.
    rewrite at_index_map_seq by lia. cbn [bind].
    rewrite getMultilinearLDE_spec.
    + cbn [bind]. subst v. rewrite mle_vertex by (assumption || lia).
      reflexivity.
    + assumption.
    + unfold bitsMSB. now rewrite length_map, length_rev, length_map, length_seq.
Qed.

Lemma length_pow2_bound (g : list F) (v : nat) :
  (length g <= 2 ^ v)%nat -> (2 ^ v <? length g)%nat = false.
Proof. intros H. apply Nat.ltb_ge. exact H. Qed.

End ProposedSum.

(** ** An honest run *)

Section Completeness.
Import Util UnivariateLagrange MultilinearLagrange.
Import SumCheckIterative.


Lemma for_loop_pair_sum {I : Type} (idxs : list I)
  (body : I -> F * F -> result (F * F)) (t0 t1 : I -> F) (a0 a1 : F) :
  (forall i s0 s1, In i idxs ->
     body i (s0, s1) = Ok (add s0 (t0 i), add s1 (t1 i))) ->
  for_loop idxs body (a0, a1)
  = Ok (add a0 (fsum (map t0 idxs)), add a1 (fsum (map t1 idxs))).
Proof.
  revert a0 a1. induction idxs as [|i rest IH]; intros a0 a1 H.
  - cbn [for_loop map fsum fold_right]. apply f_equal. apply f_equal2; ring.
  - cbn [for_loop]. rewrite H by (now left).
    rewrite IH by (intros; apply H; now right).
    cbn [map]. rewrite !fsum_cons. apply f_equal. apply f_equal2; ring.
Qed.

Lemma equals_same (a b : F) : a = b -> toBoolean (equals a b) = true.
Proof. intros ->. unfold equals. simpl. apply Z.eqb_refl. Qed.

Lemma equals_true_iff (a b : F) : toBoolean (equals a b) = true <-> a = b.
Proof.
  split; [|apply equals_same].
  unfold equals. simpl. intros H. apply Z.eqb_eq in H. now apply Field_eq.
Qed.

(** From here on [g] is a table of dimension [v]. *)
Variables (g : list F) (v : nat).
Hypothesis g_nonempty : g <> [].
Hypothesis g_dimension : ceilLog2 (length g) = v.

(** The sums computed by [getRoundJPolynomial] past its checks. *)
Lemma prover_sums (r : list F) :
  (length r < v)%nat ->
  (let binaryVectors :=
     SumCheckProver.Prover.getBinaryVectors (v - (length r + 1)) in
   if negb (length binaryVectors =? 0)%nat then
     sums <- for_loop binaryVectors
               (fun vector '(sum0, sum1) =>
                  at0 <- getMultilinearLDE g (r ++ [Field 0] ++ vector) ;;
                  let sum0 := add sum0 at0 in
                  at1 <- getMultilinearLDE g (r ++ [Field 1] ++ vector) ;;
                  let sum1 := add sum1 at1 in
                  Ok (sum0, sum1))
               (Field 0, Field 0) ;;
     Ok [fst sums; snd sums]
   else
     at0 <- getMultilinearLDE g (r ++ [Field 0]) ;;
     let sum0 := add (Field 0) at0 in
     at1 <- getMultilinearLDE g (r ++ [Field 1]) ;;
     let sum1 := add (Field 0) at1 in
     Ok [sum0; sum1])
  = Ok (honestPolynomial g r v).
Proof.
  intros Hr. cbv zeta. unfold honestPolynomial.
  destruct (v - (length r + 1))%nat as [|k] eqn:Ek.
  - cbn [SumCheckProver.Prover.getBinaryVectors Nat.eqb length negb].
    rewrite !getMultilinearLDE_spec
      by (try assumption; rewrite length_app; simpl; lia).
    cbn [bind]. rewrite !hsum_zero. apply f_equal.
    apply f_equal2; [ring|]. apply f_equal2; [ring | reflexivity].
  - rewrite prover_getBinaryVectors_cube by lia.
    rewrite length_cube.
    destruct (Nat.eqb_spec (2 ^ S k) 0) as [E|_].
    { pose proof (Nat.pow_nonzero 2 (S k)). lia. }
    cbn [negb].
    rewrite (for_loop_pair_sum _ _
               (fun b => mle g ((r ++ [Field 0]) ++ b))
               (fun b => mle g ((r ++ [Field 1]) ++ b))).
    + cbn [bind fst snd]. unfold hsum. apply f_equal.
      apply f_equal2; [ring|]. apply f_equal2; [ring | reflexivity].
    + intros b s0 s1 Hb. apply cube_dimension in Hb.
      rewrite !getMultilinearLDE_spec
        by (try assumption; rewrite !length_app; simpl; lia).
      cbn [bind]. now rewrite <- !app_assoc.
Qed.

(** Round 1: the prover is called without a challenge. *)
Lemma prover_first_round :
  (1 <= v)%nat ->
  SumCheckProver.Prover.getRoundJPolynomial
    (SumCheckProver.Prover.mk v g []) None
  = (SumCheckProver.Prover.mk v g [], Ok (honestPolynomial g [] v)).
Proof.
  intros Hv. unfold SumCheckProver.Prover.getRoundJPolynomial.
  cbn [SumCheckProver.Prover.this_v SumCheckProver.Prover.this_g
       SumCheckProver.Prover.this_r length Nat.add isDefined negb andb Nat.eqb].
  destruct (Nat.leb_spec v 0) as [E|_]; [lia|].
  f_equal. apply (prover_sums []). simpl. lia.
Qed.

(** Round [j > 1]: the prover is called with the previous challenge. *)
Lemma prover_next_round (r : list F) (c : F) :
  (length r + 1 < v)%nat ->
  SumCheckProver.Prover.getRoundJPolynomial
    (SumCheckProver.Prover.mk v g r) (Some c)
  = (SumCheckProver.Prover.mk v g (r ++ [c]),
     Ok (honestPolynomial g (r ++ [c]) v)).
Proof.
  intros Hr. unfold SumCheckProver.Prover.getRoundJPolynomial.
  cbn [SumCheckProver.Prover.this_v SumCheckProver.Prover.this_g
       SumCheckProver.Prover.this_r isDefined negb andb].
  assert (Hlen : length (r ++ [c]) = (length r + 1)%nat)
    by (rewrite length_app; reflexivity).
  destruct (Nat.leb_spec v (length (r ++ [c]))) as [E|_]; [lia|].
  destruct (Nat.eqb_spec (length (r ++ [c]) + 1) 1) as [E|_]; [lia|].
  cbn [andb]. rewrite Bool.andb_false_r.
  f_equal. apply (prover_sums (r ++ [c])). lia.
Qed.

Lemma getUnivariateLDE_two_0 (a b : F) : getUnivariateLDE [a; b] (Field 0) = Ok a.
Proof. rewrite getUnivariateLDE_two. f_equal. ring. Qed.

Lemma getUnivariateLDE_two_1 (a b : F) : getUnivariateLDE [a; b] (Field 1) = Ok b.
Proof. rewrite getUnivariateLDE_two. f_equal. ring. Qed.

(** A two-entry polynomial whose values sum to the expected one passes. *)
Lemma verifier_accepts (random : F) (verifier : Verifier.t) (s0 s1 e : F) :
  (length (Verifier.this_r verifier) < Verifier.this_v verifier)%nat ->
  expectedSum verifier = Ok e -> add s0 s1 = e ->
  Verifier.verifyRoundJPolynomial random verifier [s0; s1]
  = Ok (random,
        Verifier.mk (Verifier.this_v verifier)
          (Verifier.this_proposedSum verifier)
          (Verifier.this_polynomials verifier ++ [[s0; s1]])
          (Verifier.this_r verifier ++ [random])).
Proof.
  intros Hround Hexp Hsum. unfold Verifier.verifyRoundJPolynomial.
  unfold expectedSum in Hexp.
  destruct (Nat.ltb_spec (Verifier.this_v verifier)
              (length (Verifier.this_r verifier) + 1)) as [E|_]; [lia|].
  change (2 <? length [s0; s1])%nat with false. cbv iota.
  rewrite getUnivariateLDE_two_0, getUnivariateLDE_two_1. cbn [bind].
  destruct (Nat.eqb_spec (length (Verifier.this_r verifier) + 1) 1) as [E1|E1].
  - injection Hexp as Hexp. rewrite equals_same by congruence. reflexivity.
  - destruct (Nat.ltb_spec 1 (length (Verifier.this_r verifier) + 1)) as [_|E];
      [|lia].
    rewrite Hexp. cbn [bind]. rewrite equals_same by assumption. reflexivity.
Qed.

Lemma rounds_honest (random : nat -> F) :
  forall n j prover verifier r_j,
    (1 <= j)%nat -> (j + n = v + 1)%nat ->
    honestState g v j prover verifier r_j ->
    exists prover' verifier',
      rounds random n j prover verifier r_j = Ok (prover', verifier')
      /\ SumCheckProver.Prover.this_g prover' = g
      /\ Verifier.this_v verifier' = v
      /\ length (Verifier.this_r verifier') = v
      /\ length (Verifier.this_polynomials verifier') = v
      /\ expectedSum verifier' = Ok (mle g (Verifier.this_r verifier')).
Proof.
  induction n as [|n IH]; intros j prover verifier r_j Hj Hjn Hst.
  - destruct Hst as (Hpv & Hpg & Hvv & Hvr & Hvp & Hexp & _).
    exists prover, verifier. cbn [rounds].
    replace (j - 1)%nat with v in * by lia.
    rewrite Nat.sub_diag, hsum_zero in Hexp. auto 10.
  - destruct Hst as (Hpv & Hpg & Hvv & Hvr & Hvp & Hexp & Hrj).
    destruct prover as [pv pg pr]. destruct verifier as [vv vs vp vr].
    cbn [SumCheckProver.Prover.this_v SumCheckProver.Prover.this_g
         SumCheckProver.Prover.this_r Verifier.this_v Verifier.this_r
         Verifier.this_polynomials Verifier.this_proposedSum] in *.
    subst pv pg vv.
    assert (Hsent : SumCheckProver.Prover.getRoundJPolynomial
                      (SumCheckProver.Prover.mk v g pr) r_j
                    = (SumCheckProver.Prover.mk v g vr,
                       Ok (honestPolynomial g vr v))).
    { destruct r_j as [c|].
      - subst vr. apply prover_next_round; try assumption.
        rewrite length_app in Hvr. simpl in Hvr. lia.
      - destruct Hrj as [-> ->]. destruct vr; [|discriminate].
        apply prover_first_round; try assumption. lia. }
    cbn [rounds]. rewrite Hsent. cbn [bind]. unfold honestPolynomial.
    rewrite (verifier_accepts (random j) _ _ _
               (hsum g vr (v - (j - 1)))).
    + cbn [bind fst snd Verifier.this_v Verifier.this_r
           Verifier.this_polynomials Verifier.this_proposedSum].
      apply IH; [lia | lia |].
      unfold honestState.
      cbn [SumCheckProver.Prover.this_v SumCheckProver.Prover.this_g
           SumCheckProver.Prover.this_r Verifier.this_v Verifier.this_r
           Verifier.this_polynomials Verifier.this_proposedSum].
      rewrite !length_app, Hvr, Hvp. cbn [length].
      repeat split; try lia.
      unfold expectedSum.
      cbn [Verifier.this_r Verifier.this_polynomials Verifier.this_proposedSum].
      rewrite length_app, Hvr. cbn [length].
      destruct (Nat.eqb_spec (j - 1 + 1 + 1) 1) as [E|_]; [lia|].
      replace (j - 1 + 1 + 1 - 2)%nat with (j - 1)%nat by lia.
      rewrite (nth_error_snoc vp _ (j - 1)) by lia.
      rewrite (nth_error_snoc vr _ (j - 1)) by lia.
      cbn [getUnivariateLDE_at length Nat.eqb].
      rewrite getUnivariateLDE_two. f_equal.
      replace (v - (S j - 1))%nat with (v - (j - 1 + 1))%nat by lia.
      rewrite (hsum_affine g vr (random j)). ring.
    + cbn [Verifier.this_v Verifier.this_r]. lia.
    + exact Hexp.
    + replace (v - (j - 1))%nat with (S (v - (length vr + 1))) by lia.
      now rewrite hsum_split.
Qed.

(** The proposed sum of the prover of [sum-check-prover.ts] is the sum of
    the extension over the whole cube. *)
Lemma prover_getProposedSum_hsum :
  (1 <= v)%nat ->
  SumCheckProver.Prover.getProposedSum (SumCheckProver.Prover.mk v g [])
  = Ok (hsum g [] v).
Proof.
  intros Hv. unfold SumCheckProver.Prover.getProposedSum.
  cbn [SumCheckProver.Prover.this_v SumCheckProver.Prover.this_g].
  rewrite prover_getBinaryVectors_cube by assumption.
  rewrite (for_loop_sum _ _ (fun i => mle g (nth i (cube v) []))).
  - f_equal. unfold hsum. cbn [app].
    rewrite <- (map_nth_all (cube v) []) at 2. rewrite map_map.
    ring.
  - intros i a Hin. apply in_seq in Hin.
    rewrite (at_index_lt _ _ []) by lia. cbn [bind].
    rewrite getMultilinearLDE_spec; [reflexivity | assumption |].
    rewrite g_dimension. apply cube_dimension. apply nth_In. lia.
Qed.

(** The honest run: all rounds pass, the verifier ends with [v] challenges
    and accepts the oracle query. *)
Lemma honest_run_trace (random : nat -> F) :
  (1 <= v)%nat ->
  exists prover' verifier',
    rounds random v 1 (SumCheckProver.Prover.mk v g [])
      (Verifier.constructor (hsum g [] v) v) None
    = Ok (prover', verifier')
    /\ SumCheckProver.Prover.this_g prover' = g
    /\ length (Verifier.this_r verifier') = v
    /\ Verifier.verifyOracleQueryOfG verifier' g = Ok tt.
Proof.
  intros Hv.
  destruct (rounds_honest random v 1
              (SumCheckProver.Prover.mk v g [])
              (Verifier.constructor (hsum g [] v) v) None)
    as (prover' & verifier' & Hrun & Hg' & Hv' & Hr' & Hp' & Hexp).
  - lia.
  - lia.
  - unfold honestState, expectedSum. cbn. rewrite Nat.sub_0_r. auto 10.
  - exists prover', verifier'.
    split; [exact Hrun|]. split; [exact Hg'|]. split; [exact Hr'|].
    unfold Verifier.verifyOracleQueryOfG.
    rewrite Hr', Hp', Hv', Nat.eqb_refl. cbn [negb orb].
    rewrite getMultilinearLDE_spec by (assumption || congruence).
    cbn [bind]. unfold expectedSum in Hexp. rewrite Hr' in Hexp.
    destruct (Nat.eqb_spec (v + 1) 1) as [E|_]; [lia|].
    replace (v + 1 - 2)%nat with (v - 1)%nat in Hexp by lia.
    rewrite Hexp. cbn [bind].
    rewrite equals_same by reflexivity. reflexivity.
Qed.

End Completeness.

(* ================================================================== *)
(** * The claims *)

Section Claims.
Import Util UnivariateLagrange MultilinearLagrange.

(** C10. For the two-entry table [104, 105] the univariate extension is 104
    at 0, 105 at 1 and 106 at 2. *)
Theorem univariate_hi_scenario :
  getUnivariateLDE [Field 104; Field 105] (Field 0) = Ok (Field 104)
  /\ getUnivariateLDE [Field 104; Field 105] (Field 1) = Ok (Field 105)
  /\ getUnivariateLDE [Field 104; Field 105] (Field 2) = Ok (Field 106).
Proof. vm_compute. repeat split. Qed.

(** C9. In the general branch of [getUnivariateLDE] every denominator
    [nodes[index] - nodes[j]] with [j <> index] is different from zero, and
    on a non-empty table (an array: fewer than [2^32] entries) the function
    returns a value for every evaluation point: no division fails. *)
Theorem univariate_division_never_fails (values : list F) (r : F) :
  values <> [] -> Z.of_nat (length values) < 2 ^ 32 ->
  (forall index j : nat,
      (index < length values)%nat -> (j < length values)%nat -> j <> index ->
      sub (Field (Z.of_nat index)) (Field (Z.of_nat j)) <> Field 0)
  /\ (forall index : nat,
        (index < length values)%nat ->
        exists b,
          getUnivariateLagrangeBasis index
            (map (fun index => Field (Z.of_nat index)) (seq 0 (length values))) r
          = Ok b)
  /\ exists y, getUnivariateLDE values r = Ok y.
Proof.
  intros Hne Hn. split; [|split].
  - intros index j Hi Hj Hneq E.
    apply (denominator_nonzero (length values) index j Hn Hi Hj Hneq).
    rewrite E. reflexivity.
  - intros index Hi. now apply getUnivariateLagrangeBasis_total.
  - now apply getUnivariateLDE_total.
Qed.

Lemma univariate_division_never_fails_witness :
  exists y, getUnivariateLDE [Field 104; Field 105; Field 106] (Field 7) = Ok y.
Proof.
  apply (univariate_division_never_fails [Field 104; Field 105; Field 106] (Field 7)).
  - discriminate.
  - reflexivity.
Defined.

(** C4. On a non-empty table (an array: fewer than [2^32] entries), for every
    index [i] in range, the univariate extension at [Field(i)] is [values[i]],
    and the multilinear extension at the vertex of [i] (the bits of [i], most
    significant first, in [d = ceil(log2(length))] digits) is [values[i]] when
    [i < length] and zero otherwise. *)
Theorem node_interpolation_exactness (values : list F) (i : nat) :
  values <> [] -> Z.of_nat (length values) < 2 ^ 32 ->
  ((i < length values)%nat ->
     getUnivariateLDE values (Field (Z.of_nat i)) = Ok (nth i values (Field 0)))
  /\ ((i < 2 ^ ceilLog2 (length values))%nat ->
      getMultilinearLDE values
        (map (fun b => Field b) (toBinary (Z.of_nat i) (ceilLog2 (length values))))
      = Ok (if (i <? length values)%nat then nth i values (Field 0) else Field 0)).
Proof.
  intros Hne Hn. split.
  - intros Hi. apply getUnivariateLDE_node; [assumption|].
    now apply nth_error_nth'.
  - intros Hi.
    assert (Hpos : (0 < length values)%nat).
    { destruct values; [contradiction | simpl; lia]. }
    assert (Hd : (ceilLog2 (length values) <= 32)%nat)
      by (apply ceilLog2_bound; lia).
    rewrite getMultilinearLDE_spec.
    + rewrite toBinary_bits by assumption.
      rewrite mle_vertex by assumption. reflexivity.
    + assumption.
    + now rewrite length_map, length_toBinary.
Qed.

Lemma node_interpolation_exactness_witness :
  getUnivariateLDE [Field 104; Field 105; Field 106] (Field 2) = Ok (Field 106)
  /\ getMultilinearLDE [Field 104; Field 105; Field 106] [Field 1; Field 0]
     = Ok (Field 106)
  /\ getMultilinearLDE [Field 104; Field 105; Field 106] [Field 1; Field 1]
     = Ok (Field 0).
Proof.
  assert (Hne : [Field 104; Field 105; Field 106] <> []) by discriminate.
  assert (Hn : Z.of_nat (length [Field 104; Field 105; Field 106]) < 2 ^ 32)
    by reflexivity.
  split; [|split].
  - apply (proj1 (node_interpolation_exactness _ 2 Hne Hn)). simpl. lia.
  - apply (proj2 (node_interpolation_exactness _ 2 Hne Hn)). simpl. lia.
  - apply (proj2 (node_interpolation_exactness _ 3 Hne Hn)). simpl. lia.
Defined.

(** C5, as the code has it.  For [v >= 1] and a table [g] (an array: fewer
    than [2^32] entries) with [2^(v-1) < g.length <= 2^v], so that
    [ceil(log2(g.length)) = v], the prover is constructed and
    [getProposedSum()] returns the sum of the entries of [g]. *)
Theorem proposed_sum_full_dimension (g : list F) (v : nat) :
  (1 <= v)%nat -> Z.of_nat (length g) < 2 ^ 32 ->
  (2 ^ (v - 1) < length g <= 2 ^ v)%nat ->
  exists prover,
    SumCheck.Prover.constructor g v = Ok prover
    /\ SumCheck.Prover.getProposedSum prover = Ok (fsum g).
Proof.
  intros Hv Harray Hg.
  assert (Hne : g <> []) by (intros ->; simpl in Hg; lia).
  assert (Hdim : ceilLog2 (length g) = v) by (apply ceilLog2_unique; lia).
  assert (Hv32 : (v <= 32)%nat)
    by (rewrite <- Hdim; apply ceilLog2_bound; lia).
  exists (SumCheck.Prover.mk v g []). split.
  - unfold SumCheck.Prover.constructor.
    now rewrite length_pow2_bound by lia.
  - unfold SumCheck.Prover.getProposedSum.
    cbn [SumCheck.Prover.this_v SumCheck.Prover.this_g].
    rewrite (proposedSum_loop g v) by
      (try assumption;
       rewrite sumcheck_getBinaryVectors_cube, bits_cube by lia; reflexivity).
    f_equal. apply fsum_padded. lia.
Qed.

Lemma proposed_sum_full_dimension_witness :
  exists prover,
    SumCheck.Prover.constructor [Field 1; Field 2; Field 3] 2 = Ok prover
    /\ SumCheck.Prover.getProposedSum prover
       = Ok (fsum [Field 1; Field 2; Field 3]).
Proof.
  apply (proposed_sum_full_dimension [Field 1; Field 2; Field 3] 2).
  - lia.
  - reflexivity.
  - simpl. lia.
Defined.

(** C5, counterexample: [v = 2] and the two-entry table [1, 2] satisfy
    [1 <= g.length <= 2^v]; the prover is constructed, and
    [getProposedSum()] throws the dimension error of [getMultilinearLDE]. *)
Lemma proposed_sum_short_table_fails :
  (1 <= length [Field 1; Field 2] <= 2 ^ 2)%nat
  /\ SumCheck.Prover.constructor [Field 1; Field 2] 2
     = Ok (SumCheck.Prover.mk 2 [Field 1; Field 2] [])
  /\ SumCheck.Prover.getProposedSum (SumCheck.Prover.mk 2 [Field 1; Field 2] [])
     = Err DimensionMismatchError.
Proof. split; [simpl; lia | split; reflexivity]. Qed.

(** C1, as the code has it.  For [v >= 1], every table [g] with
    [2^(v-1) < g.length <= 2^v] and every sequence of challenges, the honest
    run of the protocol (the prover computes the proposed sum and each round's
    polynomial, the verifier checks each round and then the oracle query)
    ends in acceptance. *)
Theorem honest_run_accepted (g : list F) (v : nat) (random : nat -> F) :
  (1 <= v)%nat -> (2 ^ (v - 1) < length g <= 2 ^ v)%nat ->
  SumCheckIterative.runner g v random = Ok tt.
Proof.
  intros Hv Hg.
  assert (Hne : g <> []) by (intros ->; simpl in Hg; lia).
  assert (Hdim : ceilLog2 (length g) = v) by (apply ceilLog2_unique; lia).
  unfold SumCheckIterative.runner, SumCheckProver.Prover.constructor.
  rewrite length_pow2_bound by lia. cbn [bind].
  rewrite prover_getProposedSum_hsum by assumption. cbn [bind].
  destruct (honest_run_trace g v Hne Hdim random Hv)
    as (prover' & verifier' & Hrun & Hg' & _ & Hquery).
  rewrite Hrun. cbn [bind fst snd]. now rewrite Hg'.
Qed.

Lemma honest_run_accepted_witness :
  SumCheckIterative.runner
    (map (fun i => Field (Z.of_nat i + 1)) (seq 0 8)) 3
    (fun j => Field (Z.of_nat j * 1000 + 7))
  = Ok tt.
Proof.
  apply (honest_run_accepted
           (map (fun i => Field (Z.of_nat i + 1)) (seq 0 8)) 3
           (fun j => Field (Z.of_nat j * 1000 + 7))).
  - lia.
  - simpl. lia.
Defined.

(** C1, counterexample: the two-entry table [1, 2] is non-empty and no longer
    than [2^2], and the honest run for [v = 2] stops with the dimension error
    of [getMultilinearLDE], thrown while the proposed sum is computed.  For
    [v = 0] and the one-entry table [5] there is no round, and the oracle
    query throws when it reads the last polynomial of none. *)
Lemma honest_run_short_table_fails :
  [Field 1; Field 2] <> []
  /\ (length [Field 1; Field 2] <= 2 ^ 2)%nat
  /\ SumCheckIterative.runner [Field 1; Field 2] 2 (fun _ => Field 7)
     = Err DimensionMismatchError
  /\ (length [Field 5] <= 2 ^ 0)%nat
  /\ SumCheckIterative.runner [Field 5] 0 (fun _ => Field 7)
     = Err EmptyInputError.
Proof.
  split; [discriminate|]. split; [simpl; lia|]. split; [reflexivity|].
  split; [simpl; lia | reflexivity].
Qed.

(** C2, at the failing input.  The verifier of [sum-check.ts] with proposed
    sum 36 is sent [g_1 = [1, 2]], for which [g_1(0) + g_1(1) = 3]: the guard
    [if (!sum.equals(this.proposedSum))] negates the [Bool] object, so nothing
    is thrown, a challenge is returned and the state advances.  The verifier
    of [sum-check-iterative.ts], which reads the comparison with
    [.toBoolean()], rejects the same polynomial. *)
Theorem sumcheck_verifier_accepts_wrong_sum :
  getUnivariateLDE [Field 1; Field 2] (Field 0) = Ok (Field 1)
  /\ getUnivariateLDE [Field 1; Field 2] (Field 1) = Ok (Field 2)
  /\ add (Field 1) (Field 2) <> Field 36
  /\ SumCheck.Verifier.verifyRoundJPolynomial (Field 7)
       (SumCheck.Verifier.constructor (Field 36) 3) [Field 1; Field 2]
     = Ok (Field 7,
           SumCheck.Verifier.mk 3 (Field 36) [[Field 1; Field 2]] [Field 7])
  /\ SumCheckIterative.Verifier.verifyRoundJPolynomial (Field 7)
       (SumCheckIterative.Verifier.constructor (Field 36) 3) [Field 1; Field 2]
     = Err SumMismatchError.
Proof.
  split; [reflexivity|]. split; [reflexivity|]. split; [discriminate|].
  split; reflexivity.
Qed.

(** C3, at the failing input.  For the one-character message ["a"] the
    dimension is [d = 0] and the only valid point is the empty vector: the
    naive evaluator returns 97, the memoized one throws, since
    [memoizedLagrangeBasis] reads [x[0]] of the empty vector. *)
Theorem memoized_fails_on_single_character :
  ceilLog2 (length [97]) = 0%nat
  /\ MessageExtensions.getMultilinearLagrange [97] [] = Ok (Field 97)
  /\ MessageExtensions.getMemoizedMultilinearLagrange [97] [] = Err TypeError.
Proof. repeat split. Qed.

(** C6, at the failing input.  In [sum-check.ts], [getBinaryVectors(0)] is
    the list of the one-entry vector [[0]], so in the final round of a
    one-variable table the evaluation point gets a suffix and
    [getMultilinearLDE] throws; the prover of [sum-check-prover.ts] returns
    the pair of the two single terms. *)
Theorem sumcheck_final_round_appends_suffix :
  SumCheck.Prover.getBinaryVectors 0 = [[Field 0]]
  /\ SumCheck.Prover.getRoundJPolynomial
       (SumCheck.Prover.mk 1 [Field 1; Field 2] []) None
     = (SumCheck.Prover.mk 1 [Field 1; Field 2] [], Err DimensionMismatchError)
  /\ getMultilinearLDE [Field 1; Field 2] [Field 0] = Ok (Field 1)
  /\ getMultilinearLDE [Field 1; Field 2] [Field 1] = Ok (Field 2)
  /\ SumCheckProver.Prover.getRoundJPolynomial
       (SumCheckProver.Prover.mk 1 [Field 1; Field 2] []) None
     = (SumCheckProver.Prover.mk 1 [Field 1; Field 2] [],
        Ok [Field 1; Field 2]).
Proof. repeat split. Qed.

(** C8, at the failing input.  The prover of [sum-check-prover.ts] for
    [v = 1] has completed its round; a further call with the challenge 5
    throws the round-overflow error, and by then the challenge has been pushed:
    [r] was [[]] before the call and is [[5]] after it. *)
Theorem prover_overflow_mutates_state :
  SumCheckProver.Prover.getRoundJPolynomial
    (SumCheckProver.Prover.mk 1 [Field 1; Field 2] []) None
  = (SumCheckProver.Prover.mk 1 [Field 1; Field 2] [], Ok [Field 1; Field 2])
  /\ SumCheckProver.Prover.getRoundJPolynomial
       (SumCheckProver.Prover.mk 1 [Field 1; Field 2] []) (Some (Field 5))
     = (SumCheckProver.Prover.mk 1 [Field 1; Field 2] [Field 5],
        Err RoundOverflowError).
Proof. split; reflexivity. Qed.

(** The state of the prover after calls that all returned. *)
Lemma completeRounds_state (calls : list (option F)) :
  forall prover prover',
    completeRounds prover calls = Ok prover' ->
    SumCheckProver.Prover.this_v prover' = SumCheckProver.Prover.this_v prover
    /\ length (SumCheckProver.Prover.this_r prover')
       = (length (SumCheckProver.Prover.this_r prover)
          + length (filter isDefined calls))%nat.
Proof.
  induction calls as [|r_prev rest IH]; intros prover prover' H.
  - injection H as <-. cbn [filter length]. split; [reflexivity | lia].
  - cbn [completeRounds] in H.
    destruct (SumCheckProver.Prover.getRoundJPolynomial prover r_prev)
      as [p1 sent] eqn:Ecall.
    assert (Hp1 : p1 = match r_prev with
                       | Some c =>
                           SumCheckProver.Prover.mk
                             (SumCheckProver.Prover.this_v prover)
                             (SumCheckProver.Prover.this_g prover)
                             (SumCheckProver.Prover.this_r prover ++ [c])
                       | None => prover
                       end).
    { unfold SumCheckProver.Prover.getRoundJPolynomial in Ecall.
      repeat match type of Ecall with
             | (if ?b then _ else _) = _ => destruct b
             end; now injection Ecall as <- _. }
    destruct sent as [poly|e]; [|discriminate]. cbn [bind] in H.
    apply IH in H. destruct H as [Hv Hr]. subst p1.
    destruct r_prev as [c|]; cbn [filter isDefined length] in *.
    + cbn [SumCheckProver.Prover.this_v SumCheckProver.Prover.this_r] in Hv, Hr.
      rewrite length_app in Hr. cbn [length] in Hr. split; [assumption | lia].
    + split; [assumption | lia].
Qed.

(** C7, as the code has it.  On the prover of [sum-check-prover.ts], once the
    [v] calls of an honest run have returned (the first without a challenge,
    the others with one each), a further call that supplies a challenge
    fails with the round-overflow error. *)
Theorem prover_round_overflow (g : list F) (v : nat)
  (calls : list (option F)) (c : F)
  (prover prover' : SumCheckProver.Prover.t) :
  length calls = v -> honestCalls calls ->
  SumCheckProver.Prover.constructor g v = Ok prover ->
  completeRounds prover calls = Ok prover' ->
  snd (SumCheckProver.Prover.getRoundJPolynomial prover' (Some c))
  = Err RoundOverflowError.
Proof.
  intros Hcalls Hhonest Hnew Hrun.
  unfold SumCheckProver.Prover.constructor in Hnew.
  destruct (2 ^ v <? length g)%nat; [discriminate|]. injection Hnew as <-.
  apply completeRounds_state in Hrun.
  cbn [SumCheckProver.Prover.this_v SumCheckProver.Prover.this_r
       length Nat.add] in Hrun.
  destruct Hrun as [Hv' Hr'].
  assert (Hcount : (length (filter isDefined calls) + 1 >= v)%nat).
  { destruct calls as [|first rest]; [simpl in Hcalls; lia|].
    destruct Hhonest as [-> Hrest]. cbn [filter isDefined].
    assert (Hfilter : filter isDefined rest = rest).
    { clear - Hrest. induction Hrest as [|a l Ha _ IH]; [reflexivity|].
      cbn [filter]. now rewrite Ha, IH. }
    rewrite Hfilter. simpl in Hcalls. lia. }
  unfold SumCheckProver.Prover.getRoundJPolynomial.
  cbn [SumCheckProver.Prover.this_v SumCheckProver.Prover.this_r].
  rewrite length_app, Hr', Hv'. cbn [length].
  destruct (Nat.leb_spec v (length (filter isDefined calls) + 1)) as [_|E];
    [reflexivity | lia].
Qed.

Lemma prover_round_overflow_witness :
  snd (SumCheckProver.Prover.getRoundJPolynomial
         (SumCheckProver.Prover.mk 2 [Field 1; Field 2; Field 3] [Field 9])
         (Some (Field 4)))
  = Err RoundOverflowError.
Proof.
  apply (prover_round_overflow [Field 1; Field 2; Field 3] 2
           [None; Some (Field 9)] (Field 4)
           (SumCheckProver.Prover.mk 2 [Field 1; Field 2; Field 3] [])).
  - reflexivity.
  - split; [reflexivity|]. repeat constructor.
  - reflexivity.
  - vm_compute. reflexivity.
Defined.

(** C7, counterexample: for [v = 1] the single round has been completed by
    the first call; a second call, made without a challenge, returns the
    polynomial of round 1 again instead of failing. *)
Lemma prover_repeats_round_one :
  SumCheckProver.Prover.constructor [Field 1; Field 2] 1
  = Ok (SumCheckProver.Prover.mk 1 [Field 1; Field 2] [])
  /\ completeRounds (SumCheckProver.Prover.mk 1 [Field 1; Field 2] []) [None]
     = Ok (SumCheckProver.Prover.mk 1 [Field 1; Field 2] [])
  /\ SumCheckProver.Prover.getRoundJPolynomial
       (SumCheckProver.Prover.mk 1 [Field 1; Field 2] []) None
     = (SumCheckProver.Prover.mk 1 [Field 1; Field 2] [],
        Ok [Field 1; Field 2]).
Proof. repeat split. Qed.

End Claims.

(* ================================================================== *)
(** * Further properties of the sibling implementations *)

Section Siblings.
Import Util UnivariateLagrange MultilinearLagrange.

(** The verifier of [sum-check-iterative.ts] in a round it may run, on a
    polynomial of at most two entries whose values at 0 and 1 exist: it throws
    the sum-mismatch error exactly when [g_j(0) + g_j(1)] differs from the
    expected value (the proposed sum in round 1, [g_{j-1}(r_{j-1})] later),
    and otherwise returns the challenge and stores it with [g_j]. *)
Theorem iterative_verifier_sum_check (random : F)
  (verifier : SumCheckIterative.Verifier.t) (g_j : list F) (at0 at1 e : F) :
  (length (SumCheckIterative.Verifier.this_r verifier)
   < SumCheckIterative.Verifier.this_v verifier)%nat ->
  (length g_j <= 2)%nat ->
  getUnivariateLDE g_j (Field 0) = Ok at0 ->
  getUnivariateLDE g_j (Field 1) = Ok at1 ->
  expectedSum verifier = Ok e ->
  (add at0 at1 <> e ->
   SumCheckIterative.Verifier.verifyRoundJPolynomial random verifier g_j
   = Err SumMismatchError)
  /\ (add at0 at1 = e ->
      SumCheckIterative.Verifier.verifyRoundJPolynomial random verifier g_j
      = Ok (random,
            SumCheckIterative.Verifier.mk
              (SumCheckIterative.Verifier.this_v verifier)
              (SumCheckIterative.Verifier.this_proposedSum verifier)
              (SumCheckIterative.Verifier.this_polynomials verifier ++ [g_j])
              (SumCheckIterative.Verifier.this_r verifier ++ [random]))).
Proof.
  intros Hround Hlen H0 H1 Hexp.
  unfold SumCheckIterative.Verifier.verifyRoundJPolynomial.
  unfold expectedSum in Hexp.
  destruct (Nat.ltb_spec (SumCheckIterative.Verifier.this_v verifier)
              (length (SumCheckIterative.Verifier.this_r verifier) + 1))
    as [E|_]; [lia|].
  destruct (Nat.ltb_spec 2 (length g_j)) as [E|_]; [lia|].
  rewrite H0, H1. cbn [bind].
  assert (Hcmp : forall x,
             toBoolean (equals (add at0 at1) x) = true <-> add at0 at1 = x)
    by (intros; apply equals_true_iff).
  destruct (Nat.eqb_spec
              (length (SumCheckIterative.Verifier.this_r verifier) + 1) 1)
    as [E1|E1].
  - injection Hexp as Hexp. subst e.
    destruct (toBoolean (equals (add at0 at1)
                (SumCheckIterative.Verifier.this_proposedSum verifier))) eqn:Eq.
    + apply Hcmp in Eq. split; [contradiction | reflexivity].
    + split; [reflexivity|]. intros Heq. apply Hcmp in Heq. congruence.
  - destruct (Nat.ltb_spec 1
                (length (SumCheckIterative.Verifier.this_r verifier) + 1))
      as [_|E]; [|lia].
    rewrite Hexp. cbn [bind].
    destruct (toBoolean (equals (add at0 at1) e)) eqn:Eq.
    + apply Hcmp in Eq. split; [contradiction | reflexivity].
    + split; [reflexivity|]. intros Heq. apply Hcmp in Heq. congruence.
Qed.

Lemma iterative_verifier_sum_check_witness :
  SumCheckIterative.Verifier.verifyRoundJPolynomial (Field 7)
    (SumCheckIterative.Verifier.constructor (Field 36) 3) [Field 16; Field 20]
  = Ok (Field 7,
        SumCheckIterative.Verifier.mk 3 (Field 36) [[Field 16; Field 20]]
          [Field 7]).
Proof.
  apply (proj2 (iterative_verifier_sum_check (Field 7)
                  (SumCheckIterative.Verifier.constructor (Field 36) 3)
                  [Field 16; Field 20] (Field 16) (Field 20) (Field 36)
                  ltac:(simpl; lia) ltac:(simpl; lia)
                  eq_refl eq_refl eq_refl)).
  reflexivity.
Defined.

(** The prover of [sum-check-prover.ts] in its final round (after the push
    [r] holds [v - 1] challenges): what it returns is the pair of the two
    single evaluations [g~(r, 0)] and [g~(r, 1)], no suffix appended. *)
Theorem prover_final_round (this : SumCheckProver.Prover.t) (r_prev : option F) :
  let r := match r_prev with
           | Some c => SumCheckProver.Prover.this_r this ++ [c]
           | None => SumCheckProver.Prover.this_r this
           end in
  (length r + 1 = SumCheckProver.Prover.this_v this)%nat ->
  (r_prev = None <-> r = []) ->
  snd (SumCheckProver.Prover.getRoundJPolynomial this r_prev)
  = (at0 <- getMultilinearLDE (SumCheckProver.Prover.this_g this)
              (r ++ [Field 0]) ;;
     at1 <- getMultilinearLDE (SumCheckProver.Prover.this_g this)
              (r ++ [Field 1]) ;;
     Ok [at0; at1]).
Proof.
  intros r Hfinal Hshape.
  unfold SumCheckProver.Prover.getRoundJPolynomial.
  destruct this as [v g r0].
  cbn [SumCheckProver.Prover.this_v SumCheckProver.Prover.this_g
       SumCheckProver.Prover.this_r] in *.
  assert (Hpushed :
            SumCheckProver.Prover.this_r
              match r_prev with
              | Some c => SumCheckProver.Prover.mk v g (r0 ++ [c])
              | None => SumCheckProver.Prover.mk v g r0
              end = r) by (now destruct r_prev).
  assert (Hv : SumCheckProver.Prover.this_v
                 match r_prev with
                 | Some c => SumCheckProver.Prover.mk v g (r0 ++ [c])
                 | None => SumCheckProver.Prover.mk v g r0
                 end = v) by (now destruct r_prev).
  assert (Hg : SumCheckProver.Prover.this_g
                 match r_prev with
                 | Some c => SumCheckProver.Prover.mk v g (r0 ++ [c])
                 | None => SumCheckProver.Prover.mk v g r0
                 end = g) by (now destruct r_prev).
  rewrite Hpushed, Hv, Hg.
  destruct (Nat.leb_spec v (length r)) as [E|_]; [lia|].
  assert (Hchecks :
            ((length r + 1 =? 1)%nat && isDefined r_prev = false)
            /\ (negb (length r + 1 =? 1)%nat && negb (isDefined r_prev) = false)).
  { destruct r_prev as [c|]; cbn [isDefined negb].
    - assert (Hlen : length r = (length r0 + 1)%nat)
        by (subst r; now rewrite length_app).
      destruct (Nat.eqb_spec (length r + 1) 1) as [E|_]; [lia|].
      split; reflexivity.
    - assert (Hnil : r = []) by (now apply Hshape).
      rewrite Hnil. split; reflexivity. }
  destruct Hchecks as [-> ->].
  replace (v - (length r + 1))%nat with 0%nat by lia.
  cbn [SumCheckProver.Prover.getBinaryVectors Nat.eqb length negb snd].
  destruct (getMultilinearLDE g (r ++ [Field 0])) as [a|e]; [|reflexivity].
  destruct (getMultilinearLDE g (r ++ [Field 1])) as [b|e]; [|reflexivity].
  cbn [bind]. apply f_equal.
  apply f_equal2; [ring|]. apply f_equal2; [ring | reflexivity].
Qed.

Lemma prover_final_round_witness :
  snd (SumCheckProver.Prover.getRoundJPolynomial
         (SumCheckProver.Prover.mk 2 [Field 1; Field 2; Field 3] [])
         (Some (Field 9)))
  = Ok [Field 19; Field (-16)].
Proof.
  rewrite (prover_final_round
             (SumCheckProver.Prover.mk 2 [Field 1; Field 2; Field 3] [])
             (Some (Field 9))).
  - vm_compute. reflexivity.
  - reflexivity.
  - split; discriminate.
Defined.

Lemma for_loop_err {A I : Type} (idxs : list I) (body : I -> A -> result A)
  (e : error) :
  forall acc, for_loop idxs body acc = Err e ->
  exists i acc', In i idxs /\ body i acc' = Err e.
Proof.
  induction idxs as [|i rest IH]; intros acc H; [discriminate|].
  cbn [for_loop] in H. destruct (body i acc) as [acc'|e'] eqn:Eb.
  - destruct (IH _ H) as (i' & acc'' & Hin & Hb).
    exists i', acc''. split; [now right | assumption].
  - injection H as ->. exists i, acc. split; [now left | assumption].
Qed.

(** The only errors of [getMultilinearLDE]. *)
Lemma getMultilinearLDE_error (values r : list F) (e : error) :
  getMultilinearLDE values r = Err e ->
  e = EmptyInputError \/ e = DimensionMismatchError.
Proof.
  intros H. destruct values as [|v0 vs].
  - left. unfold getMultilinearLDE in H. cbn in H. congruence.
  - destruct (Nat.eq_dec (length r) (ceilLog2 (length (v0 :: vs)))) as [E|E].
    + rewrite getMultilinearLDE_spec in H by (discriminate || assumption).
      discriminate.
    + rewrite getMultilinearLDE_dimension in H by (discriminate || assumption).
      right. congruence.
Qed.

(** The prover of [sum-check.ts] makes its three checks before the push: a
    call that throws the round-overflow, the unexpected-challenge or the
    missing-challenge error leaves the state as it was. *)
Theorem sumcheck_prover_errors_before_mutation
  (this this' : SumCheck.Prover.t) (r_prev : option F) (e : error) :
  SumCheck.Prover.getRoundJPolynomial this r_prev = (this', Err e) ->
  e = RoundOverflowError \/ e = UnexpectedChallengeError
  \/ e = MissingChallengeError ->
  this' = this.
Proof.
  intros Hcall Hkind. unfold SumCheck.Prover.getRoundJPolynomial in Hcall.
  destruct (SumCheck.Prover.this_v this <=? length (SumCheck.Prover.this_r this))%nat;
    [now injection Hcall as <- _|].
  destruct ((length (SumCheck.Prover.this_r this) =? 0)%nat && isDefined r_prev);
    [now injection Hcall as <- _|].
  match type of Hcall with
  | match ?p with _ => _ end = _ => destruct p as [pushed|e'] eqn:Epush
  end; [|now injection Hcall as <- _].
  exfalso. injection Hcall as _ Hsums.
  match type of Hsums with
  | bind ?loop _ = _ => destruct loop as [sums|e'] eqn:Eloop
  end; [discriminate|].
  cbn [bind] in Hsums. injection Hsums as ->.
  apply for_loop_err in Eloop.
  destruct Eloop as (vector & [s0 s1] & _ & Hbody).
  cbv beta iota zeta in Hbody. cbn [app] in Hbody.
  destruct (getMultilinearLDE (SumCheck.Prover.this_g pushed)
              (SumCheck.Prover.this_r pushed ++ Field 0 :: vector))
    as [a|e0] eqn:E0.
  - cbn [bind] in Hbody.
    destruct (getMultilinearLDE (SumCheck.Prover.this_g pushed)
                (SumCheck.Prover.this_r pushed ++ Field 1 :: vector))
      as [b|e1] eqn:E1; [discriminate|].
    cbn [bind] in Hbody. injection Hbody as ->.
    apply getMultilinearLDE_error in E1.
    destruct E1 as [->| ->], Hkind as [?|[?|?]]; discriminate.
  - cbn [bind] in Hbody. injection Hbody as ->.
    apply getMultilinearLDE_error in E0.
    destruct E0 as [->| ->], Hkind as [?|[?|?]]; discriminate.
Qed.

Lemma sumcheck_prover_errors_before_mutation_witness :
  fst (SumCheck.Prover.getRoundJPolynomial
         (SumCheck.Prover.mk 2 [Field 1; Field 2; Field 3] []) (Some (Field 5)))
  = SumCheck.Prover.mk 2 [Field 1; Field 2; Field 3] [].
Proof.
  apply (sumcheck_prover_errors_before_mutation
           (SumCheck.Prover.mk 2 [Field 1; Field 2; Field 3] []) _
           (Some (Field 5)) UnexpectedChallengeError).
  - reflexivity.
  - right. left. reflexivity.
Defined.

End Siblings.

(* ================================================================== *)
(** * The naive and the memoized evaluator on messages of two or more
      characters *)

Section Equivalence.
Import Util MessageExtensions.

Lemma Field_one_minus (w : Z) : Field (1 - w) = sub (Field 1) (Field w).
Proof. field_to_Z. reflexivity. Qed.

Lemma basisAt_from (w2 w1 : list Z) (x1 x2 : list F) (acc : F) :
  length w1 = length x1 -> length w2 = length x2 ->
  for_loop (seq (length w1) (length w2))
    (fun i accumulator =>
       x_i <- at_index (x1 ++ x2) i ;;
       w_i <- at_index (w1 ++ w2) i ;;
       Ok (mul accumulator
             (add (mul x_i (Field w_i))
                  (mul (sub (Field 1) x_i) (Field (1 - w_i))))))
    acc
  = Ok (mul acc (basisR (map (fun e => Field e) w2) x2)).
Proof.
  revert w1 x1 x2 acc.
  induction w2 as [|w0 w2 IH]; intros w1 x1 x2 acc H1 H2.
  - cbn [length seq for_loop map basisR]. f_equal. ring.
  - destruct x2 as [|x0 x2]; [discriminate|].
    cbn [length seq for_loop].
    rewrite (at_index_middle x1 x0 x2 (length w1)) by assumption.
    rewrite (at_index_middle w1 w0 w2 (length w1)) by reflexivity.
    cbn [bind].
    replace (w1 ++ w0 :: w2) with ((w1 ++ [w0]) ++ w2)
      by (now rewrite <- app_assoc).
    replace (x1 ++ x0 :: x2) with ((x1 ++ [x0]) ++ x2)
      by (now rewrite <- app_assoc).
    replace (S (length w1)) with (length (w1 ++ [w0]))
      by (rewrite length_app; simpl; lia).
    rewrite IH.
    + cbn [map basisR]. unfold chi. rewrite Field_one_minus. f_equal. ring.
    + rewrite !length_app. simpl. lia.
    + simpl in H2. lia.
Qed.

(** The basis value computed by the naive evaluator for vertex [i]. *)
Lemma basisAt_spec (d i : nat) (x : list F) :
  length x = d -> (i < 2 ^ d)%nat ->
  getMultilinearLagrangeBasisAt (toBinary (Z.of_nat i) d)
    (generateBinaryVertices d) x
  = Ok (basisR (vertexF d i) x).
Proof.
  intros Hx Hi. unfold getMultilinearLagrangeBasisAt, generateBinaryVertices.
  rewrite at_index_map_seq by (pose proof (Nat.pow_nonzero 2 d); lia).
  cbn [bind]. rewrite !length_toBinary, Hx, Nat.eqb_refl. cbn [negb orb].
  pose proof (basisAt_from (toBinary (Z.of_nat i) d) [] [] x (Field 1) eq_refl)
    as E.
  rewrite length_toBinary in E. cbn [length app] in E.
  rewrite E by (now symmetry). unfold vertexF. f_equal. ring.
Qed.

(** *** The table built by [memoizedLagrangeBasis] *)

Lemma cube_S (k : nat) :
  cube (S k) = map (cons (Field 0)) (cube k) ++ map (cons (Field 1)) (cube k).
Proof. reflexivity. Qed.

Lemma flat_map_snoc_cons (a : F) (l : list (list F)) :
  flat_map (fun w => [w ++ [Field 0]; w ++ [Field 1]]) (map (cons a) l)
  = map (cons a) (flat_map (fun w => [w ++ [Field 0]; w ++ [Field 1]]) l).
Proof.
  induction l as [|w l IH]; [reflexivity|].
  cbn [flat_map map app]. now rewrite IH.
Qed.

Lemma cube_snoc (k : nat) :
  cube (S k)
  = flat_map (fun w => [w ++ [Field 0]; w ++ [Field 1]]) (cube k).
Proof.
  induction k as [|k IH]; [reflexivity|].
  rewrite (cube_S (S k)). rewrite IH at 1 2.
  rewrite <- !flat_map_snoc_cons, <- flat_map_app.
  now rewrite <- cube_S.
Qed.

Lemma basisR_snoc (w x : list F) (b c : F) :
  length w = length x ->
  basisR (w ++ [b]) (x ++ [c]) = mul (basisR w x) (chi b c).
Proof.
  revert x. induction w as [|w0 w IH]; intros [|x0 x] H; try discriminate.
  - cbn [app basisR]. ring.
  - cbn [app basisR]. rewrite IH by (simpl in H; lia). ring.
Qed.

Lemma expand_from (x_i : F) (read : result F) (p2 p1 tmp : list F) :
  read = Ok x_i ->
  for_loop (seq (length p1) (length p2))
    (fun j tmp =>
       prev_j <- at_index (p1 ++ p2) j ;;
       x_i <- read ;;
       Ok (tmp ++ [mul prev_j (sub (Field 1) x_i); mul prev_j x_i]))
    tmp
  = Ok (tmp ++ flat_map (fun e => [mul e (sub (Field 1) x_i); mul e x_i]) p2).
Proof.
  intros ->. revert p1 tmp.
  induction p2 as [|e p2 IH]; intros p1 tmp.
  - cbn [length seq for_loop flat_map]. now rewrite app_nil_r.
  - cbn [length seq for_loop].
    rewrite (at_index_middle p1 e p2 (length p1)) by reflexivity.
    cbn [bind].
    replace (p1 ++ e :: p2) with ((p1 ++ [e]) ++ p2)
      by (now rewrite <- app_assoc).
    replace (S (length p1)) with (length (p1 ++ [e]))
      by (rewrite length_app; simpl; lia).
    rewrite IH. cbn [flat_map]. now rewrite <- app_assoc.
Qed.

Lemma memoized_from (x2 x1 : list F) :
  (1 <= length x1)%nat ->
  for_loop (seq (length x1) (length x2))
    (fun i prevRound =>
       for_loop (seq 0 (length prevRound))
         (fun j tmp =>
            prev_j <- at_index prevRound j ;;
            x_i <- at_index (x1 ++ x2) i ;;
            Ok (tmp ++ [mul prev_j (sub (Field 1) x_i); mul prev_j x_i]))
         [])
    (map (fun w => basisR w x1) (cube (length x1)))
  = Ok (map (fun w => basisR w (x1 ++ x2)) (cube (length x1 + length x2))).
Proof.
  revert x1. induction x2 as [|c x2 IH]; intros x1 H1.
  - cbn [length seq for_loop]. now rewrite app_nil_r, Nat.add_0_r.
  - cbn [length seq for_loop].
    pose proof (expand_from c (at_index (x1 ++ c :: x2) (length x1))
                  (map (fun w => basisR w x1) (cube (length x1))) [] []
                  (at_index_middle x1 c x2 (length x1) eq_refl)) as E.
    cbn [length app] in E. rewrite E. clear E.
    replace (x1 ++ c :: x2) with ((x1 ++ [c]) ++ x2)
      by (now rewrite <- app_assoc).
    replace (S (length x1)) with (length (x1 ++ [c]))
      by (rewrite length_app; simpl; lia).
    replace (flat_map (fun e => [mul e (sub (Field 1) c); mul e c])
               (map (fun w => basisR w x1) (cube (length x1))))
      with (map (fun w => basisR w (x1 ++ [c])) (cube (length (x1 ++ [c])))).
    + rewrite IH by (rewrite length_app; simpl; lia).
      f_equal. f_equal. f_equal. rewrite length_app. simpl. lia.
    + replace (length (x1 ++ [c])) with (S (length x1))
        by (rewrite length_app; simpl; lia).
      rewrite cube_snoc.
      pose proof (cube_dimension (length x1)) as Hdim.
      induction (cube (length x1)) as [|w l IHl]; [reflexivity|].
      cbn [flat_map map app].
      rewrite IHl by (intros; apply Hdim; now right).
      rewrite !basisR_snoc by (apply Hdim; now left).
      unfold chi. f_equal; [ring|]. f_equal. ring.
Qed.

Lemma memoizedLagrangeBasis_spec (x : list F) :
  (1 <= length x)%nat ->
  memoizedLagrangeBasis x = Ok (map (fun w => basisR w x) (cube (length x))).
Proof.
  intros Hx. destruct x as [|x0 x2]; [simpl in Hx; lia|].
  unfold memoizedLagrangeBasis.
  change (at_index (x0 :: x2) 0) with (Ok x0). cbn [bind].
  replace (length (x0 :: x2) - 1)%nat with (length x2) by (simpl; lia).
  pose proof (memoized_from x2 [x0] (le_n 1)) as E.
  cbn [length app Nat.add] in E.
  replace (map (fun w => basisR w [x0]) (cube 1))
    with [sub (Field 1) x0; x0] in E.
  - exact E.
  - cbn [cube map app basisR]. unfold chi. f_equal; [ring|]. f_equal. ring.
Qed.

Lemma mapM_ok_nth {A B : Type} (f : A -> result B) (l : list A) :
  forall ys, mapM f l = Ok ys ->
  length ys = length l
  /\ forall i d d', (i < length l)%nat -> f (nth i l d) = Ok (nth i ys d').
Proof.
  induction l as [|a l IH]; intros ys H.
  - injection H as <-. split; [reflexivity|]. intros i d d' Hi. simpl in Hi. lia.
  - cbn [mapM] in H. destruct (f a) as [y|e] eqn:Ea; [|discriminate].
    cbn [bind] in H. destruct (mapM f l) as [ys'|e]; [|discriminate].
    cbn [bind] in H. injection H as <-.
    destruct (IH ys' eq_refl) as [Hlen Hnth].
    split; [simpl; now rewrite Hlen|].
    intros [|i] d d' Hi; [exact Ea|].
    cbn [nth]. apply Hnth. simpl in Hi. lia.
Qed.

Lemma mapM_err_split {A B : Type} (f : A -> result B) (l : list A) (e : error) :
  mapM f l = Err e ->
  exists l1 k l2,
    l = l1 ++ k :: l2 /\ (forall i, In i l1 -> exists y, f i = Ok y)
    /\ f k = Err e.
Proof.
  induction l as [|a l IH]; intros H; [discriminate|].
  cbn [mapM] in H. destruct (f a) as [y|e'] eqn:Ea.
  - cbn [bind] in H. destruct (mapM f l) as [ys|e'] eqn:El; [discriminate|].
    cbn [bind] in H. injection H as ->.
    destruct (IH eq_refl) as (l1 & k & l2 & -> & Hok & Hk).
    exists (a :: l1), k, l2. split; [reflexivity|]. split; [|assumption].
    intros i [<-|Hin]; [now exists y | now apply Hok].
  - cbn [bind] in H. injection H as ->.
    exists [], a, l. split; [reflexivity|]. split; [intros i []|assumption].
Qed.

(** For a message of two or more characters (an array, so at most [2^32]
    of them) and a point of the right dimension, the naive and the memoized
    evaluator return the same result: the same field element, or both the
    error of the first character that is not ASCII. *)
Theorem naive_memoized_agree (msg : message) (r : list F) :
  (2 <= length msg)%nat -> Z.of_nat (length msg) <= 2 ^ 32 ->
  length r = ceilLog2 (length msg) ->
  getMultilinearLagrange msg r = getMemoizedMultilinearLagrange msg r.
Proof.
  intros Hn Hbound Hr.
  assert (Hd1 : (1 <= ceilLog2 (length msg))%nat)
    by (unfold ceilLog2; apply Nat.log2_up_pos; lia).
  assert (Hd32 : (ceilLog2 (length msg) <= 32)%nat)
    by (apply ceilLog2_bound; lia).
  unfold getMultilinearLagrange, getMemoizedMultilinearLagrange, getRequiredBits.
  destruct (Nat.eqb_spec (length msg) 0) as [E|_]; [lia|].
  destruct (Nat.ltb_spec (length msg) 1) as [E|_]; [lia|].
  cbn [bind]. rewrite Hr, Nat.eqb_refl. cbn [negb].
  rewrite length_generateBinaryVertices.
  set (d := ceilLog2 (length msg)) in *.
  assert (Hbody : forall i acc c, (i < 2 ^ d)%nat ->
            coefficientAt msg i = Ok c ->
            (coefficient <- coefficientAt msg i ;;
             w <- at_index (generateBinaryVertices d) i ;;
             lagrangeBasisAtInput <-
               getMultilinearLagrangeBasisAt w (generateBinaryVertices d) r ;;
             Ok (add acc (mul coefficient lagrangeBasisAtInput)))
            = Ok (add acc (mul c (basisR (vertexF d i) r)))).
  { intros i acc c Hi Hc. rewrite Hc. cbn [bind].
    unfold generateBinaryVertices at 1. rewrite at_index_map_seq by assumption.
    cbn [bind]. rewrite basisAt_spec by assumption. reflexivity. }
  destruct (mapM (fun index => coefficientAt msg index) (seq 0 (2 ^ d)))
    as [v1|e] eqn:Ev1.
  - apply mapM_ok_nth in Ev1. destruct Ev1 as [Hlen Hnth].
    rewrite length_seq in Hlen, Hnth.
    cbn [bind]. rewrite memoizedLagrangeBasis_spec by lia. cbn [bind].
    rewrite Hr. fold d. rewrite <- bits_cube, map_map.
    rewrite (for_loop_sum _ _
               (fun i => mul (nth i v1 (Field 0)) (basisR (vertexF d i) r))).
    + rewrite (for_loop_sum _ _
               (fun i => mul (nth i v1 (Field 0)) (basisR (vertexF d i) r)));
        [reflexivity|].
      intros i a Hin. apply in_seq in Hin.
      rewrite (at_index_lt v1 i (Field 0)) by lia.
      rewrite at_index_map_seq by lia. cbn [bind].
      now rewrite vertexF_bits by assumption.
    + intros i a Hin. apply in_seq in Hin. apply Hbody; [lia|].
      specialize (Hnth i 0%nat (Field 0) ltac:(lia)).
      rewrite seq_nth in Hnth by lia. exact Hnth.
  - cbn [bind]. apply mapM_err_split in Ev1.
    destruct Ev1 as (l1 & k & l2 & Hsplit & Hok & Hk).
    rewrite Hsplit, for_loop_app.
    assert (Hin : forall i, In i l1 -> (i < 2 ^ d)%nat).
    { intros i Hi.
      assert (Hi' : In i (seq 0 (2 ^ d)))
        by (rewrite Hsplit; apply in_or_app; now left).
      apply in_seq in Hi'. lia. }
    destruct (for_loop_total l1
                (fun i accumulator =>
                   coefficient <- coefficientAt msg i ;;
                   w <- at_index (generateBinaryVertices d) i ;;
                   lagrangeBasisAtInput <-
                     getMultilinearLagrangeBasisAt w (generateBinaryVertices d) r ;;
                   Ok (add accumulator (mul coefficient lagrangeBasisAtInput))))
      with (acc := Field 0) as [out Hout].
    { intros i acc Hi. destruct (Hok i Hi) as [c Hc].
      eexists. apply Hbody; [now apply Hin | exact Hc]. }
    rewrite Hout. cbn [bind for_loop]. rewrite Hk. reflexivity.
Qed.

Lemma naive_memoized_agree_witness :
  getMultilinearLagrange [104; 105; 33] [Field 3; Field 5]
  = getMemoizedMultilinearLagrange [104; 105; 33] [Field 3; Field 5].
Proof.
  apply (naive_memoized_agree [104; 105; 33] [Field 3; Field 5]).
  - simpl. lia.
  - simpl. lia.
  - reflexivity.
Defined.

End Equivalence.

(* ================================================================== *)
(** * Boundary cases and the scenario of three variables *)

Section Scenarios.
Import Util UnivariateLagrange MultilinearLagrange MessageExtensions.

(** An empty table or message is refused by every evaluator. *)
Theorem empty_input_rejected (r : F) (x : list F) :
  getUnivariateLDE [] r = Err EmptyInputError
  /\ getMultilinearLDE [] x = Err EmptyInputError
  /\ getMultilinearLagrange [] x = Err EmptyInputError
  /\ getMemoizedMultilinearLagrange [] x = Err EmptyInputError.
Proof. repeat split. Qed.

(** The oracle query is refused until [v] rounds have been verified. *)
Theorem oracle_query_needs_all_rounds
  (verifier : SumCheckIterative.Verifier.t) (g : list F) :
  length (SumCheckIterative.Verifier.this_r verifier)
  <> SumCheckIterative.Verifier.this_v verifier ->
  SumCheckIterative.Verifier.verifyOracleQueryOfG verifier g
  = Err IncompleteRoundsError.
Proof.
  intros H. unfold SumCheckIterative.Verifier.verifyOracleQueryOfG.
  destruct (Nat.eqb_spec (length (SumCheckIterative.Verifier.this_r verifier))
              (SumCheckIterative.Verifier.this_v verifier)) as [E|_];
    [contradiction | reflexivity].
Qed.

Lemma oracle_query_needs_all_rounds_witness :
  SumCheckIterative.Verifier.verifyOracleQueryOfG
    (SumCheckIterative.Verifier.mk 3 (Field 36) [[Field 16; Field 20]] [Field 7])
    [Field 1; Field 2; Field 3; Field 4; Field 5; Field 6; Field 7; Field 8]
  = Err IncompleteRoundsError.
Proof.
  apply (oracle_query_needs_all_rounds
           (SumCheckIterative.Verifier.mk 3 (Field 36) [[Field 16; Field 20]]
              [Field 7])).
  simpl. lia.
Defined.

(** The table [1 .. 8] on three variables: the proposed sum is 36 and, for
    any challenges, the three rounds pass, the verifier ends with three
    challenges and the oracle query is accepted. *)
Theorem scenario_three_variables (random : nat -> F) :
  let g := [Field 1; Field 2; Field 3; Field 4;
            Field 5; Field 6; Field 7; Field 8] in
  SumCheckProver.Prover.constructor g 3 = Ok (SumCheckProver.Prover.mk 3 g [])
  /\ SumCheckProver.Prover.getProposedSum (SumCheckProver.Prover.mk 3 g [])
     = Ok (Field 36)
  /\ exists prover verifier,
       SumCheckIterative.rounds random 3 1 (SumCheckProver.Prover.mk 3 g [])
         (SumCheckIterative.Verifier.constructor (Field 36) 3) None
       = Ok (prover, verifier)
       /\ length (SumCheckIterative.Verifier.this_r verifier) = 3%nat
       /\ SumCheckIterative.Verifier.verifyOracleQueryOfG verifier g = Ok tt.
Proof.
  intros g. split; [reflexivity|]. split; [vm_compute; reflexivity|].
  assert (Hne : g <> []) by discriminate.
  assert (Hdim : ceilLog2 (length g) = 3%nat) by reflexivity.
  assert (Hsum : hsum g [] 3 = Field 36).
  { apply Ok_inj.
    rewrite <- (prover_getProposedSum_hsum g 3 Hne Hdim) by lia.
    vm_compute. reflexivity. }
  destruct (honest_run_trace g 3 Hne Hdim random ltac:(lia))
    as (prover & verifier & Hrun & _ & Hlen & Hquery).
  rewrite Hsum in Hrun. exists prover, verifier.
  exact (conj Hrun (conj Hlen Hquery)).
Qed.

End Scenarios.

(* ================================================================== *)
(** * The evaluators on messages *)

Section Messages.
Import Util UnivariateLagrange MultilinearLagrange MessageExtensions.

Lemma asciiToNumber_ok (char : Z) : isAscii char -> asciiToNumber char = Ok char.
Proof.
  intros [H0 H1]. unfold asciiToNumber.
  destruct (Z.ltb_spec char 0); [lia|].
  destruct (Z.ltb_spec 127 char); [lia|]. reflexivity.
Qed.

Lemma asciiToNumber_err (char : Z) :
  ~ isAscii char -> asciiToNumber char = Err InvalidAsciiError.
Proof.
  intros H. unfold asciiToNumber, isAscii in *.
  destruct (Z.ltb_spec char 0); [reflexivity|].
  destruct (Z.ltb_spec 127 char); [reflexivity|]. lia.
Qed.

Lemma isAscii_dec (char : Z) : {isAscii char} + {~ isAscii char}.
Proof.
  unfold isAscii.
  destruct (Z_le_dec 0 char); [|right; lia].
  destruct (Z_le_dec char 127); [left; lia | right; lia].
Qed.

(** Reading the code of a character of an ASCII message is reading the
    table of the codes. *)
Lemma read_code (msg : message) (i : nat) :
  Forall isAscii msg ->
  (char <- at_index msg i ;; num <- asciiToNumber char ;; Ok (Field num))
  = at_index (map (fun c => Field c) msg) i.
Proof.
  intros Hmsg. unfold at_index. rewrite nth_error_map.
  destruct (nth_error msg i) as [char|] eqn:E; [|reflexivity].
  cbn [bind option_map]. apply nth_error_In in E.
  rewrite Forall_forall in Hmsg.
  rewrite asciiToNumber_ok by (now apply Hmsg). reflexivity.
Qed.

Lemma coefficientAt_padded (msg : message) (i : nat) :
  Forall isAscii msg ->
  coefficientAt msg i = Ok (paddedValue (map (fun c => Field c) msg) i).
Proof.
  intros Hmsg. unfold coefficientAt, paddedValue. rewrite length_map.
  destruct (Nat.leb_spec (length msg) i) as [Hi|Hi];
    destruct (Nat.ltb_spec i (length msg)); try lia; [reflexivity|].
  rewrite read_code by assumption.
  apply at_index_lt. now rewrite length_map.
Qed.

(** On an ASCII message the univariate evaluator is [getUnivariateLDE] on the
    table of the character codes. *)
Lemma univariate_codes (msg : message) (r : F) :
  Forall isAscii msg ->
  MessageUnivariate.getUnivariateLagrange msg r
  = getUnivariateLDE (map (fun c => Field c) msg) r.
Proof.
  intros Hmsg.
  unfold MessageUnivariate.getUnivariateLagrange, getUnivariateLDE.
  rewrite !length_map.
  destruct (length msg =? 0)%nat; [reflexivity|].
  destruct (toBoolean (lessThan r (Z.of_nat (length msg)))).
  - now apply read_code.
  - apply for_loop_ext. intros i acc _.
    rewrite <- read_code by assumption.
    destruct (at_index msg i) as [char|e]; [|reflexivity]. cbn [bind].
    destruct (asciiToNumber char) as [num|e]; reflexivity.
Qed.

(** On an ASCII message the naive multilinear evaluator is
    [getMultilinearLDE] on the table of the character codes. *)
Lemma multilinear_codes (msg : message) (x : list F) :
  Forall isAscii msg ->
  getMultilinearLagrange msg x
  = getMultilinearLDE (map (fun c => Field c) msg) x.
Proof.
  intros Hmsg. unfold getMultilinearLagrange, getMultilinearLDE.
  rewrite !length_map.
  destruct (Nat.eqb_spec (length msg) 0) as [|Hn]; [reflexivity|].
  set (d := ceilLog2 (length msg)).
  rewrite length_generateBinaryVertices.
  destruct (Nat.eqb_spec (length x) d) as [Hx|Hx]; cbn [negb].
  - apply for_loop_ext. intros i acc Hi. apply in_seq in Hi.
    rewrite coefficientAt_padded by assumption. cbn [bind].
    unfold generateBinaryVertices at 1.
    rewrite at_index_map_seq by lia. cbn [bind].
    rewrite basisAt_spec by (assumption || lia). cbn [bind].
    unfold paddedValue. rewrite length_map.
    destruct (Nat.ltb_spec i (length msg)) as [Hlt|Hge].
    + rewrite (at_index_lt _ _ (Field 0)) by (now rewrite length_map).
      cbn [bind]. fold (vertexF d i).
      rewrite getMultilinearLagrangeBasis_spec by (now rewrite length_vertexF).
      reflexivity.
    + cbn [bind]. apply f_equal. ring.
  - pose proof (Nat.pow_nonzero 2 d ltac:(lia)) as Hpow.
    destruct (2 ^ d)%nat as [|m] eqn:Em; [lia|].
    cbn [seq for_loop].
    rewrite coefficientAt_padded by assumption. cbn [bind].
    unfold generateBinaryVertices. rewrite Em.
    cbn [seq map at_index nth_error bind].
    unfold getMultilinearLagrangeBasisAt.
    cbn [at_index nth_error bind].
    rewrite !length_toBinary, Nat.eqb_refl.
    destruct (Nat.eqb_spec (length x) d); [contradiction|]. reflexivity.
Qed.

(** [getUnivariateLagrange] of [message-extensions/univariate-lagrange.ts]
    on a message whose characters are all ASCII returns, at every point, what
    [getUnivariateLDE] of [sum-check/univariate-lagrange.ts] returns on the
    table of the character codes: the same field element or the same error
    (the empty-input error for the empty message). *)
Theorem message_univariate_is_lde (msg : message) (r : F) :
  Forall isAscii msg ->
  MessageUnivariate.getUnivariateLagrange msg r
  = getUnivariateLDE (map (fun c => Field c) msg) r.
Proof. apply univariate_codes. Qed.

Lemma message_univariate_is_lde_witness :
  MessageUnivariate.getUnivariateLagrange [104; 105] (Field 5)
  = getUnivariateLDE [Field 104; Field 105] (Field 5).
Proof.
  apply (message_univariate_is_lde [104; 105] (Field 5)).
  repeat constructor; unfold isAscii; lia.
Defined.

(** The naive evaluator [getMultilinearLagrange] on a message whose
    characters are all ASCII returns, at every point of any length, what
    [getMultilinearLDE] returns on the table of the character codes: the same
    field element, or the same error (empty input, or a point whose length is
    not the number of bits of the message length). *)
Theorem message_multilinear_is_lde (msg : message) (x : list F) :
  Forall isAscii msg ->
  getMultilinearLagrange msg x
  = getMultilinearLDE (map (fun c => Field c) msg) x.
Proof. apply multilinear_codes. Qed.

Lemma message_multilinear_is_lde_witness :
  getMultilinearLagrange [104; 105; 33] [Field 3; Field 5]
  = getMultilinearLDE [Field 104; Field 105; Field 33] [Field 3; Field 5].
Proof.
  apply (message_multilinear_is_lde [104; 105; 33] [Field 3; Field 5]).
  repeat constructor; unfold isAscii; lia.
Defined.

(** Both extensions of an ASCII message return the character at an
    index: with [bits = getRequiredBits(message.length)], the univariate
    evaluator at [Field(index)] and the naive multilinear evaluator at
    [toBinary(index, bits)] both return the code of [message[index]]. *)
Theorem message_extensions_return_character
  (msg : message) (index : nat) (char : Z) :
  Forall isAscii msg -> Z.of_nat (length msg) < 2 ^ 32 ->
  nth_error msg index = Some char ->
  exists bits,
    getRequiredBits (length msg) = Ok bits
    /\ MessageUnivariate.getUnivariateLagrange msg (Field (Z.of_nat index))
       = Ok (Field char)
    /\ getMultilinearLagrange msg
         (map (fun b => Field b) (toBinary (Z.of_nat index) bits))
       = Ok (Field char).
Proof.
  intros Hmsg Hlen Hchar.
  assert (Hi : (index < length msg)%nat) by (apply nth_error_Some; congruence).
  exists (ceilLog2 (length msg)). split.
  { unfold getRequiredBits.
    destruct (Nat.ltb_spec (length msg) 1); [lia | reflexivity]. }
  split.
  - rewrite univariate_codes by assumption.
    apply getUnivariateLDE_node; [now rewrite length_map|].
    rewrite nth_error_map, Hchar. reflexivity.
  - rewrite multilinear_codes by assumption.
    assert (Hne : map (fun c => Field c) msg <> [])
      by (destruct msg; [simpl in Hi; lia | discriminate]).
    assert (Hd : (ceilLog2 (length msg) <= 32)%nat)
      by (apply ceilLog2_bound; lia).
    rewrite getMultilinearLDE_spec;
      [| assumption | now rewrite length_map, length_toBinary, length_map].
    apply f_equal. rewrite toBinary_bits by assumption.
    pose proof (mle_vertex (map (fun c => Field c) msg) index) as E.
    rewrite length_map in E. cbv zeta in E. rewrite E.
    + unfold paddedValue. rewrite length_map.
      destruct (Nat.ltb_spec index (length msg)); [|lia].
      rewrite (map_nth (fun c : Z => Field c) msg 0 index).
      apply f_equal. now apply nth_error_nth.
    + assumption.
    + unfold ceilLog2.
      apply Nat.lt_le_trans with (length msg); [assumption|].
      apply Nat.log2_log2_up_spec. lia.
Qed.

Lemma message_extensions_return_character_witness :
  exists bits,
    getRequiredBits 3 = Ok bits
    /\ MessageUnivariate.getUnivariateLagrange [104; 105; 33] (Field 2)
       = Ok (Field 33)
    /\ getMultilinearLagrange [104; 105; 33]
         (map (fun b => Field b) (toBinary 2 bits))
       = Ok (Field 33).
Proof.
  apply (message_extensions_return_character [104; 105; 33] 2 33).
  - repeat constructor; unfold isAscii; lia.
  - simpl. lia.
  - reflexivity.
Defined.

End Messages.

(* ================================================================== *)
(** * The Reed-Solomon evaluator *)

Section ReedSolomonCode.
Import Util MessageExtensions.

Lemma fsum_scale {I : Type} (a : F) (f : I -> F) (l : list I) :
  fsum (map (fun i => mul a (f i)) l) = mul a (fsum (map f l)).
Proof.
  induction l as [|i l IH]; cbn [map]; rewrite ?fsum_cons.
  - cbn [fsum fold_right]. ring.
  - rewrite IH. ring.
Qed.

Lemma polyEval_app (a b : list F) (r : F) :
  polyEval (a ++ b) r
  = add (polyEval a r) (mul (fpow r (length a)) (polyEval b r)).
Proof.
  induction a as [|c a IH]; cbn [app polyEval length fpow].
  - ring.
  - rewrite IH. ring.
Qed.

(** The loop of [getReedSolomon] from any position on, over ASCII
    characters: the accumulator gains the rest of the polynomial times the
    current power, which advances by the number of characters. *)
Lemma reedSolomon_loop (r : F) (msg pre : message) (acc pw : F) :
  Forall isAscii msg ->
  for_loop (seq (length pre) (length msg))
    (fun i '(result, currentPower) =>
       char <- at_index (pre ++ msg) i ;;
       num <- asciiToNumber char ;;
       let coefficient := Field num in
       let result := add result (mul coefficient currentPower) in
       let currentPower := mul currentPower r in
       Ok (result, currentPower))
    (acc, pw)
  = Ok (add acc (mul pw (polyEval (map (fun c => Field c) msg) r)),
        mul pw (fpow r (length msg))).
Proof.
  revert pre acc pw. induction msg as [|c msg IH]; intros pre acc pw Hmsg.
  - cbn [length seq for_loop map polyEval fpow]. apply f_equal.
    apply f_equal2; ring.
  - inversion Hmsg as [|? ? Hc Hrest]; subst.
    cbn [length seq for_loop].
    rewrite (at_index_middle pre c msg (length pre)) by reflexivity.
    cbn [bind]. rewrite asciiToNumber_ok by assumption. cbn [bind].
    replace (pre ++ c :: msg) with ((pre ++ [c]) ++ msg)
      by (now rewrite <- app_assoc).
    replace (S (length pre)) with (length (pre ++ [c]))
      by (rewrite length_app; simpl; lia).
    rewrite IH by assumption.
    cbn [map polyEval fpow]. apply f_equal. apply f_equal2; ring.
Qed.

(** The loop stops with the ASCII error at the first character that is
    not ASCII. *)
Lemma reedSolomon_loop_err (r : F) (msg pre : message) (state : F * F) :
  ~ Forall isAscii msg ->
  for_loop (seq (length pre) (length msg))
    (fun i '(result, currentPower) =>
       char <- at_index (pre ++ msg) i ;;
       num <- asciiToNumber char ;;
       let coefficient := Field num in
       let result := add result (mul coefficient currentPower) in
       let currentPower := mul currentPower r in
       Ok (result, currentPower))
    state
  = Err InvalidAsciiError.
Proof.
  revert pre state. induction msg as [|c msg IH]; intros pre [acc pw] Hmsg.
  - exfalso. apply Hmsg. constructor.
  - cbn [length seq for_loop].
    rewrite (at_index_middle pre c msg (length pre)) by reflexivity.
    cbn [bind]. destruct (isAscii_dec c) as [Hc|Hc].
    + rewrite asciiToNumber_ok by assumption. cbn [bind].
      replace (pre ++ c :: msg) with ((pre ++ [c]) ++ msg)
        by (now rewrite <- app_assoc).
      replace (S (length pre)) with (length (pre ++ [c]))
        by (rewrite length_app; simpl; lia).
      apply IH. intros Hrest. apply Hmsg. now constructor.
    + rewrite asciiToNumber_err by assumption. reflexivity.
Qed.

Lemma getReedSolomon_ok (msg : message) (r : F) :
  msg <> [] -> Forall isAscii msg ->
  ReedSolomon.getReedSolomon msg r
  = Ok (polyEval (map (fun c => Field c) msg) r).
Proof.
  intros Hne Hmsg. unfold ReedSolomon.getReedSolomon.
  destruct (Nat.eqb_spec (length msg) 0) as [E|_].
  { apply length_zero_iff_nil in E. contradiction. }
  pose proof (reedSolomon_loop r msg [] (Field 0) (Field 1) Hmsg) as E.
  cbn [length app] in E. rewrite E. cbn [bind fst]. apply f_equal. ring.
Qed.

(** Horner's form is the sum of the monomials. *)
Lemma polyEval_monomials (msg : message) (r : F) :
  polyEval (map (fun c => Field c) msg) r
  = fsum (map (fun i => mul (Field (nth i msg 0)) (fpow r i))
              (seq 0 (length msg))).
Proof.
  induction msg as [|c msg IH]; [reflexivity|].
  cbn [map polyEval length seq]. rewrite fsum_cons, IH.
  rewrite <- seq_shift, map_map. cbn [nth fpow].
  rewrite <- (fsum_scale r (fun i => mul (Field (nth i msg 0)) (fpow r i))).
  apply f_equal2; [ring|]. apply f_equal. apply map_ext. intros i. ring.
Qed.

Lemma getReedSolomon_not_ascii (msg : message) (r : F) :
  msg <> [] -> ~ Forall isAscii msg ->
  ReedSolomon.getReedSolomon msg r = Err InvalidAsciiError.
Proof.
  intros Hne Hmsg. unfold ReedSolomon.getReedSolomon.
  destruct (Nat.eqb_spec (length msg) 0) as [E|_].
  { apply length_zero_iff_nil in E. contradiction. }
  pose proof (reedSolomon_loop_err r msg [] (Field 0, Field 1) Hmsg) as E.
  cbn [length app] in E. rewrite E. reflexivity.
Qed.

Lemma Forall_isAscii_dec (msg : message) :
  {Forall isAscii msg} + {~ Forall isAscii msg}.
Proof. apply Forall_dec. apply isAscii_dec. Qed.

Lemma getReedSolomon_inv (msg : message) (r y : F) :
  ReedSolomon.getReedSolomon msg r = Ok y ->
  msg <> [] /\ Forall isAscii msg.
Proof.
  intros H. destruct msg as [|c msg]; [discriminate|].
  split; [discriminate|].
  destruct (Forall_isAscii_dec (c :: msg)) as [Ha|Ha]; [assumption|].
  rewrite getReedSolomon_not_ascii in H by (discriminate || assumption).
  discriminate.
Qed.

(** On a non-empty message of ASCII characters [getReedSolomon] returns
    the value at [r] of the polynomial whose coefficients are the character
    codes in message order, the sum of [c_i * r^i] over the indices [i] of
    the message. *)
Theorem reed_solomon_polynomial (msg : message) (r : F) :
  msg <> [] -> Forall isAscii msg ->
  ReedSolomon.getReedSolomon msg r
  = Ok (fsum (map (fun i => mul (Field (nth i msg 0)) (fpow r i))
                  (seq 0 (length msg)))).
Proof.
  intros Hne Hmsg. rewrite getReedSolomon_ok by assumption.
  apply f_equal. apply polyEval_monomials.
Qed.

Lemma reed_solomon_polynomial_witness :
  ReedSolomon.getReedSolomon [104; 105] (Field 3)
  = Ok (fsum (map (fun i => mul (Field (nth i [104; 105] 0)) (fpow (Field 3) i))
                  (seq 0 (length [104; 105])))).
Proof.
  apply (reed_solomon_polynomial [104; 105] (Field 3)).
  - discriminate.
  - repeat constructor; unfold isAscii; lia.
Defined.

(** The only ways [getReedSolomon] throws: the empty-input error, on
    the empty message and only there, and the ASCII error, on a non-empty
    message with a character outside [0 .. 127] and only there.  So it
    returns a value exactly on the non-empty ASCII messages. *)
Theorem reed_solomon_errors (msg : message) (r : F) (e : error) :
  ReedSolomon.getReedSolomon msg r = Err e
  <-> (msg = [] /\ e = EmptyInputError)
      \/ (msg <> [] /\ ~ Forall isAscii msg /\ e = InvalidAsciiError).
Proof.
  split.
  - intros H. destruct msg as [|c msg].
    + left. split; [reflexivity|]. cbn in H. congruence.
    + right. split; [discriminate|].
      destruct (Forall_isAscii_dec (c :: msg)) as [Ha|Ha].
      * rewrite getReedSolomon_ok in H by (discriminate || assumption).
        discriminate.
      * rewrite getReedSolomon_not_ascii in H by (discriminate || assumption).
        split; [assumption | congruence].
  - intros [[-> ->]|(Hne & Ha & ->)]; [reflexivity|].
    now apply getReedSolomon_not_ascii.
Qed.

(** The encoding of a concatenation: when [getReedSolomon] returns
    [y1] on [m1] and [y2] on [m2], on [m1 ++ m2] it returns
    [y1 + r^(length m1) * y2]. *)
Theorem reed_solomon_concatenation (m1 m2 : message) (r y1 y2 : F) :
  ReedSolomon.getReedSolomon m1 r = Ok y1 ->
  ReedSolomon.getReedSolomon m2 r = Ok y2 ->
  ReedSolomon.getReedSolomon (m1 ++ m2) r
  = Ok (add y1 (mul (fpow r (length m1)) y2)).
Proof.
  intros H1 H2.
  destruct (getReedSolomon_inv _ _ _ H1) as [Hne1 Ha1].
  destruct (getReedSolomon_inv _ _ _ H2) as [Hne2 Ha2].
  rewrite getReedSolomon_ok in H1, H2 by assumption.
  apply Ok_inj in H1. apply Ok_inj in H2. subst y1 y2.
  rewrite getReedSolomon_ok.
  - rewrite map_app, polyEval_app, length_map. reflexivity.
  - destruct m1; [contradiction | discriminate].
  - apply Forall_app. now split.
Qed.

Lemma reed_solomon_concatenation_witness :
  ReedSolomon.getReedSolomon ([104; 105] ++ [33]) (Field 3)
  = Ok (add (Field 419) (mul (fpow (Field 3) 2) (Field 33))).
Proof.
  apply (reed_solomon_concatenation [104; 105] [33] (Field 3)); reflexivity.
Defined.

End ReedSolomonCode.

(* ================================================================== *)
(** * The helpers of [util.ts] *)

Section BinaryDigits.
Import Util.

(** ** Binary digits and the vertices of the cube *)

Lemma fromBinary_from (bits : list Z) (a : Z) :
  fold_left (fun acc b => 2 * acc + b) bits a
  = a * 2 ^ Z.of_nat (length bits) + fromBinary bits.
Proof.
  unfold fromBinary. revert a.
  induction bits as [|b bits IH]; intros a.
  - cbn [fold_left length]. change (2 ^ Z.of_nat 0) with 1. ring.
  - cbn [fold_left length]. rewrite IH, (IH (2 * 0 + b)).
    rewrite Nat2Z.inj_succ, Z.pow_succ_r by lia. ring.
Qed.

Lemma fromBinary_cons (b : Z) (bits : list Z) :
  fromBinary (b :: bits) = b * 2 ^ Z.of_nat (length bits) + fromBinary bits.
Proof.
  unfold fromBinary at 1. cbn [fold_left]. rewrite fromBinary_from.
  ring.
Qed.

Lemma length_bitsMSB (d : nat) (num : Z) : length (bitsMSB d num) = d.
Proof. unfold bitsMSB. now rewrite length_rev, length_map, length_seq. Qed.

Lemma fromBinary_bitsMSB (d : nat) (num : Z) :
  fromBinary (bitsMSB d num) = num mod 2 ^ Z.of_nat d.
Proof.
  induction d as [|d IH].
  - cbn. now rewrite Z.mod_1_r.
  - rewrite bitsMSB_succ, fromBinary_cons, IH, length_bitsMSB.
    rewrite Nat2Z.inj_succ, Z.pow_succ_r by lia.
    rewrite (Z.mul_comm 2), Z.rem_mul_r by lia.
    rewrite Z.testbit_spec' by lia. ring.
Qed.

Lemma bitsMSB_isBit (d : nat) (num : Z) :
  Forall (fun b => b = 0 \/ b = 1) (bitsMSB d num).
Proof.
  unfold bitsMSB. apply Forall_rev. apply Forall_map. apply Forall_forall.
  intros index _.
  destruct (Z.testbit num (Z.of_nat index)); [now right | now left].
Qed.

(** Up to 32 digits [toBinary(num, bitLength)] is the binary numeral of
    [num] modulo [2^bitLength], most significant digit first: it has
    [bitLength] entries, each 0 or 1, and read as a numeral from the left
    they spell [num mod 2^bitLength] (for any integer [num], negative ones
    included). *)
Theorem toBinary_round_trip (num : Z) (bitLength : nat) :
  (bitLength <= 32)%nat ->
  length (toBinary num bitLength) = bitLength
  /\ Forall (fun b => b = 0 \/ b = 1) (toBinary num bitLength)
  /\ fromBinary (toBinary num bitLength) = num mod 2 ^ Z.of_nat bitLength.
Proof.
  intros Hd. rewrite toBinary_bits by assumption.
  split; [apply length_bitsMSB|].
  split; [apply bitsMSB_isBit | apply fromBinary_bitsMSB].
Qed.

Lemma toBinary_round_trip_witness :
  length (toBinary 5 3) = 3%nat
  /\ Forall (fun b => b = 0 \/ b = 1) (toBinary 5 3)
  /\ fromBinary (toBinary 5 3) = 5 mod 2 ^ Z.of_nat 3.
Proof. apply (toBinary_round_trip 5 3). lia. Defined.

(** Past 32 digits [toBinary] does not pad with zeros: the shift count of
    [>>] is taken modulo 32, so the digits asked for beyond the 32nd repeat
    the low digits of the number.  [toBinary(num, 32 + bitLength)] is
    [toBinary(num, bitLength)] followed by [toBinary(num, 32)]. *)
Theorem toBinary_repeats_after_32_bits (num : Z) (bitLength : nat) :
  toBinary num (32 + bitLength) = toBinary num bitLength ++ toBinary num 32.
Proof.
  unfold toBinary. rewrite seq_app, map_app, rev_app_distr. f_equal.
  f_equal. rewrite Nat.add_0_l.
  replace (seq 32 bitLength) with (seq (32 + 0) bitLength) by reflexivity.
  rewrite seq_add_map, map_map. apply map_ext. intros index.
  unfold shiftRight.
  replace (Z.of_nat (32 + index) mod 32) with (Z.of_nat index mod 32);
    [reflexivity|].
  rewrite Nat2Z.inj_add. change (Z.of_nat 32) with (1 * 32).
  rewrite Z.add_comm. symmetry. apply Z_mod_plus_full.
Qed.

Lemma bitsZ_cube (d : nat) :
  map (fun i => bitsMSB d (Z.of_nat i)) (seq 0 (2 ^ d)) = cubeZ d.
Proof.
  induction d as [|d IH]; [reflexivity|].
  cbn [cubeZ]. rewrite <- IH, !map_map.
  replace (2 ^ S d)%nat with (2 ^ d + 2 ^ d)%nat by (cbn [Nat.pow]; lia).
  rewrite seq_app, map_app. f_equal.
  - apply map_ext_in. intros i Hin. apply in_seq in Hin.
    rewrite bitsMSB_low by lia. reflexivity.
  - rewrite Nat.add_0_l.
    replace (seq (2 ^ d) (2 ^ d)) with (seq (2 ^ d + 0) (2 ^ d))
      by (now rewrite Nat.add_0_r).
    rewrite seq_add_map, map_map.
    apply map_ext_in. intros i Hin. apply in_seq in Hin.
    rewrite bitsMSB_high by lia. reflexivity.
Qed.

Lemma generateBinaryVertices_cubeZ (d : nat) :
  (d <= 32)%nat -> generateBinaryVertices d = cubeZ d.
Proof.
  intros Hd. unfold generateBinaryVertices. rewrite <- bitsZ_cube.
  apply map_ext. intros i. now apply toBinary_bits.
Qed.

Lemma In_cubeZ (d : nat) (w : list Z) :
  In w (cubeZ d) <-> length w = d /\ Forall (fun b => b = 0 \/ b = 1) w.
Proof.
  revert w. induction d as [|d IH]; intros w.
  - cbn [cubeZ In]. split.
    + intros [<-|[]]. split; [reflexivity | constructor].
    + intros [Hlen _]. left. symmetry. now apply length_zero_iff_nil.
  - cbn [cubeZ]. rewrite in_app_iff, !in_map_iff. split.
    + intros [(w' & <- & Hw')|(w' & <- & Hw')]; apply IH in Hw';
        destruct Hw' as [Hlen Hbits]; (split; [cbn; lia|]);
        constructor; auto.
    + intros [Hlen Hbits]. destruct w as [|b w]; [discriminate|].
      inversion Hbits as [|? ? Hb Hrest]; subst.
      assert (Hw : In w (cubeZ d)) by (apply IH; split; [cbn in Hlen; lia | assumption]).
      destruct Hb as [->| ->]; [left | right]; now exists w.
Qed.

Lemma NoDup_map_cons {A : Type} (b : A) (l : list (list A)) :
  NoDup l -> NoDup (map (cons b) l).
Proof.
  induction 1 as [|w l Hw Hl IH]; cbn [map]; constructor; [|assumption].
  intros Hin. apply in_map_iff in Hin. destruct Hin as (w' & E & Hw').
  injection E as ->. contradiction.
Qed.

Lemma NoDup_cubeZ (d : nat) : NoDup (cubeZ d).
Proof.
  induction d as [|d IH].
  - cbn. constructor; [intros [] | constructor].
  - cbn [cubeZ]. apply NoDup_app.
    + now apply NoDup_map_cons.
    + now apply NoDup_map_cons.
    + intros w H0 H1. apply in_map_iff in H0. apply in_map_iff in H1.
      destruct H0 as (a & <- & _). destruct H1 as (b & E & _). discriminate.
Qed.

(** For a dimension of at most 32, [generateBinaryVertices(d)] lists every
    vertex of the cube once and in numeric order: no vertex is repeated, a
    list is in the result exactly when it has [d] entries that are all 0 or 1,
    and the vertex at position [i] spells the number [i]. *)
Theorem generateBinaryVertices_enumerates (d : nat) :
  (d <= 32)%nat ->
  NoDup (generateBinaryVertices d)
  /\ (forall w, In w (generateBinaryVertices d)
                <-> length w = d /\ Forall (fun b => b = 0 \/ b = 1) w)
  /\ (forall i w, nth_error (generateBinaryVertices d) i = Some w ->
                  fromBinary w = Z.of_nat i).
Proof.
  intros Hd. split; [|split].
  - rewrite generateBinaryVertices_cubeZ by assumption. apply NoDup_cubeZ.
  - intros w. rewrite generateBinaryVertices_cubeZ by assumption.
    apply In_cubeZ.
  - intros i w Hw.
    assert (Hi : (i < 2 ^ d)%nat).
    { rewrite <- (length_generateBinaryVertices d).
      apply nth_error_Some. congruence. }
    unfold generateBinaryVertices in Hw.
    rewrite nth_error_map, nth_error_seq in Hw.
    destruct (Nat.ltb_spec i (2 ^ d)) as [_|]; [|lia].
    cbn in Hw. injection Hw as <-.
    rewrite toBinary_bits, fromBinary_bitsMSB by assumption.
    apply Z.mod_small. rewrite <- pow2_nat_Z. lia.
Qed.

Lemma generateBinaryVertices_enumerates_witness :
  NoDup (generateBinaryVertices 2)
  /\ (forall w, In w (generateBinaryVertices 2)
                <-> length w = 2%nat /\ Forall (fun b => b = 0 \/ b = 1) w)
  /\ (forall i w, nth_error (generateBinaryVertices 2) i = Some w ->
                  fromBinary w = Z.of_nat i).
Proof. apply (generateBinaryVertices_enumerates 2). lia. Defined.

End BinaryDigits.

(* ================================================================== *)
(** * The extensions of a table *)

Section Extensions.
Import Util UnivariateLagrange MultilinearLagrange.

(** A call of [getMultilinearLDE] that returns has a non-empty table, a
    point of the table's dimension, and returns the sum of the table entries
    times the basis polynomials. *)
Lemma getMultilinearLDE_inv (values r : list F) (y : F) :
  getMultilinearLDE values r = Ok y ->
  values <> [] /\ length r = ceilLog2 (length values) /\ y = mle values r.
Proof.
  intros H. destruct values as [|a values]; [discriminate|].
  assert (Hne : a :: values <> []) by discriminate.
  destruct (Nat.eq_dec (length r) (ceilLog2 (length (a :: values)))) as [E|E].
  - rewrite getMultilinearLDE_spec in H by assumption.
    apply Ok_inj in H. auto.
  - rewrite getMultilinearLDE_dimension in H by assumption. discriminate.
Qed.

(** The only ways [getMultilinearLDE] throws: the empty-input error, on
    the empty table and only there, and the dimension error, on a non-empty
    table with a point whose length is not [ceil(log2(values.length))] and
    only there.  Nothing inside the loop throws, so every other call
    returns a value. *)
Theorem multilinear_lde_errors (values r : list F) (e : error) :
  getMultilinearLDE values r = Err e
  <-> (values = [] /\ e = EmptyInputError)
      \/ (values <> [] /\ length r <> ceilLog2 (length values)
          /\ e = DimensionMismatchError).
Proof.
  split.
  - intros H. destruct values as [|a values].
    + left. split; [reflexivity|]. cbn in H. congruence.
    + right. split; [discriminate|].
      assert (Hne : a :: values <> []) by discriminate.
      destruct (Nat.eq_dec (length r) (ceilLog2 (length (a :: values))))
        as [E|E].
      * rewrite getMultilinearLDE_spec in H by assumption. discriminate.
      * rewrite getMultilinearLDE_dimension in H by assumption.
        split; [assumption | congruence].
  - intros [[-> ->]|(Hne & Hr & ->)]; [reflexivity|].
    now apply getMultilinearLDE_dimension.
Qed.

(** The extension computed by [getMultilinearLDE] has degree at most one
    in each variable: with the other coordinates fixed, its value at [c] in
    one coordinate is [(1 - c) * y0 + c * y1], where [y0] and [y1] are the
    values the function returns with 0 and 1 in that coordinate. *)
Theorem multilinear_lde_affine (values r1 r2 : list F) (c y0 y1 : F) :
  getMultilinearLDE values (r1 ++ Field 0 :: r2) = Ok y0 ->
  getMultilinearLDE values (r1 ++ Field 1 :: r2) = Ok y1 ->
  getMultilinearLDE values (r1 ++ c :: r2)
  = Ok (add (mul (sub (Field 1) c) y0) (mul c y1)).
Proof.
  intros H0 H1.
  apply getMultilinearLDE_inv in H0. destruct H0 as (Hne & Hlen & ->).
  apply getMultilinearLDE_inv in H1. destruct H1 as (_ & _ & ->).
  rewrite getMultilinearLDE_spec.
  - apply f_equal. apply mle_affine.
  - assumption.
  - rewrite <- Hlen, !length_app. reflexivity.
Qed.

Lemma multilinear_lde_affine_witness :
  getMultilinearLDE [Field 1; Field 2; Field 3; Field 4] ([] ++ Field 5 :: [Field 7])
  = Ok (add (mul (sub (Field 1) (Field 5)) (Field 8)) (mul (Field 5) (Field 10))).
Proof.
  apply (multilinear_lde_affine [Field 1; Field 2; Field 3; Field 4] []
           [Field 7] (Field 5)); reflexivity.
Defined.

Lemma ceilLog2_padding (n k : nat) :
  (0 < n)%nat -> (n + k <= 2 ^ ceilLog2 n)%nat -> ceilLog2 (n + k) = ceilLog2 n.
Proof.
  intros Hn Hk. unfold ceilLog2 in *. apply Nat.le_antisymm.
  - apply Nat.le_trans with (Nat.log2_up (2 ^ Nat.log2_up n)).
    + now apply Nat.log2_up_le_mono.
    + rewrite Nat.log2_up_pow2 by lia. reflexivity.
  - apply Nat.log2_up_le_mono. lia.
Qed.

(** A table whose length is not a power of two is read as padded with
    zeros: appending zeros to a non-empty table, up to the next power of two,
    changes nothing in what [getMultilinearLDE] returns at any point, error
    included. *)
Theorem multilinear_lde_zero_padding (values r : list F) (k : nat) :
  values <> [] ->
  (length values + k <= 2 ^ ceilLog2 (length values))%nat ->
  getMultilinearLDE (values ++ repeat (Field 0) k) r
  = getMultilinearLDE values r.
Proof.
  intros Hne Hk.
  assert (Hn : (0 < length values)%nat)
    by (destruct values; [contradiction | simpl; lia]).
  assert (Hne' : values ++ repeat (Field 0) k <> [])
    by (destruct values; [contradiction | discriminate]).
  assert (Hd : ceilLog2 (length (values ++ repeat (Field 0) k))
               = ceilLog2 (length values))
    by (rewrite length_app, repeat_length; now apply ceilLog2_padding).
  destruct (Nat.eq_dec (length r) (ceilLog2 (length values))) as [E|E].
  - rewrite !getMultilinearLDE_spec by (assumption || congruence).
    apply f_equal. unfold mle. rewrite Hd. apply f_equal.
    apply map_ext. intros i. unfold mleTerm.
    rewrite length_app, repeat_length.
    destruct (Nat.ltb_spec i (length values)) as [Hi|Hi].
    + destruct (Nat.ltb_spec i (length values + k)); [|lia].
      now rewrite app_nth1.
    + destruct (Nat.ltb_spec i (length values + k)); [|reflexivity].
      rewrite app_nth2, nth_repeat by lia. ring.
  - rewrite !getMultilinearLDE_dimension by (assumption || congruence).
    reflexivity.
Qed.

Lemma multilinear_lde_zero_padding_witness :
  getMultilinearLDE ([Field 1; Field 2; Field 3] ++ repeat (Field 0) 1)
    [Field 5; Field 7]
  = getMultilinearLDE [Field 1; Field 2; Field 3] [Field 5; Field 7].
Proof.
  apply (multilinear_lde_zero_padding [Field 1; Field 2; Field 3]
           [Field 5; Field 7] 1).
  - discriminate.
  - simpl. lia.
Defined.

Lemma fsum_linear {I : Type} (a : F) (f fg fh : I -> F) (l : list I) :
  (forall i, In i l -> f i = add (mul a (fg i)) (fh i)) ->
  fsum (map f l) = add (mul a (fsum (map fg l))) (fsum (map fh l)).
Proof.
  induction l as [|i l IH]; intros H; cbn [map]; rewrite ?fsum_cons.
  - cbn [fsum fold_right]. ring.
  - rewrite IH by (intros; apply H; now right).
    rewrite (H i) by (now left). ring.
Qed.

(** [getMultilinearLDE] is linear in the table: for two tables of the same
    length on which it returns [yg] and [yh] at [r], on the table of the
    entries [a * g_i + h_i] it returns [a * yg + yh] at [r]. *)
Theorem multilinear_lde_linear (g h r : list F) (a yg yh : F) :
  length g = length h ->
  getMultilinearLDE g r = Ok yg ->
  getMultilinearLDE h r = Ok yh ->
  getMultilinearLDE
    (map (fun p => add (mul a (fst p)) (snd p)) (combine g h)) r
  = Ok (add (mul a yg) yh).
Proof.
  intros Hlen Hg Hh.
  apply getMultilinearLDE_inv in Hg. destruct Hg as (Hne & Hr & ->).
  apply getMultilinearLDE_inv in Hh. destruct Hh as (Hneh & _ & ->).
  assert (Hl : length (map (fun p => add (mul a (fst p)) (snd p)) (combine g h))
               = length g)
    by (rewrite length_map, length_combine; lia).
  rewrite getMultilinearLDE_spec.
  - apply f_equal. unfold mle. rewrite Hl, <- Hlen.
    apply fsum_linear. intros i _. unfold mleTerm. rewrite Hl, <- Hlen.
    destruct (Nat.ltb_spec i (length g)) as [Hi|Hi]; [|ring].
    rewrite (nth_indep _ (Field 0)
               ((fun p => add (mul a (fst p)) (snd p)) (Field 0, Field 0)))
      by lia.
    rewrite (map_nth (fun p => add (mul a (fst p)) (snd p))).
    rewrite combine_nth by assumption. cbn [fst snd]. ring.
  - destruct g; [contradiction|]. destruct h; [contradiction|]. discriminate.
  - now rewrite Hl.
Qed.

Lemma multilinear_lde_linear_witness :
  getMultilinearLDE
    (map (fun p => add (mul (Field 3) (fst p)) (snd p))
       (combine [Field 1; Field 2] [Field 10; Field 20])) [Field 5]
  = Ok (add (mul (Field 3) (Field 6)) (Field 60)).
Proof.
  apply (multilinear_lde_linear [Field 1; Field 2] [Field 10; Field 20]
           [Field 5] (Field 3)); reflexivity.
Defined.

(** The basis polynomials of the vertices of the cube sum to one at every
    point. *)
Lemma cube_basis_sum (d : nat) (r : list F) :
  length r = d -> fsum (map (fun w => basisR w r) (cube d)) = Field 1.
Proof.
  revert r. induction d as [|d IH]; intros r Hr.
  - destruct r; [|discriminate]. cbn. ring.
  - destruct r as [|r0 r]; [discriminate|].
    cbn [cube]. rewrite map_app, fsum_app, !map_map. cbn [basisR].
    rewrite !(fsum_scale _ (fun w => basisR w r)).
    rewrite IH by (simpl in Hr; lia). unfold chi. ring.
Qed.

(** The extension of a constant table is constant: on the table of [2^d]
    copies of [c] ([d] at most 32) [getMultilinearLDE] returns [c] at every
    point of [d] coordinates. *)
Theorem multilinear_lde_constant (d : nat) (c : F) (r : list F) :
  (d <= 32)%nat -> length r = d ->
  getMultilinearLDE (repeat c (2 ^ d)) r = Ok c.
Proof.
  intros Hd Hr.
  assert (Hpos : (2 ^ d <> 0)%nat) by (apply Nat.pow_nonzero; lia).
  assert (Hdim : ceilLog2 (length (repeat c (2 ^ d))) = d)
    by (rewrite repeat_length; unfold ceilLog2; apply Nat.log2_up_pow2; lia).
  rewrite getMultilinearLDE_spec.
  - apply f_equal. unfold mle. rewrite Hdim.
    rewrite (map_ext_in _
               (fun i => mul c (basisR
                  (map (fun e => Field e) (bitsMSB d (Z.of_nat i))) r))).
    + rewrite fsum_scale.
      rewrite <- (map_map (fun i => map (fun e => Field e)
                                       (bitsMSB d (Z.of_nat i)))
                          (fun w => basisR w r)).
      rewrite bits_cube, cube_basis_sum by assumption. ring.
    + intros i Hi. apply in_seq in Hi. unfold mleTerm.
      rewrite repeat_length.
      destruct (Nat.ltb_spec i (2 ^ d)); [|lia].
      rewrite nth_repeat_lt, vertexF_bits by lia. reflexivity.
  - destruct (2 ^ d)%nat; [contradiction | discriminate].
  - now rewrite Hdim.
Qed.

Lemma multilinear_lde_constant_witness :
  getMultilinearLDE (repeat (Field 9) (2 ^ 2)) [Field 5; Field 7] = Ok (Field 9).
Proof.
  apply (multilinear_lde_constant 2 (Field 9) [Field 5; Field 7]).
  - lia.
  - reflexivity.
Defined.

(** A one-entry table is a constant. *)
Lemma getUnivariateLDE_one (a r : F) : getUnivariateLDE [a] r = Ok a.
Proof.
  unfold getUnivariateLDE. cbn [length Nat.eqb].
  destruct (toBoolean (lessThan r (Z.of_nat 1))) eqn:Hfast.
  - unfold lessThan in Hfast. cbn [toBoolean] in Hfast.
    apply Z.ltb_lt in Hfast. change (Z.of_nat 1 mod ORDER) with 1 in Hfast.
    pose proof (canonical_range r) as Hr.
    replace (toBigInt r) with 0 by lia. reflexivity.
  - unfold getUnivariateLagrangeBasis.
    cbn [seq map length for_loop at_index nth_error bind Nat.eqb].
    apply f_equal. ring.
Qed.

(** The polynomials the sum-check verifiers accept have one or two entries.
    At every point [r] of the field, [getUnivariateLDE] returns [a] on the
    table [[a]] and [(1 - r) * a + r * b] on the table [[a; b]], the line
    through [(0, a)] and [(1, b)]; it never throws on them. *)
Theorem univariate_lde_short_tables (a b r : F) :
  getUnivariateLDE [a] r = Ok a
  /\ getUnivariateLDE [a; b] r = Ok (add (mul (sub (Field 1) r) a) (mul r b)).
Proof. split; [apply getUnivariateLDE_one | apply getUnivariateLDE_two]. Qed.

End Extensions.

(* ================================================================== *)
(** * The verifier of [sum-check-recursive.ts] *)

Section Recursive.
Import Util UnivariateLagrange MultilinearLagrange.
Import SumCheckRecursive.

(** A two-entry polynomial that passes both checks of [roundJ]. *)
Lemma roundJ_accepts (random : F) (verifier : Verifier.t) (s0 s1 : F) :
  add s0 s1 = Verifier.this_proposedSum verifier ->
  ((length (Verifier.this_r verifier) + 1)%nat = Verifier.this_v verifier ->
   getMultilinearLDE (Verifier.this_g verifier)
     (Verifier.this_r verifier ++ [random])
   = Ok (add (mul (sub (Field 1) random) s0) (mul random s1))) ->
  Verifier.roundJ random verifier [s0; s1]
  = (Verifier.mk (Verifier.this_v verifier)
       (Verifier.this_r verifier ++ [random]) (Verifier.this_g verifier)
       (add (mul (sub (Field 1) random) s0) (mul random s1)),
     Ok random).
Proof.
  intros Hsum Horacle. unfold Verifier.roundJ.
  cbn [Verifier.this_v Verifier.this_r Verifier.this_g
       Verifier.this_proposedSum].
  rewrite getUnivariateLDE_two, getUnivariateLDE_two_0, getUnivariateLDE_two_1.
  cbn [bind]. rewrite equals_same by assumption. cbn [negb].
  rewrite length_app. cbn [length].
  destruct (Nat.eqb_spec (length (Verifier.this_r verifier) + 1)
              (Verifier.this_v verifier)) as [E|_].
  - rewrite Horacle by assumption. cbn [bind].
    rewrite equals_same by reflexivity. reflexivity.
  - reflexivity.
Qed.

(** The honest run against the verifier of [sum-check-recursive.ts]: before
    round [j] the verifier holds the challenges drawn so far and expects the
    sum of the extension over the variables not yet fixed; all remaining
    rounds pass. *)
Lemma recursive_rounds_honest (g : list F) (v : nat) (random : nat -> F) :
  g <> [] -> ceilLog2 (length g) = v ->
  forall n j prover verifier r_j,
    (1 <= j)%nat -> (j + n = v + 1)%nat ->
    SumCheckProver.Prover.this_v prover = v ->
    SumCheckProver.Prover.this_g prover = g ->
    Verifier.this_v verifier = v ->
    Verifier.this_g verifier = g ->
    length (Verifier.this_r verifier) = (j - 1)%nat ->
    Verifier.this_proposedSum verifier
    = hsum g (Verifier.this_r verifier) (v - (j - 1)) ->
    match r_j with
    | None => j = 1%nat /\ SumCheckProver.Prover.this_r prover = []
    | Some c =>
        Verifier.this_r verifier = SumCheckProver.Prover.this_r prover ++ [c]
    end ->
    exists prover' verifier',
      rounds random n j prover verifier r_j = Ok (prover', verifier')
      /\ length (Verifier.this_r verifier') = v.
Proof.
  intros Hne Hdim.
  induction n as [|n IH];
    intros j prover verifier r_j Hj Hjn Hpv Hpg Hvv Hvg Hvr Hsum Hrj.
  - exists prover, verifier. split; [reflexivity | lia].
  - destruct prover as [pv pg pr]. destruct verifier as [vv vr vg vs].
    cbn [SumCheckProver.Prover.this_v SumCheckProver.Prover.this_g
         SumCheckProver.Prover.this_r Verifier.this_v Verifier.this_r
         Verifier.this_g Verifier.this_proposedSum] in *.
    subst pv pg vv vg.
    assert (Hsent : SumCheckProver.Prover.getRoundJPolynomial
                      (SumCheckProver.Prover.mk v g pr) r_j
                    = (SumCheckProver.Prover.mk v g vr,
                       Ok (honestPolynomial g vr v))).
    { destruct r_j as [c|].
      - subst vr. apply prover_next_round; try assumption.
        rewrite length_app in Hvr. simpl in Hvr. lia.
      - destruct Hrj as [-> ->]. destruct vr; [|discriminate].
        apply prover_first_round; try assumption. lia. }
    cbn [rounds]. rewrite Hsent. cbn [bind]. unfold honestPolynomial.
    rewrite roundJ_accepts.
    + cbn [bind]. apply IH; try reflexivity; try lia.
      * cbn [Verifier.this_r]. rewrite length_app, Hvr. cbn [length]. lia.
      * cbn [Verifier.this_r Verifier.this_proposedSum].
        replace (v - (S j - 1))%nat with (v - (length vr + 1))%nat by lia.
        now rewrite (hsum_affine g vr (random j)).
    + cbn [Verifier.this_proposedSum]. rewrite Hsum.
      replace (v - (j - 1))%nat with (S (v - (length vr + 1))) by lia.
      now rewrite hsum_split.
    + cbn [Verifier.this_v Verifier.this_r Verifier.this_g]. intros Hlast.
      rewrite getMultilinearLDE_spec
        by (try assumption; rewrite length_app; simpl; lia).
      apply f_equal.
      replace (v - (length vr + 1))%nat with 0%nat by lia.
      rewrite <- hsum_zero. apply hsum_affine.
Qed.

(** Completeness of the run of [sum-check-recursive.ts]: for every table
    [g] of dimension [v >= 1] (more than [2^(v-1)] and at most [2^v]
    entries) and every sequence of challenges, the prover of
    [sum-check-prover.ts] and the verifier whose [roundJ] checks the sum in
    every round and the oracle in round [v] complete the [v] rounds without
    an error. *)
Theorem recursive_run_accepted (g : list F) (v : nat) (random : nat -> F) :
  (1 <= v)%nat -> (2 ^ (v - 1) < length g <= 2 ^ v)%nat ->
  SumCheckRecursive.runner g v random = Ok tt.
Proof.
  intros Hv Hg.
  assert (Hne : g <> []) by (intros ->; simpl in Hg; lia).
  assert (Hdim : ceilLog2 (length g) = v) by (apply ceilLog2_unique; lia).
  unfold runner, SumCheckProver.Prover.constructor, Verifier.constructor.
  rewrite length_pow2_bound by lia. cbn [bind].
  rewrite prover_getProposedSum_hsum by assumption. cbn [bind].
  destruct (recursive_rounds_honest g v random Hne Hdim v 1
              (SumCheckProver.Prover.mk v g [])
              (Verifier.mk v [] g (hsum g [] v)) None)
    as (prover' & verifier' & Hrun & _);
    try reflexivity; try lia.
  - cbn [Verifier.this_r Verifier.this_proposedSum]. now rewrite Nat.sub_0_r.
  - split; reflexivity.
  - rewrite Hrun. reflexivity.
Qed.

Lemma recursive_run_accepted_witness :
  SumCheckRecursive.runner
    (map (fun i => Field (Z.of_nat i + 1)) (seq 0 8)) 3
    (fun j => Field (Z.of_nat j * 1000 + 7))
  = Ok tt.
Proof.
  apply (recursive_run_accepted
           (map (fun i => Field (Z.of_nat i + 1)) (seq 0 8)) 3
           (fun j => Field (Z.of_nat j * 1000 + 7))).
  - lia.
  - simpl. lia.
Defined.

End Recursive.

(* ================================================================== *)
(** * The two verifiers compared *)

Section Agreement.
Import Util UnivariateLagrange MultilinearLagrange.

Lemma equals_sym (a b : F) : toBoolean (equals a b) = toBoolean (equals b a).
Proof. unfold equals. cbn [toBoolean]. apply Z.eqb_sym. Qed.

(** A polynomial of one or two entries has a value at every point. *)
Lemma short_polynomial_total (g_j : list F) (x : F) :
  g_j <> [] -> (length g_j <= 2)%nat -> exists y, getUnivariateLDE g_j x = Ok y.
Proof.
  intros Hne Hlen. apply getUnivariateLDE_total; [assumption | lia].
Qed.

(** One round of the verifier of [sum-check-iterative.ts]. *)
Lemma iterative_round (random : F) (verifier : SumCheckIterative.Verifier.t)
  (g_j : list F) (P y0 y1 : F) :
  (length (SumCheckIterative.Verifier.this_r verifier)
   < SumCheckIterative.Verifier.this_v verifier)%nat ->
  (length g_j <= 2)%nat ->
  getUnivariateLDE g_j (Field 0) = Ok y0 ->
  getUnivariateLDE g_j (Field 1) = Ok y1 ->
  expectedSum verifier = Ok P ->
  SumCheckIterative.Verifier.verifyRoundJPolynomial random verifier g_j
  = if negb (toBoolean (equals (add y0 y1) P)) then Err SumMismatchError
    else Ok (random,
             SumCheckIterative.Verifier.mk
               (SumCheckIterative.Verifier.this_v verifier)
               (SumCheckIterative.Verifier.this_proposedSum verifier)
               (SumCheckIterative.Verifier.this_polynomials verifier ++ [g_j])
               (SumCheckIterative.Verifier.this_r verifier ++ [random])).
Proof.
  intros Hround Hlen H0 H1 Hexp.
  unfold SumCheckIterative.Verifier.verifyRoundJPolynomial.
  unfold expectedSum in Hexp.
  destruct (Nat.ltb_spec (SumCheckIterative.Verifier.this_v verifier)
              (length (SumCheckIterative.Verifier.this_r verifier) + 1))
    as [E|_]; [lia|].
  destruct (Nat.ltb_spec 2 (length g_j)) as [E|_]; [lia|].
  rewrite H0, H1. cbn [bind].
  destruct (Nat.eqb_spec
              (length (SumCheckIterative.Verifier.this_r verifier) + 1) 1)
    as [E1|E1].
  - apply Ok_inj in Hexp. rewrite Hexp.
    destruct (negb (toBoolean (equals (add y0 y1) P))); reflexivity.
  - destruct (Nat.ltb_spec 1
                (length (SumCheckIterative.Verifier.this_r verifier) + 1))
      as [_|E]; [|lia].
    rewrite Hexp. cbn [bind].
    destruct (negb (toBoolean (equals (add y0 y1) P))); reflexivity.
Qed.

(** One round of the verifier of [sum-check-recursive.ts]. *)
Lemma recursive_round (random : F) (verifier : SumCheckRecursive.Verifier.t)
  (g_j : list F) (y y0 y1 : F) :
  getUnivariateLDE g_j random = Ok y ->
  getUnivariateLDE g_j (Field 0) = Ok y0 ->
  getUnivariateLDE g_j (Field 1) = Ok y1 ->
  SumCheckRecursive.Verifier.roundJ random verifier g_j
  = let v := SumCheckRecursive.Verifier.this_v verifier in
    let r := SumCheckRecursive.Verifier.this_r verifier ++ [random] in
    let g := SumCheckRecursive.Verifier.this_g verifier in
    let pushed :=
      SumCheckRecursive.Verifier.mk v r g
        (SumCheckRecursive.Verifier.this_proposedSum verifier) in
    let advanced := (SumCheckRecursive.Verifier.mk v r g y, Ok random) in
    if negb (toBoolean (equals (add y0 y1)
               (SumCheckRecursive.Verifier.this_proposedSum verifier)))
    then (pushed, Err SumMismatchError)
    else if (length r =? v)%nat then
      match getMultilinearLDE g r with
      | Ok gOfR =>
          if negb (toBoolean (equals y gOfR))
          then (pushed, Err OracleMismatchError) else advanced
      | Err e => (pushed, Err e)
      end
    else advanced.
Proof.
  intros Hy H0 H1. unfold SumCheckRecursive.Verifier.roundJ. cbv zeta.
  cbn [SumCheckRecursive.Verifier.this_v SumCheckRecursive.Verifier.this_r
       SumCheckRecursive.Verifier.this_g
       SumCheckRecursive.Verifier.this_proposedSum].
  rewrite Hy, H0, H1. cbn [bind].
  destruct (negb (toBoolean (equals (add y0 y1)
              (SumCheckRecursive.Verifier.this_proposedSum verifier))));
    [reflexivity|].
  destruct (length (SumCheckRecursive.Verifier.this_r verifier ++ [random])
            =? SumCheckRecursive.Verifier.this_v verifier)%nat;
    [|reflexivity].
  destruct (getMultilinearLDE (SumCheckRecursive.Verifier.this_g verifier)
              (SumCheckRecursive.Verifier.this_r verifier ++ [random]))
    as [gOfR|e]; [|reflexivity].
  cbn [bind].
  destruct (negb (toBoolean (equals y gOfR))); reflexivity.
Qed.

(** The two verifiers in corresponding states, on the rounds that remain. *)
Lemma verifiers_agree_from (g : list F) (v : nat) :
  forall (calls : list (F * list F))
         (iv : SumCheckIterative.Verifier.t)
         (rv : SumCheckRecursive.Verifier.t),
    SumCheckIterative.Verifier.this_v iv = v ->
    SumCheckRecursive.Verifier.this_v rv = v ->
    SumCheckRecursive.Verifier.this_g rv = g ->
    SumCheckIterative.Verifier.this_r iv = SumCheckRecursive.Verifier.this_r rv ->
    length (SumCheckIterative.Verifier.this_polynomials iv)
    = length (SumCheckIterative.Verifier.this_r iv) ->
    expectedSum iv = Ok (SumCheckRecursive.Verifier.this_proposedSum rv) ->
    calls <> [] ->
    (length (SumCheckIterative.Verifier.this_r iv) + length calls = v)%nat ->
    Forall (fun call => (length (snd call) <= 2)%nat) calls ->
    (final <- verifyRounds iv calls ;;
     SumCheckIterative.Verifier.verifyOracleQueryOfG final g)
    = (_ <- roundJs rv calls ;; Ok tt).
Proof.
  induction calls as [|[random g_j] rest IH];
    intros iv rv Hiv Hrv Hg Hr Hp Hexp Hne Hlen Hdeg; [contradiction|].
  inversion Hdeg as [|? ? Hg_j Hrest]; subst.
  cbn [snd] in Hg_j. cbn [length] in Hlen.
  destruct iv as [iv_v C polys r]. destruct rv as [rv_v r' g P].
  cbn [SumCheckIterative.Verifier.this_v SumCheckIterative.Verifier.this_r
       SumCheckIterative.Verifier.this_polynomials
       SumCheckIterative.Verifier.this_proposedSum
       SumCheckRecursive.Verifier.this_v SumCheckRecursive.Verifier.this_r
       SumCheckRecursive.Verifier.this_g
       SumCheckRecursive.Verifier.this_proposedSum] in *.
  subst r' rv_v. cbn [verifyRounds roundJs].
  destruct g_j as [|a g_j'].
  - (* an empty polynomial *)
    unfold SumCheckIterative.Verifier.verifyRoundJPolynomial,
      SumCheckRecursive.Verifier.roundJ.
    cbn [SumCheckIterative.Verifier.this_v SumCheckIterative.Verifier.this_r
         length].
    destruct (Nat.ltb_spec iv_v (length r + 1)) as [E|_]; [lia|].
    reflexivity.
  - assert (Hne_j : a :: g_j' <> []) by discriminate.
    destruct (short_polynomial_total _ random Hne_j Hg_j) as [y Hy].
    destruct (short_polynomial_total _ (Field 0) Hne_j Hg_j) as [y0 H0].
    destruct (short_polynomial_total _ (Field 1) Hne_j Hg_j) as [y1 H1].
    rewrite (iterative_round random _ _ P y0 y1)
      by (try assumption;
          cbn [SumCheckIterative.Verifier.this_v
               SumCheckIterative.Verifier.this_r]; lia).
    rewrite (recursive_round random _ _ y y0 y1) by assumption.
    cbv zeta.
    cbn [SumCheckIterative.Verifier.this_v SumCheckIterative.Verifier.this_r
         SumCheckIterative.Verifier.this_polynomials
         SumCheckIterative.Verifier.this_proposedSum
         SumCheckRecursive.Verifier.this_v SumCheckRecursive.Verifier.this_r
         SumCheckRecursive.Verifier.this_g
         SumCheckRecursive.Verifier.this_proposedSum].
    destruct (negb (toBoolean (equals (add y0 y1) P))); [reflexivity|].
    cbn [bind snd fst].
    assert (Hlast :
      getUnivariateLDE_at
        (nth_error (polys ++ [a :: g_j']) (length r))
        (nth_error (r ++ [random]) (length r)) = Ok y).
    { rewrite (nth_error_snoc polys _ (length r)) by (now symmetry).
      rewrite (nth_error_snoc r _ (length r)) by reflexivity.
      cbn [getUnivariateLDE_at length Nat.eqb]. exact Hy. }
    destruct rest as [|call rest].
    + (* the last round: the oracle is queried *)
      cbn [length] in Hlen. cbn [verifyRounds roundJs bind].
      unfold SumCheckIterative.Verifier.verifyOracleQueryOfG.
      cbn [SumCheckIterative.Verifier.this_v SumCheckIterative.Verifier.this_r
           SumCheckIterative.Verifier.this_polynomials].
      rewrite !length_app, Hp. cbn [length].
      replace (length r + 1 =? iv_v)%nat with true
        by (symmetry; apply Nat.eqb_eq; lia).
      cbn [negb orb].
      replace (length r + 1 - 1)%nat with (length r) by lia.
      rewrite Hlast.
      destruct (getMultilinearLDE g (r ++ [random])) as [gOfR|e];
        [|reflexivity].
      cbn [bind]. rewrite (equals_sym gOfR y).
      destruct (negb (toBoolean (equals y gOfR))); reflexivity.
    + (* a round before the last *)
      cbn [length] in Hlen.
      rewrite length_app. cbn [length].
      replace (length r + 1 =? iv_v)%nat with false
        by (symmetry; apply Nat.eqb_neq; lia).
      cbn [bind].
      apply IH; try reflexivity; try assumption; try discriminate.
      * cbn [SumCheckIterative.Verifier.this_polynomials
             SumCheckIterative.Verifier.this_r].
        rewrite !length_app, Hp. reflexivity.
      * unfold expectedSum.
        cbn [SumCheckIterative.Verifier.this_polynomials
             SumCheckIterative.Verifier.this_r
             SumCheckRecursive.Verifier.this_proposedSum].
        rewrite length_app. cbn [length].
        destruct (Nat.eqb_spec (length r + 1 + 1) 1) as [E|_]; [lia|].
        replace (length r + 1 + 1 - 2)%nat with (length r) by lia.
        exact Hlast.
      * cbn [SumCheckIterative.Verifier.this_r].
        rewrite length_app. cbn [length]. lia.
Qed.

(** The verifiers of [sum-check-iterative.ts] and [sum-check-recursive.ts]
    decide alike.  For [v >= 1], a table of at most [2^v] entries, and any
    [v] polynomials of at most two entries each with any challenges drawn:
    checking them one after the other with [verifyRoundJPolynomial] and then
    calling [verifyOracleQueryOfG] gives the same outcome as constructing the
    recursive verifier and calling [roundJ] on each, acceptance or the same
    error. *)
Theorem verifiers_agree (proposedSum : F) (g : list F) (v : nat)
  (calls : list (F * list F)) :
  (1 <= v)%nat -> (length g <= 2 ^ v)%nat ->
  length calls = v ->
  Forall (fun call => (length (snd call) <= 2)%nat) calls ->
  (final <- verifyRounds (SumCheckIterative.Verifier.constructor proposedSum v)
              calls ;;
   SumCheckIterative.Verifier.verifyOracleQueryOfG final g)
  = (verifier <- SumCheckRecursive.Verifier.constructor proposedSum g v ;;
     _ <- roundJs verifier calls ;;
     Ok tt).
Proof.
  intros Hv Hg Hlen Hdeg.
  unfold SumCheckRecursive.Verifier.constructor.
  rewrite length_pow2_bound by assumption. cbn [bind].
  apply (verifiers_agree_from g v); try reflexivity; try assumption.
  - destruct calls; [simpl in Hlen; lia | discriminate].
Qed.

Lemma verifiers_agree_witness :
  (final <- verifyRounds (SumCheckIterative.Verifier.constructor (Field 10) 2)
              [(Field 5, [Field 3; Field 7]); (Field 9, [Field 11; Field 12])] ;;
   SumCheckIterative.Verifier.verifyOracleQueryOfG final
     [Field 1; Field 2; Field 3; Field 4])
  = (verifier <- SumCheckRecursive.Verifier.constructor (Field 10)
                   [Field 1; Field 2; Field 3; Field 4] 2 ;;
     _ <- roundJs verifier
            [(Field 5, [Field 3; Field 7]); (Field 9, [Field 11; Field 12])] ;;
     Ok tt).
Proof.
  apply (verifiers_agree (Field 10) [Field 1; Field 2; Field 3; Field 4] 2
           [(Field 5, [Field 3; Field 7]); (Field 9, [Field 11; Field 12])]).
  - lia.
  - simpl. lia.
  - reflexivity.
  - repeat constructor.
Defined.


(** [roundJ] of [sum-check-recursive.ts] has no degree check.  In a round
    before the last, a polynomial of any number of entries (two or more,
    fewer than [2^32]) whose first two entries sum to the expected value is
    accepted: the challenge is returned and the expected value becomes the
    polynomial's value at the challenge.  [verifyRoundJPolynomial] of
    [sum-check-iterative.ts] throws the degree error on every polynomial of
    more than two entries. *)
Theorem recursive_verifier_has_no_degree_check (random : F)
  (verifier : SumCheckRecursive.Verifier.t) (a b : F) (rest : list F) :
  (length (SumCheckRecursive.Verifier.this_r verifier) + 1
   < SumCheckRecursive.Verifier.this_v verifier)%nat ->
  Z.of_nat (length (a :: b :: rest)) < 2 ^ 32 ->
  add a b = SumCheckRecursive.Verifier.this_proposedSum verifier ->
  (exists y,
     getUnivariateLDE (a :: b :: rest) random = Ok y
     /\ SumCheckRecursive.Verifier.roundJ random verifier (a :: b :: rest)
        = (SumCheckRecursive.Verifier.mk
             (SumCheckRecursive.Verifier.this_v verifier)
             (SumCheckRecursive.Verifier.this_r verifier ++ [random])
             (SumCheckRecursive.Verifier.this_g verifier) y,
           Ok random))
  /\ (rest <> [] ->
      forall (checked : SumCheckIterative.Verifier.t),
        (length (SumCheckIterative.Verifier.this_r checked)
         < SumCheckIterative.Verifier.this_v checked)%nat ->
        SumCheckIterative.Verifier.verifyRoundJPolynomial random checked
          (a :: b :: rest)
        = Err DegreeError).
Proof.
  intros Hround Hlen Hsum. split.
  - destruct (getUnivariateLDE_total (a :: b :: rest) random) as [y Hy];
      [discriminate | assumption |].
    exists y. split; [exact Hy|].
    rewrite (recursive_round random verifier _ y a b).
    + cbv zeta. rewrite equals_same by assumption. cbn [negb].
      rewrite length_app. cbn [length].
      destruct (Nat.eqb_spec
                  (length (SumCheckRecursive.Verifier.this_r verifier) + 1)
                  (SumCheckRecursive.Verifier.this_v verifier)) as [E|_];
        [lia | reflexivity].
    + exact Hy.
    + apply (getUnivariateLDE_node (a :: b :: rest) 0 a); [assumption|].
      reflexivity.
    + apply (getUnivariateLDE_node (a :: b :: rest) 1 b); [assumption|].
      reflexivity.
  - intros Hrest checked Hchecked.
    unfold SumCheckIterative.Verifier.verifyRoundJPolynomial.
    destruct (Nat.ltb_spec (SumCheckIterative.Verifier.this_v checked)
                (length (SumCheckIterative.Verifier.this_r checked) + 1))
      as [E|_]; [lia|].
    destruct rest as [|c rest]; [contradiction | reflexivity].
Qed.

Lemma recursive_verifier_has_no_degree_check_witness :
  (exists y,
     getUnivariateLDE [Field 3; Field 7; Field 100] (Field 5) = Ok y
     /\ SumCheckRecursive.Verifier.roundJ (Field 5)
          (SumCheckRecursive.Verifier.mk 2 []
             [Field 1; Field 2; Field 3; Field 4] (Field 10))
          [Field 3; Field 7; Field 100]
        = (SumCheckRecursive.Verifier.mk 2 ([] ++ [Field 5])
             [Field 1; Field 2; Field 3; Field 4] y,
           Ok (Field 5)))
  /\ ([Field 100] <> [] ->
      forall (checked : SumCheckIterative.Verifier.t),
        (length (SumCheckIterative.Verifier.this_r checked)
         < SumCheckIterative.Verifier.this_v checked)%nat ->
        SumCheckIterative.Verifier.verifyRoundJPolynomial (Field 5) checked
          [Field 3; Field 7; Field 100]
        = Err DegreeError).
Proof.
  apply (recursive_verifier_has_no_degree_check (Field 5)
           (SumCheckRecursive.Verifier.mk 2 []
              [Field 1; Field 2; Field 3; Field 4] (Field 10))
           (Field 3) (Field 7) [Field 100]).
  - simpl. lia.
  - simpl. lia.
  - reflexivity.
Defined.

(** The outcomes of [getRoundJPolynomial] of [sum-check-prover.ts], in any
    state and with or without a challenge: it returns a polynomial of exactly
    two entries, or throws the round-overflow error, the missing-challenge
    error, or one of the two errors of [getMultilinearLDE].  The
    unexpected-challenge error is never thrown: the challenge is pushed
    before the round number is computed, so a call with a challenge is never
    in round 1. *)
Theorem prover_outcomes (this : SumCheckProver.Prover.t) (r_prev : option F) :
  match snd (SumCheckProver.Prover.getRoundJPolynomial this r_prev) with
  | Ok g_j => length g_j = 2%nat
  | Err e =>
      e = RoundOverflowError \/ e = MissingChallengeError
      \/ e = EmptyInputError \/ e = DimensionMismatchError
  end.
Proof.
  unfold SumCheckProver.Prover.getRoundJPolynomial. cbv zeta.
  set (this' := match r_prev with
                | Some c => _
                | None => this
                end).
  destruct (SumCheckProver.Prover.this_v this'
            <=? length (SumCheckProver.Prover.this_r this'))%nat;
    [cbn [snd]; auto|].
  assert (Hdead : ((length (SumCheckProver.Prover.this_r this') + 1 =? 1)%nat
                   && isDefined r_prev) = false).
  { destruct r_prev as [c|]; [|apply andb_false_r].
    subst this'. cbn [SumCheckProver.Prover.this_r isDefined].
    rewrite length_app. cbn [length].
    destruct (Nat.eqb_spec (length (SumCheckProver.Prover.this_r this) + 1 + 1) 1);
      [lia | reflexivity]. }
  rewrite Hdead.
  destruct (negb (length (SumCheckProver.Prover.this_r this') + 1 =? 1)%nat
            && negb (isDefined r_prev)); [cbn [snd]; auto|].
  cbn [snd].
  destruct (negb (length _ =? 0)%nat).
  - match goal with
    | |- context [for_loop ?l ?body ?acc] =>
        destruct (for_loop l body acc) as [sums|e] eqn:Eloop
    end.
    + reflexivity.
    + cbn [bind]. apply for_loop_err in Eloop.
      destruct Eloop as (vector & [sum0 sum1] & _ & Hbody).
      destruct (getMultilinearLDE (SumCheckProver.Prover.this_g this')
                  (SumCheckProver.Prover.this_r this' ++ [Field 0] ++ vector))
        as [at0|e0] eqn:E0.
      * cbn [bind] in Hbody.
        destruct (getMultilinearLDE (SumCheckProver.Prover.this_g this')
                    (SumCheckProver.Prover.this_r this' ++ [Field 1] ++ vector))
          as [at1|e1] eqn:E1; [discriminate|].
        cbn [bind] in Hbody. injection Hbody as <-.
        apply getMultilinearLDE_error in E1. tauto.
      * cbn [bind] in Hbody. injection Hbody as <-.
        apply getMultilinearLDE_error in E0. tauto.
  - destruct (getMultilinearLDE (SumCheckProver.Prover.this_g this')
                (SumCheckProver.Prover.this_r this' ++ [Field 0]))
      as [at0|e0] eqn:E0.
    + cbn [bind].
      destruct (getMultilinearLDE (SumCheckProver.Prover.this_g this')
                  (SumCheckProver.Prover.this_r this' ++ [Field 1]))
        as [at1|e1] eqn:E1; [reflexivity|].
      cbn [bind]. apply getMultilinearLDE_error in E1. tauto.
    + cbn [bind]. apply getMultilinearLDE_error in E0. tauto.
Qed.

End Agreement.

(* ================================================================== *)
(** * The verifier and the runner of [sum-check.ts] *)

Section Unchecked.
Import Util UnivariateLagrange MultilinearLagrange.

Lemma at_index_error {A : Type} (xs : list A) (i : nat) (e : error) :
  at_index xs i = Err e -> e = TypeError.
Proof. unfold at_index. destruct (nth_error xs i); congruence. Qed.

Lemma div_error (x y : F) (e : error) : div x y = Err e -> e = DivisionByZeroError.
Proof. unfold div. destruct (inverse (toBigInt y)); congruence. Qed.

Lemma getUnivariateLagrangeBasis_error (index : nat) (nodes : list F) (x : F)
  (e : error) :
  getUnivariateLagrangeBasis index nodes x = Err e ->
  e = TypeError \/ e = DivisionByZeroError.
Proof.
  unfold getUnivariateLagrangeBasis. intros H. apply for_loop_err in H.
  destruct H as (j & acc & _ & Hterm).
  destruct (j =? index)%nat; [discriminate|].
  destruct (at_index nodes j) as [node_j|e2] eqn:E2.
  - cbn [bind] in Hterm.
    destruct (at_index nodes index) as [node_index|e3] eqn:E3.
    + cbn [bind] in Hterm.
      destruct (div (sub x node_j) (sub node_index node_j)) as [term|e4] eqn:E4;
        [discriminate|].
      cbn [bind] in Hterm. injection Hterm as <-.
      apply div_error in E4. auto.
    + cbn [bind] in Hterm. injection Hterm as <-.
      apply at_index_error in E3. auto.
  - cbn [bind] in Hterm. injection Hterm as <-.
    apply at_index_error in E2. auto.
Qed.

(** The only errors of [getUnivariateLDE]. *)
Lemma getUnivariateLDE_error (values : list F) (r : F) (e : error) :
  getUnivariateLDE values r = Err e ->
  e = EmptyInputError \/ e = TypeError \/ e = DivisionByZeroError.
Proof.
  unfold getUnivariateLDE.
  destruct (length values =? 0)%nat; [intros H; left; congruence|].
  destruct (toBoolean (lessThan r (Z.of_nat (length values)))).
  - intros H. apply at_index_error in H. auto.
  - intros H. apply for_loop_err in H.
    destruct H as (i & acc & _ & Hbody).
    destruct (at_index values i) as [values_i|e0] eqn:E0.
    + cbn [bind] in Hbody.
      match type of Hbody with
      | context [getUnivariateLagrangeBasis ?k ?nodes ?x] =>
          destruct (getUnivariateLagrangeBasis k nodes x) as [basis|e1] eqn:E1
      end; [discriminate|].
      cbn [bind] in Hbody. injection Hbody as <-.
      apply getUnivariateLagrangeBasis_error in E1. tauto.
    + cbn [bind] in Hbody. injection Hbody as <-.
      apply at_index_error in E0. auto.
Qed.

Lemma getUnivariateLDE_at_error (values : option (list F)) (r : option F)
  (e : error) :
  getUnivariateLDE_at values r = Err e ->
  e = EmptyInputError \/ e = TypeError \/ e = DivisionByZeroError.
Proof.
  unfold getUnivariateLDE_at. destruct values as [vs|]; [|intros H; left; congruence].
  destruct (length vs =? 0)%nat; [intros H; left; congruence|].
  destruct r as [x|]; [apply getUnivariateLDE_error|].
  intros H. right. left. congruence.
Qed.

(** The verifier of [sum-check.ts] never rejects a value.  In no state and
    on no polynomial does [verifyRoundJPolynomial] throw the sum-mismatch
    error, and on no table does [verifyOracleQueryOfG] throw the
    oracle-mismatch error: their guards negate the [Bool] object that
    [equals] returns, which is never falsy. *)
Theorem sumcheck_verifier_never_rejects_a_value :
  (forall (random : F) (verifier : SumCheck.Verifier.t) (g_j : list F),
     SumCheck.Verifier.verifyRoundJPolynomial random verifier g_j
     <> Err SumMismatchError)
  /\ (forall (verifier : SumCheck.Verifier.t) (g : list F),
        SumCheck.Verifier.verifyOracleQueryOfG verifier g
        <> Err OracleMismatchError).
Proof.
  split.
  - intros random verifier g_j.
    unfold SumCheck.Verifier.verifyRoundJPolynomial. cbv zeta.
    destruct (_ <? _)%nat; [discriminate|].
    destruct (_ <? _)%nat; [discriminate|].
    destruct (getUnivariateLDE g_j (Field 0)) as [at0|e0] eqn:E0.
    2: { cbn [bind]. apply getUnivariateLDE_error in E0.
         intros H. injection H as ->. destruct E0 as [|[|]]; discriminate. }
    cbn [bind].
    destruct (getUnivariateLDE g_j (Field 1)) as [at1|e1] eqn:E1.
    2: { cbn [bind]. apply getUnivariateLDE_error in E1.
         intros H. injection H as ->. destruct E1 as [|[|]]; discriminate. }
    cbn [bind]. unfold truthy. cbn [negb].
    destruct (_ =? 1)%nat; [discriminate|].
    destruct (1 <? _)%nat; [|discriminate].
    destruct (getUnivariateLDE_at _ _) as [prev|e2] eqn:E2; [discriminate|].
    cbn [bind]. apply getUnivariateLDE_at_error in E2.
    intros H. injection H as ->. destruct E2 as [|[|]]; discriminate.
  - intros verifier g. unfold SumCheck.Verifier.verifyOracleQueryOfG.
    destruct (_ || _); [discriminate|].
    destruct (getMultilinearLDE g _) as [gOfR|e0] eqn:E0.
    2: { cbn [bind]. apply getMultilinearLDE_error in E0.
         intros H. injection H as ->. destruct E0; discriminate. }
    cbn [bind].
    destruct (getUnivariateLDE_at _ _) as [last|e1] eqn:E1; [discriminate|].
    cbn [bind]. apply getUnivariateLDE_at_error in E1.
    intros H. injection H as ->. destruct E1 as [|[|]]; discriminate.
Qed.

End Unchecked.

Section Run.
Import Util UnivariateLagrange MultilinearLagrange.

Variables (g : list F) (v : nat).
Hypothesis g_nonempty : g <> [].
Hypothesis g_dimension : ceilLog2 (length g) = v.

(** The proposed sum of the prover of [sum-check.ts]. *)
Lemma sumcheck_getProposedSum_hsum :
  (1 <= v)%nat ->
  SumCheck.Prover.getProposedSum (SumCheck.Prover.mk v g [])
  = Ok (hsum g [] v).
Proof.
  intros Hv. unfold SumCheck.Prover.getProposedSum.
  cbn [SumCheck.Prover.this_v SumCheck.Prover.this_g].
  rewrite sumcheck_getBinaryVectors_cube by assumption.
  rewrite (for_loop_sum _ _ (fun i => mle g (nth i (cube v) []))).
  - f_equal. unfold hsum. cbn [app].
    rewrite <- (map_nth_all (cube v) []) at 2. rewrite map_map.
    ring.
  - intros i a Hin. apply in_seq in Hin.
    rewrite (at_index_lt _ _ []) by lia. cbn [bind].
    rewrite getMultilinearLDE_spec; [reflexivity | assumption |].
    rewrite g_dimension. apply cube_dimension. apply nth_In. lia.
Qed.

(** Called without a challenge, the prover of [sum-check.ts] is in round 1. *)
Lemma sumcheck_first_round :
  (2 <= v)%nat ->
  SumCheck.Prover.getRoundJPolynomial (SumCheck.Prover.mk v g []) None
  = (SumCheck.Prover.mk v g [], Ok (honestPolynomial g [] v)).
Proof.
  intros Hv. unfold SumCheck.Prover.getRoundJPolynomial.
  cbn [SumCheck.Prover.this_v SumCheck.Prover.this_g SumCheck.Prover.this_r
       length Nat.eqb isDefined andb negb Nat.add].
  destruct (Nat.leb_spec v 0) as [E|_]; [lia|].
  apply f_equal.
  rewrite sumcheck_getBinaryVectors_cube by lia.
  rewrite (for_loop_pair_sum _ _
             (fun b => mle g ([Field 0] ++ b))
             (fun b => mle g ([Field 1] ++ b))).
  - cbn [bind fst snd]. unfold honestPolynomial, hsum. cbn [length Nat.add app].
    apply f_equal. apply f_equal2; [ring|]. apply f_equal2; [ring | reflexivity].
  - intros b s0 s1 Hb. apply cube_dimension in Hb. cbn [app].
    rewrite !getMultilinearLDE_spec
      by (try assumption; cbn [length]; lia).
    reflexivity.
Qed.

Lemma nth_error_repeat_last {A : Type} (a : A) (n : nat) :
  nth_error (repeat a (S n)) n = Some a.
Proof. induction n as [|n IH]; [reflexivity | exact IH]. Qed.

(** The rounds of the runner of [sum-check.ts]: the prover stays in round 1
    and the verifier stores the same polynomial again. *)
Lemma sumcheck_rounds_repeat (random : nat -> F) :
  (2 <= v)%nat ->
  forall n j verifier,
    (j + n = v)%nat ->
    SumCheck.Verifier.this_v verifier = v ->
    length (SumCheck.Verifier.this_r verifier) = j ->
    SumCheck.Verifier.this_polynomials verifier
    = repeat (honestPolynomial g [] v) j ->
    exists verifier',
      SumCheckRun.rounds random n j (SumCheck.Prover.mk v g []) verifier
      = Ok (SumCheck.Prover.mk v g [], verifier')
      /\ SumCheck.Verifier.this_v verifier' = v
      /\ length (SumCheck.Verifier.this_r verifier') = v
      /\ SumCheck.Verifier.this_polynomials verifier'
         = repeat (honestPolynomial g [] v) v.
Proof.
  intros Hv. induction n as [|n IH]; intros j verifier Hjn Hvv Hr Hp.
  - exists verifier. replace j with v in * by lia. cbn [SumCheckRun.rounds].
    auto.
  - cbn [SumCheckRun.rounds]. rewrite (sumcheck_first_round Hv).
    cbn [bind]. unfold honestPolynomial at 1 2 3.
    rewrite getUnivariateLDE_two_0, getUnivariateLDE_two_1. cbn [bind].
    fold (honestPolynomial g [] v).
    assert (Hcheck :
      SumCheck.Verifier.verifyRoundJPolynomial (random j) verifier
        (honestPolynomial g [] v)
      = Ok (random j,
            SumCheck.Verifier.mk (SumCheck.Verifier.this_v verifier)
              (SumCheck.Verifier.this_proposedSum verifier)
              (SumCheck.Verifier.this_polynomials verifier
               ++ [honestPolynomial g [] v])
              (SumCheck.Verifier.this_r verifier ++ [random j]))).
    { unfold SumCheck.Verifier.verifyRoundJPolynomial. cbv zeta.
      rewrite Hvv, Hr.
      destruct (Nat.ltb_spec v (j + 1)) as [E|_]; [lia|].
      unfold honestPolynomial at 1 2 3.
      change (2 <? length [_; _])%nat with false. cbv iota.
      rewrite getUnivariateLDE_two_0, getUnivariateLDE_two_1. cbn [bind].
      unfold truthy. cbn [negb].
      destruct (Nat.eqb_spec (j + 1) 1) as [_|Hj]; [reflexivity|].
      destruct (Nat.ltb_spec 1 (j + 1)) as [_|E]; [|lia].
      rewrite Hp.
      destruct j as [|j]; [lia|].
      replace (S j + 1 - 2)%nat with j by lia.
      rewrite nth_error_repeat_last.
      destruct (nth_error (SumCheck.Verifier.this_r verifier) j) as [x|] eqn:Ex.
      - unfold honestPolynomial at 1.
        cbn [getUnivariateLDE_at length Nat.eqb].
        rewrite getUnivariateLDE_two. reflexivity.
      - apply nth_error_None in Ex. lia. }
    rewrite Hcheck. cbn [bind snd].
    apply IH.
    + lia.
    + exact Hvv.
    + cbn [SumCheck.Verifier.this_r]. rewrite length_app, Hr. cbn [length]. lia.
    + cbn [SumCheck.Verifier.this_polynomials]. rewrite Hp.
      rewrite <- repeat_snoc. reflexivity.
Qed.

(** After [v] such rounds the oracle query returns. *)
Lemma sumcheck_oracle_unchecked (verifier : SumCheck.Verifier.t) :
  (1 <= v)%nat ->
  SumCheck.Verifier.this_v verifier = v ->
  length (SumCheck.Verifier.this_r verifier) = v ->
  SumCheck.Verifier.this_polynomials verifier
  = repeat (honestPolynomial g [] v) v ->
  SumCheck.Verifier.verifyOracleQueryOfG verifier g = Ok tt.
Proof.
  intros Hv Hvv Hr Hp. unfold SumCheck.Verifier.verifyOracleQueryOfG.
  rewrite Hp, repeat_length, Hr, Hvv, Nat.eqb_refl. cbn [negb orb].
  rewrite getMultilinearLDE_spec by (assumption || congruence). cbn [bind].
  destruct v as [|k]; [lia|].
  replace (S k - 1)%nat with k by lia.
  rewrite nth_error_repeat_last.
  destruct (nth_error (SumCheck.Verifier.this_r verifier) k) as [x|] eqn:Ex.
  - unfold honestPolynomial at 1.
    cbn [getUnivariateLDE_at length Nat.eqb].
    rewrite getUnivariateLDE_two. reflexivity.
  - apply nth_error_None in Ex. lia.
Qed.

End Run.

Section RunClaims.
Import Util UnivariateLagrange MultilinearLagrange.

(** The run of [sum-check.ts] passes without being a sum-check proof.  Its
    runner calls the prover without a challenge in every round, so for a
    table of dimension [v >= 2] the prover stays in round 1 and sends the
    same polynomial [g_1] in each of the [v] rounds; the verifier stores the
    [v] copies and the oracle query returns.  This holds whatever sum was
    proposed to the verifier, so in particular the runner passes. *)
Theorem sumcheck_run_ignores_challenges (g : list F) (v : nat)
  (random : nat -> F) :
  (2 <= v)%nat -> (2 ^ (v - 1) < length g <= 2 ^ v)%nat ->
  SumCheckRun.runner g v random = Ok tt
  /\ forall proposedSum : F,
       exists g_1 verifier,
         SumCheckRun.rounds random v 0 (SumCheck.Prover.mk v g [])
           (SumCheck.Verifier.constructor proposedSum v)
         = Ok (SumCheck.Prover.mk v g [], verifier)
         /\ SumCheck.Verifier.this_polynomials verifier = repeat g_1 v
         /\ SumCheck.Verifier.verifyOracleQueryOfG verifier g = Ok tt.
Proof.
  intros Hv Hg.
  assert (Hne : g <> []) by (intros ->; simpl in Hg; lia).
  assert (Hdim : ceilLog2 (length g) = v) by (apply ceilLog2_unique; lia).
  assert (Hall : forall proposedSum : F,
    exists verifier,
      SumCheckRun.rounds random v 0 (SumCheck.Prover.mk v g [])
        (SumCheck.Verifier.constructor proposedSum v)
      = Ok (SumCheck.Prover.mk v g [], verifier)
      /\ SumCheck.Verifier.this_polynomials verifier
         = repeat (honestPolynomial g [] v) v
      /\ SumCheck.Verifier.verifyOracleQueryOfG verifier g = Ok tt).
  { intros proposedSum.
    destruct (sumcheck_rounds_repeat g v Hne Hdim random Hv v 0
                (SumCheck.Verifier.constructor proposedSum v))
      as (verifier & Hrun & Hvv & Hr & Hp); try reflexivity.
    exists verifier. split; [exact Hrun|]. split; [exact Hp|].
    apply (sumcheck_oracle_unchecked g v Hne Hdim); try assumption. lia. }
  split.
  - unfold SumCheckRun.runner, SumCheck.Prover.constructor.
    rewrite length_pow2_bound by lia. cbn [bind].
    rewrite (sumcheck_getProposedSum_hsum g v Hne Hdim) by lia. cbn [bind].
    destruct (Hall (hsum g [] v)) as (verifier & Hrun & _ & Hquery).
    rewrite Hrun. cbn [bind fst snd SumCheck.Prover.this_g]. exact Hquery.
  - intros proposedSum.
    destruct (Hall proposedSum) as (verifier & Hrun & Hp & Hquery).
    exists (honestPolynomial g [] v), verifier.
    exact (conj Hrun (conj Hp Hquery)).
Qed.

Lemma sumcheck_run_ignores_challenges_witness :
  SumCheckRun.runner [Field 1; Field 2; Field 3; Field 4] 2
    (fun j => Field (Z.of_nat j + 5)) = Ok tt
  /\ forall proposedSum : F,
       exists g_1 verifier,
         SumCheckRun.rounds (fun j => Field (Z.of_nat j + 5)) 2 0
           (SumCheck.Prover.mk 2 [Field 1; Field 2; Field 3; Field 4] [])
           (SumCheck.Verifier.constructor proposedSum 2)
         = Ok (SumCheck.Prover.mk 2 [Field 1; Field 2; Field 3; Field 4] [],
               verifier)
         /\ SumCheck.Verifier.this_polynomials verifier = repeat g_1 2
         /\ SumCheck.Verifier.verifyOracleQueryOfG verifier
              [Field 1; Field 2; Field 3; Field 4] = Ok tt.
Proof.
  apply (sumcheck_run_ignores_challenges [Field 1; Field 2; Field 3; Field 4]
           2 (fun j => Field (Z.of_nat j + 5))).
  - lia.
  - simpl. lia.
Defined.

End RunClaims.

(* ================================================================== *)
(** * The memoized basis table and messages of two characters *)

Section MemoizedTable.
Import Util UnivariateLagrange MultilinearLagrange MessageExtensions.

(** The table built by [memoizedLagrangeBasis] of
    [fast-multilinear-lagrange.ts].  For a point [x] of 1 to 32 coordinates
    the function returns [2^d] entries, [d = x.length]; the entry at index
    [i] is what [getMultilinearLagrangeBasis] computes directly for the vertex
    [toBinary(i, d)] at [x]; and the entries sum to one. *)
Theorem memoized_basis_table (x : list F) :
  (1 <= length x <= 32)%nat ->
  exists table,
    memoizedLagrangeBasis x = Ok table
    /\ length table = (2 ^ length x)%nat
    /\ (forall i, (i < 2 ^ length x)%nat ->
          getMultilinearLagrangeBasis
            (map (fun e => Field e) (toBinary (Z.of_nat i) (length x))) x
          = Ok (nth i table (Field 0)))
    /\ fsum table = Field 1.
Proof.
  intros [Hx1 Hx32].
  exists (map (fun w => basisR w x) (cube (length x))).
  split; [now apply memoizedLagrangeBasis_spec|].
  split; [now rewrite length_map, length_cube|].
  split.
  - intros i Hi.
    rewrite getMultilinearLagrangeBasis_spec
      by (now rewrite length_map, length_toBinary).
    apply f_equal.
    rewrite <- bits_cube, map_map.
    rewrite (nth_indep _ (Field 0)
               ((fun k => basisR (map (fun e => Field e)
                                      (bitsMSB (length x) (Z.of_nat k))) x) 0%nat))
      by (now rewrite length_map, length_seq).
    rewrite (map_nth (fun k => basisR (map (fun e => Field e)
                                         (bitsMSB (length x) (Z.of_nat k))) x)).
    rewrite seq_nth by assumption. cbn [Nat.add].
    now rewrite toBinary_bits.
  - now apply cube_basis_sum.
Qed.

Lemma memoized_basis_table_witness :
  exists table,
    memoizedLagrangeBasis [Field 3; Field 5] = Ok table
    /\ length table = (2 ^ length [Field 3; Field 5])%nat
    /\ (forall i, (i < 2 ^ length [Field 3; Field 5])%nat ->
          getMultilinearLagrangeBasis
            (map (fun e => Field e)
                 (toBinary (Z.of_nat i) (length [Field 3; Field 5])))
            [Field 3; Field 5]
          = Ok (nth i table (Field 0)))
    /\ fsum table = Field 1.
Proof.
  apply (memoized_basis_table [Field 3; Field 5]). simpl. lia.
Defined.

(** On a message of two ASCII characters the univariate and the naive
    multilinear extension are the same line: at every [r] both return
    [(1 - r) * a + r * b], for the codes [a] and [b] of the characters. *)
Theorem two_character_extensions_coincide (a b : Z) (r : F) :
  isAscii a -> isAscii b ->
  MessageUnivariate.getUnivariateLagrange [a; b] r
  = Ok (add (mul (sub (Field 1) r) (Field a)) (mul r (Field b)))
  /\ getMultilinearLagrange [a; b] [r]
     = Ok (add (mul (sub (Field 1) r) (Field a)) (mul r (Field b))).
Proof.
  intros Ha Hb.
  assert (Hmsg : Forall isAscii [a; b])
    by (constructor; [assumption | constructor; [assumption | constructor]]).
  split.
  - rewrite univariate_codes by assumption. cbn [map].
    apply getUnivariateLDE_two.
  - rewrite multilinear_codes by assumption. cbn [map].
    rewrite getMultilinearLDE_spec by (discriminate || reflexivity).
    apply f_equal. unfold mle. cbn [length].
    change (ceilLog2 2) with 1%nat.
    change (seq 0 (2 ^ 1)) with [0%nat; 1%nat].
    cbn [map]. unfold mleTerm. cbn [length Nat.ltb Nat.leb nth].
    change (vertexF 1 0) with [Field 0]. change (vertexF 1 1) with [Field 1].
    cbn [basisR]. rewrite !fsum_cons. unfold chi.
    cbn [fsum fold_right]. ring.
Qed.

Lemma two_character_extensions_coincide_witness :
  MessageUnivariate.getUnivariateLagrange [104; 105] (Field 2)
  = Ok (add (mul (sub (Field 1) (Field 2)) (Field 104))
            (mul (Field 2) (Field 105)))
  /\ getMultilinearLagrange [104; 105] [Field 2]
     = Ok (add (mul (sub (Field 1) (Field 2)) (Field 104))
               (mul (Field 2) (Field 105))).
Proof.
  apply (two_character_extensions_coincide 104 105 (Field 2));
    unfold isAscii; lia.
Defined.

End MemoizedTable.

(* ================================================================== *)
(** * Linearity of the univariate extension *)

Section UnivariateLinear.
Import Util UnivariateLagrange.

(** Off the nodes [getUnivariateLDE] is a sum of the table entries with
    weights that depend on the length of the table and the point only. *)
Lemma getUnivariateLDE_weights (n : nat) (r : F) :
  Z.of_nat n < 2 ^ 32 ->
  exists weight : nat -> F,
    forall values, length values = n ->
      toBoolean (lessThan r (Z.of_nat n)) = false ->
      getUnivariateLDE values r
      = if (n =? 0)%nat then Err EmptyInputError
        else Ok (fsum (map (fun i => mul (nth i values (Field 0)) (weight i))
                           (seq 0 n))).
Proof.
  intros Hn.
  exists (fun i =>
            match getUnivariateLagrangeBasis i
                    (map (fun index => Field (Z.of_nat index)) (seq 0 n)) r with
            | Ok b => b
            | Err _ => Field 0
            end).
  intros values Hlen Hslow. unfold getUnivariateLDE. rewrite Hlen, Hslow.
  destruct (n =? 0)%nat; [reflexivity|].
  rewrite length_map, length_seq.
  rewrite (for_loop_sum _ _
             (fun i => mul (nth i values (Field 0))
                match getUnivariateLagrangeBasis i
                        (map (fun index => Field (Z.of_nat index)) (seq 0 n)) r
                with
                | Ok b => b
                | Err _ => Field 0
                end)).
  - apply f_equal. ring.
  - intros i acc Hi. apply in_seq in Hi.
    rewrite (at_index_lt _ _ (Field 0)) by lia. cbn [bind].
    destruct (getUnivariateLagrangeBasis_total values i r) as [b Hb];
      [lia | lia |].
    rewrite Hlen in Hb. rewrite Hb. reflexivity.
Qed.

(** [getUnivariateLDE] is linear in the table: for two tables [g] and [h]
    of the same length (fewer than [2^32] entries) on which it returns [yg]
    and [yh] at [r], on the table of the entries [a * g_i + h_i] it returns
    [a * yg + yh] at [r], at a node as well as off the nodes. *)
Theorem univariate_lde_linear (g h : list F) (a r yg yh : F) :
  length g = length h -> Z.of_nat (length g) < 2 ^ 32 ->
  getUnivariateLDE g r = Ok yg ->
  getUnivariateLDE h r = Ok yh ->
  getUnivariateLDE
    (map (fun p => add (mul a (fst p)) (snd p)) (combine g h)) r
  = Ok (add (mul a yg) yh).
Proof.
  intros Hlen Hn Hg Hh.
  set (table := map (fun p => add (mul a (fst p)) (snd p)) (combine g h)).
  assert (Hl : length table = length g)
    by (unfold table; rewrite length_map, length_combine; lia).
  assert (Hentry : forall i, (i < length g)%nat ->
            nth i table (Field 0)
            = add (mul a (nth i g (Field 0))) (nth i h (Field 0))).
  { intros i Hi. unfold table.
    rewrite (nth_indep _ (Field 0)
               ((fun p => add (mul a (fst p)) (snd p)) (Field 0, Field 0)))
      by (rewrite length_map, length_combine; lia).
    rewrite (map_nth (fun p => add (mul a (fst p)) (snd p))).
    rewrite combine_nth by assumption. reflexivity. }
  destruct (toBoolean (lessThan r (Z.of_nat (length g)))) eqn:Hfast.
  - (* at a node *)
    pose proof (lessThan_length g r Hn Hfast) as Hi.
    unfold getUnivariateLDE in *. rewrite Hl. rewrite <- Hlen in Hh.
    destruct (length g =? 0)%nat; [discriminate|].
    rewrite Hfast in *.
    rewrite (at_index_lt _ _ (Field 0)) in Hg by lia.
    rewrite (at_index_lt _ _ (Field 0)) in Hh by lia.
    apply Ok_inj in Hg. apply Ok_inj in Hh. subst yg yh.
    rewrite (at_index_lt _ _ (Field 0)) by lia.
    apply f_equal. now apply Hentry.
  - destruct (getUnivariateLDE_weights (length g) r Hn) as [weight Hw].
    rewrite (Hw g eq_refl Hfast) in Hg.
    rewrite (Hw h (eq_sym Hlen) Hfast) in Hh.
    rewrite (Hw table Hl Hfast).
    destruct (length g =? 0)%nat; [discriminate|].
    apply Ok_inj in Hg. apply Ok_inj in Hh. subst yg yh.
    apply f_equal.
    rewrite (map_ext_in _
               (fun i => add (mul a (mul (nth i g (Field 0)) (weight i)))
                             (mul (nth i h (Field 0)) (weight i)))).
    + apply fsum_linear. intros i _. reflexivity.
    + intros i Hi. apply in_seq in Hi. rewrite Hentry by lia. ring.
Qed.

Lemma univariate_lde_linear_witness :
  getUnivariateLDE
    (map (fun p => add (mul (Field 3) (fst p)) (snd p))
       (combine [Field 1; Field 2] [Field 10; Field 20]))
    (Field 5)
  = Ok (add (mul (Field 3) (Field 6)) (Field 60)).
Proof.
  apply (univariate_lde_linear [Field 1; Field 2] [Field 10; Field 20]
           (Field 3) (Field 5)).
  - reflexivity.
  - simpl. lia.
  - vm_compute. reflexivity.
  - vm_compute. reflexivity.
Defined.

End UnivariateLinear.
